(** * ai-newsbot: feed normalizer, content extractor, extractive summarizer
      and batch pipeline of [src/index.js], embedded in Rocq.

    The embedding follows the JavaScript source function by function.
    Values coming out of the XML-to-object deserialiser are dynamically
    typed, so they are modelled by a small universe [jsval]; exceptions are
    modelled by the [result] monad; the external collaborators (network,
    xml2js, cheerio, natural's sentence tokenizer) are parameters of the
    development, and so is what the language leaves to the engine and to
    the deserialiser (the sort on an inconsistent comparator, the
    conversion of a parsed object to a string): the class [Runtime]. *)

From Stdlib Require Import ZArith Ascii String List Lia Bool QArith_base Sorted.
From stdpp Require Import base option list strings gmap sorting.

Close Scope Q_scope.
Local Open Scope Z_scope.

(* ===================================================================== *)
(** * Exceptions *)
(* ===================================================================== *)

(** A JavaScript computation either returns or throws an error carrying a
    message ([error.message]). *)
Inductive result (A : Type) : Type :=
| Ok (a : A)
| Throw (msg : string).
Arguments Ok {A} a.
Arguments Throw {A} msg.

#[global] Instance result_ret : MRet result := fun A a => Ok a.
#[global] Instance result_bind : MBind result :=
  fun A B f m => match m with Ok a => f a | Throw e => Throw e end.
#[global] Instance result_fmap : FMap result :=
  fun A B f m => match m with Ok a => Ok (f a) | Throw e => Throw e end.

(** [try { m } catch (error) { h error.message }] *)
Definition try_catch {A} (m : result A) (h : string -> result A) : result A :=
  match m with Ok a => Ok a | Throw e => h e end.

(** [xs.map(f)] for a callback that may throw: the first exception, in
    index order, aborts the whole map. *)
Fixpoint mapR {A B} (f : A -> result B) (xs : list A) : result (list B) :=
  match xs with
  | [] => Ok []
  | x :: xs' => y ← f x; ys ← mapR f xs'; mret (y :: ys)
  end.

(* ===================================================================== *)
(** * JavaScript strings *)
(* ===================================================================== *)

(** A string is a sequence of code units; the model covers the code units
    below 256, one [ascii] each (Latin-1). *)
Module JsString.

Definition code (c : ascii) : N := N_of_ascii c.

(** The class [\s] restricted to code units below 256. *)
Definition is_space (c : ascii) : bool :=
  let n := code c in
  ((9 <=? n) && (n <=? 13) || (n =? 32) || (n =? 160))%N.

(** The class [\w] = [[A-Za-z0-9_]]; [\W] is its complement. *)
Definition is_word (c : ascii) : bool :=
  let n := code c in
  ((65 <=? n) && (n <=? 90) || (97 <=? n) && (n <=? 122)
   || (48 <=? n) && (n <=? 57) || (n =? 95))%N.
Definition is_nonword (c : ascii) : bool := negb (is_word c).

(** [toLowerCase] on one code unit. *)
Definition lower_char (c : ascii) : ascii :=
  let n := code c in
  if ((65 <=? n) && (n <=? 90)
      || (192 <=? n) && (n <=? 222) && negb (n =? 215))%N
  then ascii_of_N (n + 32) else c.

Fixpoint toLowerCase (s : string) : string :=
  match s with
  | EmptyString => EmptyString
  | String c s' => String (lower_char c) (toLowerCase s')
  end.

Definition length (s : string) : Z := Z.of_nat (String.length s).

(** [s.split(/C+/)] for a character class [C]: the pieces between the
    maximal runs of [C]; a run at either end leaves an empty piece there,
    and the empty string splits into one empty piece.  [after_sep] tells
    that the previous code unit belonged to a run. *)
Fixpoint split_runs (sep : ascii -> bool) (after_sep : bool) (s : string)
  : list string :=
  match s with
  | EmptyString => [EmptyString]
  | String c s' =>
      if sep c then
        if after_sep then split_runs sep true s'
        else EmptyString :: split_runs sep true s'
      else
        match split_runs sep false s' with
        | w :: ws => String c w :: ws
        | [] => [String c EmptyString]
        end
  end.

(** [s.split(/\s+/)] and [s.split(/\W+/)] *)
Definition split_ws (s : string) : list string := split_runs is_space false s.
Definition split_nonword (s : string) : list string :=
  split_runs is_nonword false s.

(** [xs.join(sep)] *)
Fixpoint join (sep : string) (xs : list string) : string :=
  match xs with
  | [] => EmptyString
  | [x] => x
  | x :: xs' => x +:+ sep +:+ join sep xs'
  end.

(** [s.replace(/\s+/g, ' ')] *)
Fixpoint collapse_ws (after_sep : bool) (s : string) : string :=
  match s with
  | EmptyString => EmptyString
  | String c s' =>
      if is_space c then
        if after_sep then collapse_ws true s'
        else String " "%char (collapse_ws true s')
      else String c (collapse_ws false s')
  end.

Fixpoint trimStart (s : string) : string :=
  match s with
  | EmptyString => EmptyString
  | String c s' => if is_space c then trimStart s' else s
  end.

Fixpoint trimEnd (s : string) : string :=
  match s with
  | EmptyString => EmptyString
  | String c s' =>
      match trimEnd s' with
      | EmptyString => if is_space c then EmptyString else String c EmptyString
      | r => String c r
      end
  end.

(** [s.trim()] *)
Definition trim (s : string) : string := trimEnd (trimStart s).

(** [s.startsWith(p)] *)
Definition startsWith (p s : string) : bool := String.prefix p s.

(** [s.includes(p)] *)
Fixpoint includes (p s : string) : bool :=
  startsWith p s ||
  match s with
  | EmptyString => false
  | String _ s' => includes p s'
  end.

(** The word count the source uses everywhere: [s.split(/\s+/).length]. *)
Definition wordCount (s : string) : Z := Z.of_nat (List.length (split_ws s)).

End JsString.

(** [xs.slice(start, end)] on an array, with the clamping of relative
    indices that [Array.prototype.slice] does for negative arguments. *)
Definition slice_index (len i : Z) : Z :=
  if i <? 0 then Z.max (len + i) 0 else Z.min i len.

Definition slice {A} (start stop : Z) (xs : list A) : list A :=
  let len := Z.of_nat (List.length xs) in
  let k := slice_index len start in
  let e := slice_index len stop in
  firstn (Z.to_nat (e - k)) (skipn (Z.to_nat k) xs).

(** [array.sort(cmp)] for a consistent comparator: the sort is stable
    (ECMAScript 2019), so the result is the one of a stable insertion
    sort.  [cmp a b <= 0] keeps [a] before [b]. *)
Section Sort.
Context {A : Type} (cmp : A -> A -> Z).

Fixpoint sort_insert (x : A) (sorted : list A) : list A :=
  match sorted with
  | [] => [x]
  | y :: rest =>
      if cmp x y <=? 0 then x :: y :: rest else y :: sort_insert x rest
  end.

Fixpoint sort (xs : list A) : list A :=
  match xs with
  | [] => []
  | x :: rest => sort_insert x (sort rest)
  end.

(** A consistent comparator on the elements of an array: the signs of
    [cmp a b] and [cmp b a] are opposite and [cmp a b <= 0] is
    transitive. *)
Definition consistentOn (xs : list A) : Prop :=
  (forall x y, In x xs -> In y xs -> Z.sgn (cmp x y) = - Z.sgn (cmp y x))
  /\ (forall x y z, In x xs -> In y xs -> In z xs ->
                    cmp x y <= 0 -> cmp y z <= 0 -> cmp x z <= 0).
End Sort.

(* ===================================================================== *)
(** * Dynamically typed values *)
(* ===================================================================== *)

(** The values xml2js (with [explicitArray: false]) hands to the code: a
    text-only element is a string, an element with attributes or children
    an object whose [$] holds the attributes and [_] the text, a repeated
    element an array.  A missing property reads as [undefined].  [JFun] is
    a built-in method read as a value: the code never calls one, but a
    text-only item inherits [link] from [String.prototype]. *)
#[warnings="-register-all"] Inductive jsval : Type :=
| JUndef
| JNull
| JStr (s : string)
| JObj (fields : list (string * jsval))
| JArr (elems : list jsval)
| JFun (name : string).

Abbreviation jsobj := (list (string * jsval)).

(** What the program takes from its surroundings without saying so.

    [objectToString]: ToString on an object the deserialiser built, as a
    template literal applies it.  Through [Object.prototype.toString] it
    is the text [[object Object]]; it throws a TypeError when the object
    has no prototype (xml2js from 0.5 on) or shadows [toString] with a
    child element of that name.

    [arraySort]: [Array.prototype.sort].  The language fixes the result
    for a consistent comparator (the stable sort) and otherwise only that
    the elements are rearranged. *)
Class Runtime : Type := {
  objectToString : jsobj -> result string;
  arraySort : forall A : Type, (A -> A -> Z) -> list A -> list A;
  arraySort_permutation :
    forall (A : Type) (cmp : A -> A -> Z) (xs : list A), arraySort A cmp xs ≡ₚ xs;
  arraySort_stable :
    forall (A : Type) (cmp : A -> A -> Z) (xs : list A),
      consistentOn cmp xs -> arraySort A cmp xs = sort cmp xs
}.
Arguments arraySort {_ A} cmp xs.

Module Js.

(** ToBoolean *)
Definition truthy (v : jsval) : bool :=
  match v with
  | JUndef | JNull => false
  | JStr s => negb (String.eqb s EmptyString)
  | JObj _ | JArr _ | JFun _ => true
  end.

(** [typeof v === 'object'] *)
Definition is_object (v : jsval) : bool :=
  match v with
  | JNull | JObj _ | JArr _ => true
  | JUndef | JStr _ | JFun _ => false
  end.

(** [Array.isArray(v)] *)
Definition isArray (v : jsval) : bool :=
  match v with JArr _ => true | _ => false end.

Fixpoint lookup (k : string) (fs : jsobj) : jsval :=
  match fs with
  | [] => JUndef
  | (k', v) :: fs' => if String.eqb k k' then v else lookup k fs'
  end.

(** [v.k] for one of the names the code reads this way ([$], [_], element
    names, attribute names): reading from [undefined] or [null] throws a
    TypeError; an object answers with its own property; of these names a
    string inherits one, [link] ([String.prototype.link]); arrays and
    functions have none of them. *)
Definition prop (v : jsval) (k : string) : result jsval :=
  match v with
  | JUndef => Throw ("Cannot read properties of undefined (reading '" +:+ k +:+ "')")
  | JNull => Throw ("Cannot read properties of null (reading '" +:+ k +:+ "')")
  | JObj fs => Ok (lookup k fs)
  | JStr _ => Ok (if String.eqb k "link" then JFun "link" else JUndef)
  | JArr _ | JFun _ => Ok JUndef
  end.

(** [a || b] *)
Definition or (a b : jsval) : jsval := if truthy a then a else b.

(** [a === b] against a string literal *)
Definition is_str (lit : string) (v : jsval) : bool :=
  match v with JStr s => String.eqb s lit | _ => false end.

(** ToString, as a template literal applies it.  An array is joined with
    commas, [undefined] and [null] elements counting as empty. *)
Fixpoint toString `{Runtime} (v : jsval) : result string :=
  match v with
  | JUndef => Ok "undefined"
  | JNull => Ok "null"
  | JStr s => Ok s
  | JFun name => Ok ("function " +:+ name +:+ "() { [native code] }")
  | JObj fields => objectToString fields
  | JArr xs =>
      JsString.join "," <$>
        ((fix each (l : list jsval) : result (list string) :=
            match l with
            | [] => Ok []
            | x :: l' =>
                s ← match x with
                    | JUndef | JNull => Ok EmptyString
                    | _ => toString x
                    end;
                ss ← each l';
                mret (s :: ss)
            end) xs)
  end.

(** [v?.startsWith(p)] as a condition *)
Definition opt_startsWith (p : string) (v : jsval) : result bool :=
  match v with
  | JUndef | JNull => Ok false
  | JStr s => Ok (JsString.startsWith p s)
  | JObj _ | JArr _ | JFun _ => Throw "startsWith is not a function"
  end.

(** [v.includes(p)] for a string literal [p]: the string method on a
    string, the array method on an array, no such method elsewhere. *)
Definition includes (p : string) (v : jsval) : result bool :=
  match v with
  | JStr s => Ok (JsString.includes p s)
  | JArr xs => Ok (existsb (is_str p) xs)
  | JObj _ | JFun _ => Throw "includes is not a function"
  | JUndef => Throw "Cannot read properties of undefined (reading 'includes')"
  | JNull => Throw "Cannot read properties of null (reading 'includes')"
  end.

End Js.

(* ===================================================================== *)
(** * Feed Normalizer ([fetchRSSFeed]) *)
(* ===================================================================== *)

Module ImgRegex.
(** The regular expression of the image cascade (source line 49), by
    hand: the literal <img, then one or more code units other than >
    (greedy, with backtracking), then src= and a quote, then the group,
    one or more code units other than quote and >, then a quote.  The
    match starts at the leftmost possible position. *)

Definition dquote : ascii := "034"%char.
Definition gt : ascii := ">"%char.
Definition src_eq : string := "src=" +:+ String dquote EmptyString.

Fixpoint drop (n : nat) (s : string) : string :=
  match n, s with
  | O, _ => s
  | S n', String _ s' => drop n' s'
  | S _, EmptyString => EmptyString
  end.

(** The group and its closing quote: the group is the longest run free
    of quote and >; it must be non-empty and closed by a quote. *)
Fixpoint group (s : string) : option string :=
  match s with
  | EmptyString => None
  | String c s' =>
      if Ascii.eqb c dquote || Ascii.eqb c gt then None
      else match s' with
           | String d _ =>
               if Ascii.eqb d dquote then Some (String c EmptyString)
               else String c <$> group s'
           | EmptyString => None
           end
  end.

Definition src_here (s : string) : option string :=
  if JsString.startsWith src_eq s then group (drop 5 s) else None.

(** Any number of code units other than >, as many as possible, then
    src= with its quoted group. *)
Fixpoint greedy (s : string) : option string :=
  match s with
  | EmptyString => None
  | String c s' =>
      match (if Ascii.eqb c gt then None else greedy s') with
      | Some r => Some r
      | None => src_here s
      end
  end.

Definition after_img (s : string) : option string :=
  match s with
  | String c s' => if Ascii.eqb c gt then None else greedy s'
  | EmptyString => None
  end.

(** The first capture group of the leftmost match, if any. *)
Fixpoint exec (s : string) : option string :=
  match (if JsString.startsWith "<img" s then after_img (drop 4 s) else None) with
  | Some r => Some r
  | None => match s with
            | EmptyString => None
            | String _ s' => exec s'
            end
  end.

End ImgRegex.

(** The canonical item built by the object literal of source lines 74-83. *)
Record CanonicalItem : Type := mkItem {
  guid : jsval;
  title : jsval;
  description : jsval;
  link : jsval;
  pubDate : jsval;
  imageUrl : jsval;
  source : string;
  sourceName : jsval
}.

(** The same item as the JavaScript object it is, keys in creation order
    (what [{...item}] copies). *)
Definition item_object (it : CanonicalItem) : jsobj :=
  [ ("guid", guid it); ("title", title it); ("description", description it);
    ("link", link it); ("pubDate", pubDate it); ("imageUrl", imageUrl it);
    ("source", JStr (source it)); ("sourceName", sourceName it) ]%string.

Section Normalizer.
Context `{Runtime}.

(** [axios.get(url)] followed by [parser.parseStringPromise]: the parsed
    document, or the network or parse error. *)
Variable fetchFeed : string -> result jsval.
(** [new URL(url).hostname] *)
Variable hostname : string -> result string.

(** [v && v.$.type?.startsWith('image/')] as a condition (lines 41, 43). *)
Definition is_image (v : jsval) : result bool :=
  if Js.truthy v then
    attrs ← Js.prop v "$"; ty ← Js.prop attrs "type";
    Js.opt_startsWith "image/" ty
  else mret false.

(** [v.$.url] *)
Definition attr_url (v : jsval) : result jsval :=
  attrs ← Js.prop v "$"; Js.prop attrs "url".

(** Lines 38-53: the image cascade, first match wins. *)
Definition resolveImage (item : jsval) : result jsval :=
  enclosure ← Js.prop item "enclosure";
  c1 ← is_image enclosure;
  if c1 : bool then attr_url enclosure
  else
    media ← Js.prop item "media:content";
    c2 ← is_image media;
    if c2 : bool then attr_url media
    else
      thumb ← Js.prop item "media:thumbnail";
      if Js.truthy thumb then attr_url thumb
      else
        descr ← Js.prop item "description";
        c4 ← (if Js.truthy descr then Js.includes "<img" descr else mret false);
        if c4 : bool then
          match descr with
          | JStr s =>
              match ImgRegex.exec s with
              | Some u => mret (JStr u)
              | None => mret JNull
              end
          | _ => Throw "item.description.match is not a function"
          end
        else mret JNull.

(** Lines 56-66: the identifier.  The operands of [||] in line 65 are
    evaluated from the left and only as far as needed, so the template
    literal converts title and pubDate only when id and link are falsy. *)
Definition resolveGuid (url : string) (item : jsval) : result jsval :=
  g0 ← Js.prop item "guid";
  g1 ← (if Js.truthy g0 && Js.is_object g0 then
          inner ← Js.prop g0 "_";
          mret (if Js.truthy inner then inner else g0)
        else mret g0);
  if negb (Js.truthy g1) then
    id ← Js.prop item "id";
    if Js.truthy id then mret id
    else
      lnk ← Js.prop item "link";
      if Js.truthy lnk then mret lnk
      else
        ttl ← Js.prop item "title";
        t ← Js.toString ttl;
        pd ← Js.prop item "pubDate";
        p ← Js.toString pd;
        mret (JStr (url +:+ "-" +:+ t +:+ "-" +:+ p))
  else mret g1.

(** Lines 69-72: the link. *)
Definition resolveLink (item : jsval) : result jsval :=
  l0 ← Js.prop item "link";
  if Js.is_object l0 then
    attrs ← Js.prop l0 "$";
    if Js.truthy attrs then Js.prop attrs "href" else mret (JStr "#")
  else mret l0.

(** The callback of [itemsArray.map] (lines 36-84). *)
Definition normalizeItem (url : string) (srcName : jsval) (item : jsval)
  : result CanonicalItem :=
  image ← resolveImage item;
  g ← resolveGuid url item;
  lnk ← resolveLink item;
  ttl ← Js.prop item "title";
  descr ← Js.prop item "description";
  summ ← Js.prop item "summary";
  pd ← Js.prop item "pubDate";
  publ ← Js.prop item "published";
  upd ← Js.prop item "updated";
  mret {| guid := g;
          title := Js.or ttl (JStr "No Title");
          description := Js.or descr (Js.or summ (JStr "No Description"));
          link := lnk;
          pubDate := Js.or pd (Js.or publ (Js.or upd (JStr "No Date")));
          imageUrl := image;
          source := url;
          sourceName := srcName |}.

(** The items of a parsed document, as an array (lines 27-34). *)
Definition feedChannel (parsed : jsval) : result jsval :=
  rss ← Js.prop parsed "rss";
  ch ← (match rss with
        | JUndef | JNull => mret JUndef
        | _ => Js.prop rss "channel"
        end);
  feed ← Js.prop parsed "feed";
  mret (Js.or ch feed).

Definition feedItems (channel : jsval) : result (list jsval) :=
  it ← Js.prop channel "item";
  en ← Js.prop channel "entry";
  let items := Js.or it (Js.or en (JArr [])) in
  mret (match items with JArr xs => xs | v => [v] end).

Definition feedSourceName (url : string) (channel : jsval) : result jsval :=
  ttl ← Js.prop channel "title";
  if Js.truthy ttl then mret ttl else JStr <$> hostname url.

(** The body of the [try] block of [fetchRSSFeed]. *)
Definition fetchRSSFeed_try (url : string) : result (list CanonicalItem) :=
  parsed ← fetchFeed url;
  channel ← feedChannel parsed;
  itemsArray ← feedItems channel;
  srcName ← feedSourceName url channel;
  mapR (normalizeItem url srcName) itemsArray.

(** [fetchRSSFeed(url)]: any exception of the body is caught and the
    source contributes the empty array (lines 85-88). *)
Definition fetchRSSFeed (url : string) : list CanonicalItem :=
  match fetchRSSFeed_try url with
  | Ok items => items
  | Throw _ => []
  end.

End Normalizer.

(* ===================================================================== *)
(** * Content Extractor ([extractArticleContent]) *)
(* ===================================================================== *)

(** The selectors the code hands to cheerio. *)
Inductive selector : Type :=
| ByTag (name : string)              (* article *)
| ByAttr (name value : string)      (* [role=main], value quoted *)
| ByClass (name : string)           (* .content *)
| ById (name : string).             (* #content-body *)

#[global] Instance selector_eq_dec : EqDecision selector.
Proof. solve_decision. Defined.

(** The part of cheerio the extractor uses, as an interface over a type of
    loaded documents and a type of selections. *)
Class Cheerio (Doc Sel : Type) : Type := {
  (** [$('a, b, ...').remove()] *)
  sel_remove : list selector -> Doc -> Doc;
  (** [$(selector)] *)
  select : Doc -> selector -> Sel;
  (** [selection.length] *)
  sel_length : Sel -> Z;
  (** [selection.find(selector)] *)
  sel_find : Sel -> selector -> Sel;
  (** [$(el).text()] for each element of the selection, in order: what the
      callback of [selection.each] reads *)
  each_text : Sel -> list string;
  (** [selection.text()] *)
  sel_text : Sel -> string
}.

(** Line 107. *)
Definition strippedTags : list selector :=
  [ByTag "script"; ByTag "style"; ByTag "meta"; ByTag "link"; ByTag "noscript";
   ByTag "iframe"; ByTag "form"; ByTag "header"; ByTag "footer"; ByTag "nav";
   ByTag "aside"]%string.

(** Lines 113-126. *)
Definition possibleSelectors : list selector :=
  [ByTag "article"; ByAttr "role" "main"; ByTag "main"; ByClass "article-content";
   ByClass "story-content"; ByClass "main-content"; ByClass "post-content";
   ById "content-body"; ByClass "content"; ByClass "entry-content";
   ByClass "story-body"; ById "article-body"]%string.

Definition blank_line : string := String "010"%char (String "010"%char EmptyString).

Section Extractor.
Context `{Runtime} {Doc Sel : Type} `{Cheerio Doc Sel}.

(** [axios.get(url, ...)] followed by [cheerio.load(response.data)]: the
    loaded page, or the error of the request. *)
Variable fetchArticle : jsval -> result Doc.

(** Lines 128-137: the first selector with a non-empty selection wins. *)
Fixpoint firstContainer (doc : Doc) (selectors : list selector) : option Sel :=
  match selectors with
  | [] => None
  | sel :: rest =>
      let element := select doc sel in
      if 0 <? sel_length element then Some element else firstContainer doc rest
  end.

(** The callback of [paragraphs.each] (lines 144-149 and 159-164). *)
Definition paragraphTexts (paragraphs : Sel) : list string :=
  List.filter (fun t => negb (String.eqb t EmptyString) && (20 <? JsString.length t))
              (List.map JsString.trim (each_text paragraphs)).

Definition usable (limit : Z) (s : string) : bool :=
  negb (String.eqb s EmptyString) && (limit <? JsString.length s).

(** Lines 103-183, once the page is loaded.  The template literal of
    line 182 converts the URL on the last exit only. *)
Definition extractFromPage (url : jsval) (page : Doc) : result string :=
  let doc := sel_remove strippedTags page in
  let contentElement := firstContainer doc possibleSelectors in
  let articleContent :=
    match contentElement with
    | Some el => JsString.join blank_line (paragraphTexts (sel_find el (ByTag "p")))
    | None => EmptyString
    end in
  let articleContent :=
    if String.eqb articleContent EmptyString || (JsString.length articleContent <? 200) then
      let significantParagraphs :=
        List.filter (fun p => 30 <? JsString.length p)
                    (paragraphTexts (select doc (ByTag "p"))) in
      if 0 <? Z.of_nat (List.length significantParagraphs)
      then JsString.join blank_line significantParagraphs
      else articleContent
    else articleContent in
  if usable 150 articleContent then mret articleContent
  else
    let bodyText :=
      JsString.collapse_ws false (JsString.trim (sel_text (select doc (ByTag "body")))) in
    if 200 <? JsString.length bodyText then mret bodyText
    else
      u ← Js.toString url;
      mret ("Could not extract meaningful content from " +:+ u +:+ ".").

(** [extractArticleContent(url)] (lines 92-188).  The log line of line 94
    converts the URL inside the [try] block; a failed request turns into
    the text of line 186, after the log line of line 185 has converted
    the URL once more, this time inside the [catch] block. *)
Definition extractArticleContent (url : jsval) : result string :=
  try_catch
    (_ ← Js.toString url;
     page ← fetchArticle url;
     extractFromPage url page)
    (fun message =>
       _ ← Js.toString url;
       mret ("Error extracting content: " +:+ message)).

End Extractor.

(* ===================================================================== *)
(** * Extractive Summarizer ([summarizeText]) *)
(* ===================================================================== *)

(** [array.indexOf(x)] on an array of strings. *)
Fixpoint indexOf (x : string) (xs : list string) : Z :=
  match xs with
  | [] => -1
  | y :: rest =>
      if String.eqb x y then 0
      else let i := indexOf x rest in if i <? 0 then -1 else 1 + i
  end.

(** Lines 224-228. *)
Definition stopwords : list string :=
  ["a"; "an"; "the"; "and"; "or"; "but"; "is"; "are"; "was"; "were";
   "in"; "on"; "at"; "to"; "for"; "with"; "by"; "about"; "from"; "of";
   "that"; "this"; "these"; "those"; "it"; "its"]%string.

(** [stopwords.includes(word)] *)
Definition is_stopword (word : string) : bool :=
  existsb (String.eqb word) stopwords.

(** The elements of [sentenceScores] (lines 253-257).  [score] is a
    number or NaN ([None]).  A number is the quotient of two integers; it
    is kept exact here, where the engine rounds it to a double (the two
    orders agree unless two different quotients round to the same
    double). *)
Record scored : Type := mkScored {
  sentence : string;
  score : option Q;
  wordCount : Z
}.

(** [(a, b) => b.score - a.score], by its sign.  With a NaN on either
    side the difference is NaN, which the sort takes for 0. *)
Definition byScore (a b : scored) : Z :=
  match score b, score a with
  | Some y, Some x => Z.sgn (Qnum (Qminus y x))
  | _, _ => 0
  end.

(** [(a, b) => sentences.indexOf(a.sentence) - sentences.indexOf(b.sentence)] *)
Definition byPosition (sentences : list string) (a b : scored) : Z :=
  indexOf (sentence a) sentences - indexOf (sentence b) sentences.

Definition len {A} (xs : list A) : Z := Z.of_nat (List.length xs).

(** The own properties of [wordFreq] (line 223).  [wordFreq] is an object
    literal used as a map from words to counts, and beside its own
    properties it answers for the names of [Object.prototype]; of those
    only constructor and __proto__ can be a lower-cased token.  Under
    constructor the first [+ 1] of line 237 finds the function [Object],
    whose text it extends: [ObjectText ones] is that text followed by
    [ones] digits 1. *)
Inductive tally : Type :=
| Count (n : Z)
| ObjectText (ones : nat).

Definition objectSource : string := "function Object() { [native code] }".

Fixpoint onesText (ones : nat) : string :=
  match ones with
  | O => EmptyString
  | S k => String "1"%char (onesText k)
  end.

(** The text a tally stands for. *)
Definition objectText (ones : nat) : string := objectSource +:+ onesText ones.

Section Summarizer.
Context `{Runtime}.

(** [new natural.SentenceTokenizer().tokenize(text)]: the sentences, or
    the exception the library raises. *)
Variable tokenize : string -> result (list string).

(** Lines 330-337, the [catch] block; lines 212-219 are the same padding
    and truncation on the short-document path. *)
Definition padWords (words : list string) (minWords maxWords : Z) : string :=
  JsString.join " " (slice 0 maxWords (words ++ slice 0 (minWords - len words) words)).

Definition truncateWords (words : list string) (maxWords : Z) : string :=
  JsString.join " " (slice 0 maxWords words) +:+ "...".

Definition summarizeFallback (text : string) (minWords maxWords : Z) : string :=
  let words := JsString.split_ws text in
  if len words <? minWords then padWords words minWords maxWords
  else truncateWords words maxWords.

(** Lines 193-202: the text is empty or shorter than 100 code units. *)
Definition summarizeShort (text : string) (minWords : Z) : string :=
  if negb (String.eqb text EmptyString) then
    let wordCount := len (JsString.split_ws text) in
    if wordCount <? minWords then
      text +:+ " " +:+
        JsString.join " " (slice 0 (minWords - wordCount) (JsString.split_ws text))
    else text
  else text.

(** Lines 211-220: at most three sentences. *)
Definition summarizeFew (text : string) (minWords maxWords : Z) : string :=
  let words := JsString.split_ws text in
  if (len words <=? maxWords) && (minWords <=? len words) then text
  else if len words <? minWords then padWords words minWords maxWords
  else truncateWords words maxWords.

(** Lines 231-239: the frequency table. *)
Definition contentWords (sentence : string) : list string :=
  List.filter (fun word => (1 <? JsString.length word) && negb (is_stopword word))
              (JsString.split_nonword (JsString.toLowerCase sentence)).

(** Line 237: [wordFreq[word] = (wordFreq[word] || 0) + 1].  An own count
    grows by one; an own text is truthy and gets the digit appended; a
    word without own property counts from 0, except constructor, which
    reads the inherited function.  Under __proto__ the read gives
    [Object.prototype] and the assignment of a text to it changes
    nothing. *)
Definition countWord (wordFreq : gmap string tally) (word : string)
  : gmap string tally :=
  if String.eqb word "__proto__" then wordFreq
  else
    <[word := match wordFreq !! word with
              | Some (Count n) => Count (n + 1)
              | Some (ObjectText ones) => ObjectText (S ones)
              | None => if String.eqb word "constructor" then ObjectText 1 else Count 1
              end]> wordFreq.

Definition wordFrequencies (sentences : list string) : gmap string tally :=
  fold_left (fun wordFreq sentence => fold_left countWord (contentWords sentence) wordFreq)
            sentences ∅.

(** Lines 247-249 for a word that is no stopword:
    [if (wordFreq[word]) score += wordFreq[word]].  The sum is a number
    as long as only counts are added; adding a text or an object makes it
    a text ([None]), and a text it stays. *)
Definition addFrequency (wordFreq : gmap string tally) (score : option Z)
           (word : string) : option Z :=
  if String.eqb word "__proto__" then None
  else
    match wordFreq !! word with
    | Some (Count f) =>
        if f =? 0 then score
        else match score with Some n => Some (n + f) | None => None end
    | Some (ObjectText _) => None
    | None => if String.eqb word "constructor" then None else score
    end.

(** Lines 242-258.  A sum that has become a text holds the text of the
    function [Object] or of [Object.prototype] and is no numeral: the
    quotient of line 255 is then NaN. *)
Definition scoreSentence (wordFreq : gmap string tally) (sentence : string) : scored :=
  let words :=
    List.filter (fun word => 1 <? JsString.length word)
                (JsString.split_nonword (JsString.toLowerCase sentence)) in
  let score :=
    fold_left (fun score word =>
                 if negb (is_stopword word) then addFrequency wordFreq score word
                 else score)
              words (Some 0) in
  {| sentence := sentence;
     score := if 0 <? len words
              then (fun n => Qmake n (Z.to_pos (len words))) <$> score
              else Some (Qmake 0 1);
     wordCount := len (JsString.split_ws sentence) |}.

(** Lines 276-291: refill the summary sentence by sentence. *)
Fixpoint refill (minWords maxWords : Z) (topSentences : list string)
         (summary : string) (currentWords : Z) : string :=
  match topSentences with
  | [] => summary
  | sentence :: rest =>
      let sentenceWordCount := len (JsString.split_ws sentence) in
      if currentWords + sentenceWordCount <=? maxWords then
        refill minWords maxWords rest (summary +:+ sentence +:+ " ")
               (currentWords + sentenceWordCount)
      else if String.eqb summary EmptyString || (currentWords <? minWords) then
        let wordsNeeded := Z.min (maxWords - currentWords) sentenceWordCount in
        summary +:+ JsString.join " " (slice 0 wordsNeeded (JsString.split_ws sentence))
                +:+ "... "
      else summary
  end.

(** Lines 306-315: append lower-ranked sentences while they fit. *)
Fixpoint appendMore (minWords maxWords : Z) (additional : list scored)
         (summary : string) (wordCount' : Z) : string * Z :=
  match additional with
  | [] => (summary, wordCount')
  | item :: rest =>
      if wordCount' + wordCount item <=? maxWords then
        let summary := summary +:+ " " +:+ sentence item in
        let wordCount' := wordCount' + wordCount item in
        if minWords <=? wordCount' then (summary, wordCount')
        else appendMore minWords maxWords rest summary wordCount'
      else appendMore minWords maxWords rest summary wordCount'
  end.

(** Lines 222-327: more than three sentences. *)
Definition summarizeMany (sentences : list string) (minWords maxWords : Z) : string :=
  let wordFreq := wordFrequencies sentences in
  let sentenceScores := List.map (scoreSentence wordFreq) sentences in
  (* [sort] works in place: from here on [sentenceScores] is the sorted array *)
  let sentenceScores := arraySort byScore sentenceScores in
  let topSentences :=
    List.map sentence (arraySort (byPosition sentences) (slice 0 5 sentenceScores)) in
  let summary := JsString.join " " topSentences in
  let wordCount0 := len (JsString.split_ws summary) in
  let summary :=
    if maxWords <? wordCount0 then refill minWords maxWords topSentences EmptyString 0
    else summary in
  let wordCount1 := len (JsString.split_ws (JsString.trim summary)) in
  let summary :=
    if wordCount1 <? minWords then
      let '(summary, wordCount2) :=
        if len topSentences <? len sentences then
          let additionalSentences :=
            arraySort (byPosition sentences)
                      (slice 5 10 (arraySort byScore sentenceScores)) in
          appendMore minWords maxWords additionalSentences summary wordCount1
        else (summary, wordCount1) in
      if wordCount2 <? minWords then
        let firstSentence := List.hd EmptyString topSentences in
        let keyWords := slice 0 (minWords - wordCount2) (JsString.split_ws firstSentence) in
        summary +:+ " Additional context: " +:+ JsString.join " " keyWords +:+ "."
      else summary
    else summary in
  JsString.trim summary.

(** [summarizeText(text, minWords, maxWords)] on a string (lines 191-339).
    Only the tokenizer can throw inside the [try] block, and it runs after
    [text] has been replaced by its cleaned form, which is therefore the
    text the [catch] block sees. *)
Definition summarizeString (text : string) (minWords maxWords : Z) : string :=
  if String.eqb text EmptyString || (JsString.length text <? 100) then
    summarizeShort text minWords
  else
    let text := JsString.trim (JsString.collapse_ws false text) in
    match tokenize text with
    | Ok sentences =>
        if len sentences <=? 3 then summarizeFew text minWords maxWords
        else summarizeMany sentences minWords maxWords
    | Throw _ => summarizeFallback text minWords maxWords
    end.

End Summarizer.

(* ===================================================================== *)
(** * Promises *)
(* ===================================================================== *)

(** [await Promise.all(promises)].  Every promise of the array settles with
    a [result]; [settleOrder] lists their indices in the order in which
    they happen to settle.  A fulfilled promise stores its value in the
    slot of its own index, the first rejection rejects the whole, and the
    whole is fulfilled once every slot is filled.  [None]: still pending
    when nothing more settles. *)
Section PromiseAll.
Context {A : Type}.

Fixpoint promiseAll_run (promises : list (result A)) (settleOrder : list nat)
         (values : list (option A)) : option (result (list A)) :=
  match mapM id values with
  | Some vs => Some (Ok vs)
  | None =>
      match settleOrder with
      | [] => None
      | i :: later =>
          match promises !! i with
          | Some (Ok v) => promiseAll_run promises later (<[i := Some v]> values)
          | Some (Throw e) => Some (Throw e)
          | None => promiseAll_run promises later values
          end
      end
  end.

Definition promiseAll (settleOrder : list nat) (promises : list (result A))
  : option (result (list A)) :=
  promiseAll_run promises settleOrder (replicate (List.length promises) None).
End PromiseAll.

(* ===================================================================== *)
(** * Batch Pipeline (the two routes) *)
(* ===================================================================== *)

(** Lines 13-17. *)
Definition rssFeeds : list string :=
  ["https://rss.nytimes.com/services/xml/rss/nyt/World.xml";
   "https://feeds.bbci.co.uk/news/rss.xml";
   "https://moxie.foxnews.com/google-publisher/latest.xml"]%string.

(** What a route hands to [res.status(..).json(..)]. *)
Record response : Type := mkResponse {
  status : Z;
  body : jsobj
}.

Section Pipeline.
Context `{Runtime} {Doc Sel : Type} `{Cheerio Doc Sel}.
Variable fetchFeed : string -> result jsval.
Variable hostname : string -> result string.
Variable fetchArticle : jsval -> result Doc.
Variable tokenize : string -> result (list string).
(** [allItems.sort(...)] with the date comparator of lines 355-359.  The
    comparator answers 0 on an invalid date and is then no ordering, so
    the outcome is the engine's; and [new Date(item.pubDate)] converts a
    pubDate that is an object, which can throw. *)
Variable sortByDate : list CanonicalItem -> result (list CanonicalItem).
(** [new Date().toISOString()] *)
Variable now : string.

(** The body of [summarizeText] on whatever value the caller holds.  A
    falsy text is returned as it is; a truthy value that is not a string
    has no [replace] and no [split], so the [try] block and then the
    [catch] block throw. *)
Definition summarizeBody (text : jsval) (minWords maxWords : Z) : result jsval :=
  match text with
  | JStr s => Ok (JStr (summarizeString tokenize s minWords maxWords))
  | JUndef | JNull => Ok text
  | JObj _ | JArr _ | JFun _ => Throw "text.split is not a function"
  end.

(** Line 191: [function summarizeText(text, minWords = 55, maxWords = 60)];
    an argument the caller leaves out takes its default. *)
Definition summarizeText (text : jsval) (minWords maxWords : option Z)
  : result jsval :=
  summarizeBody text (default 55 minWords) (default 60 maxWords).

(** The seven-field object literal of lines 378-386, 389-397, 400-408 and
    456-464. *)
Definition processedItem (item : CanonicalItem) (summary : jsval) : jsobj :=
  [ ("guid", guid item); ("title", title item);
    ("description", description item); ("summarized_content", summary);
    ("imageUrl", imageUrl item); ("sourceName", sourceName item);
    ("pubDate", pubDate item) ]%string.

(** [{...item, summarized_content: summary}] (lines 466-469, 473-476) *)
Definition spreadItem (item : CanonicalItem) (summary : jsval) : jsobj :=
  item_object item ++ [("summarized_content"%string, summary)].

(** [item.link && item.link !== '#'] *)
Definition resolvable (item : CanonicalItem) : bool :=
  Js.truthy (link item) && negb (Js.is_str "#" (link item)).

(** The callback of [batch.map] (lines 369-410).  The log line of line
    372 converts title and link inside the [try] block, the one of line
    388 converts the link inside the [catch] block. *)
Definition processBatchItem (item : CanonicalItem) : result jsobj :=
  if resolvable item then
    try_catch
      (_ ← Js.toString (title item);
       _ ← Js.toString (link item);
       content ← extractArticleContent fetchArticle (link item);
       summary ← summarizeText (JStr content) (Some 60) None;
       mret (processedItem item summary))
      (fun _ =>
         _ ← Js.toString (link item);
         summary ← summarizeText
                     (Js.or (description item) (JStr "Summarization failed."))
                     (Some 60) None;
         mret (processedItem item summary))
  else
    summary ← summarizeText
                (Js.or (description item) (JStr "No content to summarize."))
                (Some 60) None;
    mret (processedItem item summary).

Definition batchSize : Z := 3.

(** The loop of lines 365-420.  [timing i] is the order in which the
    promises of the batch starting at index [i] settle.  The loop runs
    while [i < allItems.length]; [fuel] bounds the number of rounds. *)
Fixpoint batchLoop (fuel : nat) (timing : Z -> list nat)
         (allItems : list CanonicalItem) (i : Z) (processedItems : list jsobj)
  : option (result (list jsobj)) :=
  match fuel with
  | O => None
  | S fuel' =>
      if i <? len allItems then
        let batch := slice i (i + batchSize) allItems in
        match promiseAll (timing i) (List.map processBatchItem batch) with
        | Some (Ok batchResults) =>
            batchLoop fuel' timing allItems (i + batchSize)
                      (processedItems ++ batchResults)
        | Some (Throw e) => Some (Throw e)
        | None => None
        end
      else Some (Ok processedItems)
  end.

(** Lines 362-420 on the sorted items: one round per started batch, so
    [length allItems + 1] rounds always suffice. *)
Definition processBatches (timing : Z -> list nat) (allItems : list CanonicalItem)
  : option (result (list jsobj)) :=
  batchLoop (S (List.length allItems)) timing allItems 0 [].

(** [GET /feeds/all] (lines 342-431).  [fetchRSSFeed] never rejects, so
    the first [Promise.all] yields the feeds in the order of [rssFeeds]. *)
Definition feedsAll_try (timing : Z -> list nat) : option (result (list jsobj)) :=
  let feedsResults := List.map (fetchRSSFeed fetchFeed hostname) rssFeeds in
  match sortByDate (List.concat feedsResults) with
  | Ok allItems => processBatches timing allItems
  | Throw e => Some (Throw e)
  end.

Definition feedsAll (timing : Z -> list nat) : option response :=
  match feedsAll_try timing with
  | Some (Ok processedItems) =>
      Some {| status := 200;
              body := [ ("sources", JArr (List.map JStr rssFeeds));
                        ("lastUpdated", JStr now);
                        ("items", JArr (List.map JObj processedItems)) ]%string |}
  | Some (Throw e) =>
      Some {| status := 500;
              body := [ ("error", JStr "Failed to process feeds");
                        ("message", JStr e) ]%string |}
  | None => None
  end.

(** Lines 449-470, the inner [try] block of process-one.  The log line
    of line 451 converts the title. *)
Definition processOne_try (item : CanonicalItem) : result jsobj :=
  if resolvable item then
    _ ← Js.toString (title item);
    content ← extractArticleContent fetchArticle (link item);
    summary ← summarizeText (JStr content) (Some 60) None;
    mret (processedItem item summary)
  else
    summary ← summarizeText (description item) (Some 60) None;
    mret (spreadItem item summary).

(** Lines 471-477, its [catch] block. *)
Definition processOne_catch (item : CanonicalItem) : result jsobj :=
  summary ← summarizeText (description item) (Some 60) None;
  mret (spreadItem item summary).

Definition processOne (item : CanonicalItem) : result jsobj :=
  try_catch (processOne_try item) (fun _ => processOne_catch item).

(** [GET /feeds/item/:guid] (lines 434-485). *)
Definition feedItem (requested : string) : response :=
  let allItems := List.concat (List.map (fetchRSSFeed fetchFeed hostname) rssFeeds) in
  match List.find (fun item => Js.is_str requested (guid item)) allItems with
  | Some item =>
      match processOne item with
      | Ok obj => {| status := 200; body := obj |}
      | Throw _ => {| status := 500;
                      body := [("error", JStr "Failed to fetch item")]%string |}
      end
  | None => {| status := 404; body := [("error", JStr "Item not found")]%string |}
  end.

End Pipeline.

(* ===================================================================== *)
(** * A document model for the cheerio interface *)
(* ===================================================================== *)

(** Element trees with the attributes the selectors look at.  A loaded
    document is the list of its root nodes.  An element is known by its
    place, the path of child indices that leads to it; a selection holds
    its elements once each, in document order, whatever way they were
    reached. *)
Module Dom.

#[warnings="-register-all"] Inductive node : Type :=
| Text (s : string)
| Elem (tag : string) (id : string) (classes : list string) (role : string)
       (kids : list node).

Definition matches (sel : selector) (n : node) : bool :=
  match n with
  | Text _ => false
  | Elem tag id classes role _ =>
      match sel with
      | ByTag name => String.eqb name tag
      | ByAttr name value => String.eqb name "role" && String.eqb value role
      | ByClass name => existsb (String.eqb name) classes
      | ById name => String.eqb name id
      end
  end.

Definition place : Type := list nat.

(** The elements of a subtree with their places, root first, in document
    order. *)
Fixpoint located (at_ : place) (n : node) : list (place * node) :=
  match n with
  | Text _ => []
  | Elem _ _ _ _ kids =>
      (at_, n) ::
      (fix children (i : nat) (ks : list node) : list (place * node) :=
         match ks with
         | [] => []
         | k :: ks' => located (at_ ++ [i]) k ++ children (S i) ks'
         end) 0%nat kids
  end.

Fixpoint locatedRoots (i : nat) (roots : list node) : list (place * node) :=
  match roots with
  | [] => []
  | r :: rest => located [i] r ++ locatedRoots (S i) rest
  end.

(** [above q p]: the element at [q] is a proper ancestor of the one at [p]. *)
Fixpoint above (q p : place) : bool :=
  match q, p with
  | [], _ :: _ => true
  | i :: q', j :: p' => Nat.eqb i j && above q' p'
  | _, [] => false
  end.

Fixpoint textOf (n : node) : string :=
  match n with
  | Text s => s
  | Elem _ _ _ _ kids => fold_right (fun k acc => textOf k +:+ acc) EmptyString kids
  end.

(** Drop every element matched by one of the selectors, with its subtree. *)
Fixpoint prune (sels : list selector) (n : node) : list node :=
  match n with
  | Text s => [Text s]
  | Elem tag id classes role kids =>
      if existsb (fun sel => matches sel n) sels then []
      else [Elem tag id classes role (flat_map (prune sels) kids)]
  end.

(** A selection: the elements of the document it was taken from, and the
    selected ones among them. *)
Record selection : Type := mkSelection {
  universe : list (place * node);
  members : list (place * node)
}.

Definition elementsOf (sel : selection) : list node := List.map snd (members sel).

#[global] Instance cheerio : Cheerio (list node) selection := {
  sel_remove sels doc := flat_map (prune sels) doc;
  select doc sel :=
    let all := locatedRoots 0 doc in
    {| universe := all; members := List.filter (fun e => matches sel (snd e)) all |};
  sel_length els := len (members els);
  sel_find els sel :=
    {| universe := universe els;
       members :=
         List.filter (fun e => matches sel (snd e)
                               && existsb (fun m => above (fst m) (fst e)) (members els))
                     (universe els) |};
  each_text els := List.map textOf (elementsOf els);
  sel_text els := fold_right (fun el acc => textOf el +:+ acc) EmptyString (elementsOf els)
}.

Definition p (s : string) : node := Elem "p" EmptyString [] EmptyString [Text s].
Definition div (class : string) (kids : list node) : node :=
  Elem "div" EmptyString [class] EmptyString kids.
Definition page (kids : list node) : list node :=
  [Elem "html" EmptyString [] EmptyString [Elem "body" EmptyString [] EmptyString kids]].

End Dom.

(* ===================================================================== *)
(** * The response on the wire *)
(* ===================================================================== *)

(** [res.json(value)] sends [JSON.stringify(value)].  Kept as a value: an
    object loses the properties whose value is [undefined] or a function,
    an array holds [null] in their place; everything else is kept. *)
Module Json.

Definition omitted (v : jsval) : bool :=
  match v with JUndef | JFun _ => true | _ => false end.

Fixpoint value (v : jsval) : jsval :=
  match v with
  | JObj fields =>
      JObj ((fix properties (fs : list (string * jsval)) : list (string * jsval) :=
               match fs with
               | [] => []
               | (k, x) :: fs' =>
                   if omitted x then properties fs'
                   else (k, value x) :: properties fs'
               end) fields)
  | JArr elems =>
      JArr ((fix elements (xs : list jsval) : list jsval :=
               match xs with
               | [] => []
               | x :: xs' => (if omitted x then JNull else value x) :: elements xs'
               end) elems)
  | _ => v
  end.

Definition object (o : jsobj) : jsobj :=
  match value (JObj o) with JObj fields => fields | _ => [] end.

End Json.

(** The body of a response as the client receives it. *)
Definition wireBody (r : response) : jsobj := Json.object (body r).

(* ===================================================================== *)
(** * Runtimes *)
(* ===================================================================== *)

Module Runtimes.

(** Objects with [Object.prototype] behind them, as xml2js built them
    before 0.5: the conversion answers [[object Object]] unless a child
    element named toString shadows the method.  The sort is the stable
    insertion sort on every comparator. *)
Definition legacy : Runtime.
Proof.
  refine {| objectToString fields :=
              if existsb (fun kv => String.eqb (fst kv) "toString") fields
              then Throw "Cannot convert object to primitive value"
              else Ok "[object Object]";
            arraySort := @sort |}.
  - intros A cmp xs. induction xs as [|x xs IH]; simpl; [reflexivity|].
    transitivity (x :: sort cmp xs); [|now rewrite IH].
    generalize (sort cmp xs). intros l.
    induction l as [|y l IHl]; simpl; [reflexivity|].
    destruct (cmp x y <=? 0); [reflexivity|].
    rewrite IHl. apply Permutation_swap.
  - reflexivity.
Defined.

(** Objects without prototype, as xml2js builds them from 0.5 on: no
    conversion succeeds. *)
Definition bare : Runtime :=
  {| objectToString fields := Throw "Cannot convert object to primitive value";
     arraySort := @sort;
     arraySort_permutation := @arraySort_permutation legacy;
     arraySort_stable := @arraySort_stable legacy |}.

(** Whether a comparator is consistent on an array, by trying all
    pairs and triples. *)
Definition consistentb {A} (cmp : A -> A -> Z) (xs : list A) : bool :=
  forallb (fun x => forallb (fun y => Z.sgn (cmp x y) =? - Z.sgn (cmp y x)) xs) xs
  && forallb (fun x =>
       forallb (fun y =>
         forallb (fun z => implb ((cmp x y <=? 0) && (cmp y z <=? 0)) (cmp x z <=? 0))
                 xs) xs) xs.

(** An engine that uses the freedom the language leaves: it sorts when
    the comparator is consistent on the array and reverses the array
    when it is not. *)
Definition reversing : Runtime.
Proof.
  refine {| objectToString := @objectToString legacy;
            arraySort A cmp xs := if consistentb cmp xs then sort cmp xs else rev xs |}.
  - intros A cmp xs. destruct (consistentb cmp xs).
    + apply (@arraySort_permutation legacy).
    + symmetry. apply Permutation_rev.
  - intros A cmp xs [Hsym Htrans].
    assert (Hc : consistentb cmp xs = true); [|now rewrite Hc].
    unfold consistentb. apply andb_true_intro. split.
    + apply forallb_forall. intros x Hx. apply forallb_forall. intros y Hy.
      apply Z.eqb_eq. now apply Hsym.
    + apply forallb_forall. intros x Hx. apply forallb_forall. intros y Hy.
      apply forallb_forall. intros z Hz.
      destruct (cmp x y <=? 0) eqn:E1; [|reflexivity].
      destruct (cmp y z <=? 0) eqn:E2; [|reflexivity].
      apply Z.leb_le in E1, E2. simpl. apply Z.leb_le. now apply (Htrans x y z).
Defined.

End Runtimes.

(* ===================================================================== *)
(** * Predicates and sample data of the statements *)
(* ===================================================================== *)

(** A field that is absent or plain text. *)
Definition plainField (v : jsval) : bool :=
  match v with JUndef | JStr _ => true | _ => false end.

(** A guid field that is absent, plain text, or a wrapper object carrying
    a non-empty text under [_]. *)
Definition textualGuid (g : jsval) : bool :=
  match g with
  | JUndef | JStr _ => true
  | JObj o => match Js.lookup "_" o with
              | JStr s => negb (String.eqb s EmptyString)
              | _ => false
              end
  | _ => false
  end.

Definition unwrapped (g : jsval) : jsval :=
  match g with JObj o => Js.lookup "_" o | _ => g end.

(** The first truthy candidate, else the fallback. *)
Fixpoint firstTruthy (candidates : list jsval) (fallback : jsval) : jsval :=
  match candidates with
  | [] => fallback
  | v :: rest => if Js.truthy v then v else firstTruthy rest fallback
  end.

(** A present element without attribute object: [v.$] is [undefined]. *)
Definition lacksAttrs (v : jsval) : bool :=
  Js.truthy v &&
  match Js.prop v "$" with Ok JUndef => true | _ => false end.

(** The image cascade reaches an element that lacks its attribute object:
    the enclosure, or [media:content] when the enclosure did not match, or
    [media:thumbnail] when neither did. *)
Definition cascadeHitsBareElement (fields : jsobj) : Prop :=
  let enclosure := Js.lookup "enclosure" fields in
  let media := Js.lookup "media:content" fields in
  let thumb := Js.lookup "media:thumbnail" fields in
  lacksAttrs enclosure = true
  \/ (is_image enclosure = Ok false /\ lacksAttrs media = true)
  \/ (is_image enclosure = Ok false /\ is_image media = Ok false
      /\ lacksAttrs thumb = true).

Module Samples.
Definition feedUrl : string := "https://feeds.bbci.co.uk/news/rss.xml".

Definition rssDocument (items : jsval) : jsval :=
  JObj [("rss", JObj [("channel",
          JObj [("title", JStr "BBC News"); ("item", items)])])]%string.

(** An item without [link] element. *)
Definition itemWithoutLink : jsobj :=
  [("title", JStr "Bridge reopens"); ("description", JStr "Teaser");
   ("guid", JStr "tag:1")]%string.

(** A guid element with an isPermaLink attribute and no text. *)
Definition itemWithEmptyGuid : jsobj :=
  [("title", JStr "Bridge reopens");
   ("guid", JObj [("$", JObj [("isPermaLink", JStr "false")])]);
   ("link", JStr "https://www.bbc.co.uk/news/1")]%string.

(** An Atom-style entry with a structured link. *)
Definition atomEntry : jsobj :=
  [("title", JStr "Bridge reopens"); ("id", JStr "urn:1");
   ("link", JObj [("$", JObj [("href", JStr "https://example.org/1");
                              ("rel", JStr "alternate")])])]%string.

(** An item with nothing but a title. *)
Definition bareItem : jsobj := [("title", JStr "Bridge reopens")]%string.

(** An image enclosure, and a [media:thumbnail] given as bare text. *)
Definition itemWithImageAndBareThumbnail : jsobj :=
  [("title", JStr "Bridge reopens"); ("link", JStr "https://www.bbc.co.uk/news/1");
   ("enclosure", JObj [("$", JObj [("type", JStr "image/png");
                                   ("url", JStr "https://img/1.png")])]);
   ("media:thumbnail", JStr "https://img/t.png")]%string.

(** A [media:thumbnail] given as bare text, nothing before it. *)
Definition itemWithBareThumbnail : jsobj :=
  [("title", JStr "Storm warning"); ("link", JStr "https://www.bbc.co.uk/news/2");
   ("media:thumbnail", JStr "https://img/t.png")]%string.

(** An item whose title element has a child element named toString. *)
Definition itemWithShadowedTitle : jsobj :=
  [("title", JObj [("_", JStr "Headline 4"); ("toString", JStr "x")]);
   ("link", JStr "https://www.bbc.co.uk/news/4"); ("guid", JStr "tag:4");
   ("description", JStr "The bridge reopens next month after repairs.")]%string.

Definition wellFormedItem : jsobj :=
  [("title", JStr "Election results"); ("link", JStr "https://www.bbc.co.uk/news/3");
   ("guid", JStr "tag:3"); ("description", JStr "Counting ended overnight.")]%string.

Definition serve (parsed : jsval) : string -> result jsval := fun _ => Ok parsed.
Definition host : string -> result string := fun _ => Ok "feeds.bbci.co.uk"%string.
End Samples.

Section SplitPredicates.
Variable sep : ascii -> bool.

Fixpoint sepFree (s : string) : bool :=
  match s with
  | EmptyString => true
  | String c s' => negb (sep c) && sepFree s'
  end.

Definition startsInWord (s : string) : bool :=
  match s with
  | EmptyString => false
  | String c _ => negb (sep c)
  end.

Fixpoint endsInWord (s : string) : bool :=
  match s with
  | EmptyString => false
  | String c EmptyString => negb (sep c)
  | String _ s' => endsInWord s'
  end.

End SplitPredicates.

Module SampleText.
Definition isTerminator (c : ascii) : bool :=
  Ascii.eqb c "."%char || Ascii.eqb c "!"%char || Ascii.eqb c "?"%char.

Fixpoint cut (s : string) : list string :=
  match s with
  | EmptyString => [EmptyString]
  | String c s' =>
      if isTerminator c then String c EmptyString :: cut s'
      else match cut s' with
           | w :: ws => String c w :: ws
           | [] => [String c EmptyString]
           end
  end.

(** A sentence tokenizer for the examples: a sentence ends at each
    full stop, exclamation mark or question mark. *)
Definition tokenizer (text : string) : result (list string) :=
  Ok (List.filter (fun s => negb (String.eqb s EmptyString))
                  (List.map JsString.trim (cut text))).

(** A tokenizer that always raises. *)
Definition failingTokenizer (text : string) : result (list string) :=
  Throw "tokenizer failure".
End SampleText.

(** Every promise of every batch settles: [timing i] mentions each index
    of the batch that starts at [i]. *)
Definition everyPromiseSettles (timing : Z -> list nat)
           (allItems : list CanonicalItem) : Prop :=
  forall (i : Z) (j : nat),
    (j < List.length (slice i (i + batchSize) allItems))%nat -> j ∈ timing i.

(** The priority order of the container selectors as the specification
    lists it. *)
Definition specSelectors : list selector :=
  [ByTag "article"; ByAttr "role" "main"; ByTag "main"; ByClass "article-content";
   ByClass "story-content"; ByClass "post-content"; ByClass "entry-content";
   ByClass "story-body"; ById "article-body"; ByClass "content";
   ById "content-body"; ByClass "main-content"]%string.

(** The key lists of the two shapes process-one answers with. *)
Definition processedKeys : list string :=
  ["guid"; "title"; "description"; "summarized_content"; "imageUrl";
   "sourceName"; "pubDate"]%string.
Definition spreadKeys : list string :=
  ["guid"; "title"; "description"; "link"; "pubDate"; "imageUrl"; "source";
   "sourceName"; "summarized_content"]%string.

Module SamplePipeline.
Definition item (n : string) (lnk : jsval) (descr : string) : CanonicalItem :=
  {| guid := JStr ("tag:" +:+ n);
     title := JStr ("Headline " +:+ n);
     description := JStr descr;
     link := lnk;
     pubDate := JStr "Mon, 02 Jun 2025 10:00:00 GMT";
     imageUrl := JNull;
     source := "https://feeds.bbci.co.uk/news/rss.xml";
     sourceName := JStr "BBC News" |}.

(** An item with an article link. *)
Definition linked : CanonicalItem :=
  item "1" (JStr "https://www.bbc.co.uk/news/1")
       "The bridge reopens next month after repairs.".

(** An item whose link did not resolve. *)
Definition unlinked : CanonicalItem :=
  item "2" (JStr "#") "The bridge reopens next month after repairs.".

(** Thirty words in fifty-nine characters. *)
Definition thirtyWords : string :=
  "a b c d e f g h i j k l m n o p q r s t u v w x y z a b c d".
Definition terse : CanonicalItem := item "3" JUndef thirtyWords.

(** An item with an article link whose title element has a child element
    named toString: no conversion of such a title to a string succeeds. *)
Definition shadowed : CanonicalItem :=
  {| guid := JStr "tag:4";
     title := JObj [("_", JStr "Headline 4"); ("toString", JStr "x")]%string;
     description := JStr "The bridge reopens next month after repairs.";
     link := JStr "https://www.bbc.co.uk/news/4";
     pubDate := JStr "Mon, 02 Jun 2025 10:00:00 GMT";
     imageUrl := JNull;
     source := "https://feeds.bbci.co.uk/news/rss.xml";
     sourceName := JStr "BBC News" |}.

(** Seven items, as many as three batches. *)
Definition seven : list CanonicalItem :=
  List.map (fun n => item n (JStr "#") ("Teaser of story " +:+ n +:+ "."))
           ["1"; "2"; "3"; "4"; "5"; "6"; "7"]%string.

(** In every batch the third promise settles first, then the first. *)
Definition lastFirst (i : Z) : list nat := [2; 0; 1]%nat.

(** The network is down: every article request fails. *)
Definition offline (url : jsval) : result (list Dom.node) :=
  Throw "timeout of 15000ms exceeded".

Definition postText : string :=
  "Readers who want to follow the reconstruction can subscribe to the weekly newsletter, which collects photographs from the site, interviews with the crew and a short note from the city engineer about the work ahead.".
Definition mainText : string :=
  "Officials confirmed on Tuesday that the bridge will reopen next month after engineers finished the last round of inspections, ending a closure that had rerouted thousands of commuters through the old town centre since spring.".

(** A page with a [.post-content] block followed by a [.main-content]
    block. *)
Definition twoBlocks : list Dom.node :=
  Dom.page [Dom.div "post-content" [Dom.p postText];
            Dom.div "main-content" [Dom.p mainText]].

Definition online (url : jsval) : result (list Dom.node) := Ok twoBlocks.
End SamplePipeline.

(* ===================================================================== *)
(** * Further definitions of the statements *)
(* ===================================================================== *)

(** Line 205: the text once cleaned. *)
Definition cleanText (text : string) : string :=
  JsString.trim (JsString.collapse_ws false text).

(** A word the padding and truncation lemmas can count: not empty and
    free of white space. *)
Definition goodWord (w : string) : Prop :=
  w <> EmptyString /\ sepFree JsString.is_space w = true.

(** Lines 242-258: [sentenceScores] as the map of line 242 leaves it. *)
Definition scoredSentences (sentences : list string) : list scored :=
  List.map (scoreSentence (wordFrequencies sentences)) sentences.

(** Lines 242-262: [sentenceScores] once sorted by score. *)
Definition rankedSentences `{Runtime} (sentences : list string) : list scored :=
  arraySort byScore (scoredSentences sentences).

(** Lines 261-265: [topSentences]. *)
Definition topSentencesOf `{Runtime} (sentences : list string) : list string :=
  List.map sentence
           (arraySort (byPosition sentences) (slice 0 5 (rankedSentences sentences))).

(** The tokens line 243 scores a sentence by. *)
Definition scoredWords (sentence : string) : list string :=
  List.filter (fun word => 1 <? JsString.length word)
              (JsString.split_nonword (JsString.toLowerCase sentence)).

(** The two names of [Object.prototype] that can be a lower-cased token. *)
Definition inheritedName (word : string) : bool :=
  String.eqb word "constructor" || String.eqb word "__proto__".

(** The value line 237 stores under a word, from the own property it
    finds there. *)
Definition counted (word : string) (found : option tally) : option tally :=
  Some match found with
       | Some (Count n) => Count (n + 1)
       | Some (ObjectText ones) => ObjectText (S ones)
       | None => if String.eqb word "constructor" then ObjectText 1 else Count 1
       end.

(** The sum of lines 245-250 over a list of words. *)
Definition sumFrequencies (wordFreq : gmap string tally) (words : list string)
           (score : option Z) : option Z :=
  fold_left (fun score word =>
               if negb (is_stopword word) then addFrequency wordFreq score word
               else score)
            words score.

(** How often a word occurs in a list of words. *)
Definition occurrences (word : string) (words : list string) : Z :=
  Z.of_nat (count_occ String.string_dec words word).

(** A captured attribute value: no quote and no [>] in it. *)
Definition plainValue (u : string) : bool :=
  forallb (fun c => negb (Ascii.eqb c ImgRegex.dquote || Ascii.eqb c ImgRegex.gt))
          (list_ascii_of_string u).

(** The code units between <img and the attribute: none of them is [>]. *)
Definition insideTag (mid : string) : bool :=
  forallb (fun c => negb (Ascii.eqb c ImgRegex.gt)) (list_ascii_of_string mid).

(** The text of a quoted src attribute with value [u]. *)
Definition attribute (u : string) : string :=
  ImgRegex.src_eq +:+ u +:+ String ImgRegex.dquote EmptyString.

Module SampleStory.
(** Eight sentences, 412 characters. *)
Definition story : string :=
  "The city council approved the new bridge on Monday. Engineers said the bridge will open next spring. Critics argue the bridge costs too much money. The mayor defended the bridge budget in a long speech. Local shops expect more visitors once the bridge opens. A ferry company fears losing customers to the bridge. Residents near the river welcomed the decision. The council will review the plans again in June.".

Definition sentences : list string :=
  match SampleText.tokenizer (cleanText story) with
  | Ok sentences => sentences
  | Throw _ => []
  end.

(** An item without resolvable link whose description came with
    attributes: an object holding the text under [_]. *)
Definition structured : CanonicalItem :=
  {| guid := JStr "tag:9";
     title := JStr "Headline 9";
     description := JObj [("_", JStr "Teaser of story 9.");
                          ("$", JObj [("type", JStr "html")])]%string;
     link := JUndef;
     pubDate := JStr "Mon, 02 Jun 2025 10:00:00 GMT";
     imageUrl := JNull;
     source := "https://feeds.bbci.co.uk/news/rss.xml";
     sourceName := JStr "BBC News" |}.

(** An item with an article link whose title cannot be converted and
    whose description came with attributes. *)
Definition doubtful : CanonicalItem :=
  {| guid := JStr "tag:9";
     title := JObj [("_", JStr "Headline 9"); ("toString", JStr "x")]%string;
     description := JObj [("_", JStr "Teaser of story 9.");
                          ("$", JObj [("type", JStr "html")])]%string;
     link := JStr "https://www.bbc.co.uk/news/9";
     pubDate := JStr "Mon, 02 Jun 2025 10:00:00 GMT";
     imageUrl := JNull;
     source := "https://feeds.bbci.co.uk/news/rss.xml";
     sourceName := JStr "BBC News" |}.

(** Four sentences, one of them about a constructor. *)
Definition constructive : list string :=
  ["The constructor runs before the constructor of the subclass.";
   "Fields are set by the parent first.";
   "The subclass then adds fields of its own.";
   "Nothing else happens at creation."]%string.

(** Seven sentences, the first of them about a constructor. *)
Definition manual : string :=
  "The constructor runs before the constructor of the subclass. Fields are set by the parent first. The subclass then adds fields of its own. Nothing else happens at creation. Later calls reuse the same fields. A method may replace a field at any time. The object lives until nothing refers to it.".

(** No source can be reached. *)
Definition unreachable (url : string) : result jsval := Throw "getaddrinfo ENOTFOUND".

(** A description with an embedded image. *)
Definition html : string :=
  "<p><img alt=logo src=" +:+ String ImgRegex.dquote "https://img/logo.png"
  +:+ String ImgRegex.dquote "/>Read more</p>".
End SampleStory.

(* ===================================================================== *)
(** * Theorems *)
(* ===================================================================== *)

(** ** The primitives on samples *)

Example split_ws_samples :
  JsString.split_ws "a  b" = ["a"; "b"]%string
  /\ JsString.split_ws " a" = [EmptyString; "a"]%string
  /\ JsString.split_ws "a " = ["a"; EmptyString]%string
  /\ JsString.split_ws EmptyString = [EmptyString]%string
  /\ JsString.split_ws "   " = [EmptyString; EmptyString]%string.
Proof. repeat split; reflexivity. Qed.

Example slice_samples :
  slice 0 2 [1; 2; 3] = [1; 2] /\ slice 0 5 [1; 2; 3] = [1; 2; 3]
  /\ slice 0 (-1) [1; 2; 3] = [1; 2] /\ slice 5 10 [1; 2; 3] = []
  /\ slice 1 10 [1; 2; 3] = [2; 3] /\ slice 0 (-7) [1; 2; 3] = [].
Proof. repeat split; reflexivity. Qed.

Example img_regex_samples :
  ImgRegex.exec ("<p><img alt='x' src=" +:+ String ImgRegex.dquote "http://h/i.png"
                 +:+ String ImgRegex.dquote "/></p>") = Some "http://h/i.png"%string
  /\ ImgRegex.exec "<img src=none>" = None
  /\ ImgRegex.exec ("<imgsrc=" +:+ String ImgRegex.dquote "a"
                    +:+ String ImgRegex.dquote EmptyString) = None
  /\ ImgRegex.exec ("<img src=" +:+ String ImgRegex.dquote "a"
                    +:+ String ImgRegex.dquote " src=" +:+ String ImgRegex.dquote "b"
                    +:+ String ImgRegex.dquote ">") = Some "b"%string.
Proof. repeat split; reflexivity. Qed.

Example objectText_sample :
  objectText 2 = "function Object() { [native code] }11"%string.
Proof. reflexivity. Qed.

(** ** Feed Normalizer *)

(** Split on the conditions of the code one after the other. *)
Ltac split_ifs :=
  repeat (simpl;
          match goal with
          | |- context [if ?b then _ else _] => destruct b eqn:?
          end);
  simpl.

(** [mret] of the exception monad is [Ok]. *)
Ltac ok_ret := unfold mret, result_ret in *.

Section NormalizerFacts.
Context `{Runtime}.

Lemma resolveLink_object fields :
  Js.lookup "link" fields <> JNull ->
  exists l, resolveLink (JObj fields) = Ok l.
Proof.
  intros Hnn. unfold resolveLink. simpl.
  destruct (Js.lookup "link" fields) as [| |s|o|xs|f]; try congruence;
    split_ifs; try (eexists; reflexivity).
  destruct (Js.lookup "$" o); simpl in *; try discriminate; eexists; reflexivity.
Qed.

(** An object item is normalized as soon as its image cascade and the
    resolution of its identifier do not throw and its link is not
    [null]. *)
Lemma normalizeItem_object url srcName fields img g :
  resolveImage (JObj fields) = Ok img ->
  resolveGuid url (JObj fields) = Ok g ->
  Js.lookup "link" fields <> JNull ->
  exists l,
    resolveLink (JObj fields) = Ok l
    /\ normalizeItem url srcName (JObj fields) =
       Ok {| guid := g;
             title := Js.or (Js.lookup "title" fields) (JStr "No Title");
             description :=
               Js.or (Js.lookup "description" fields)
                     (Js.or (Js.lookup "summary" fields) (JStr "No Description"));
             link := l;
             pubDate :=
               Js.or (Js.lookup "pubDate" fields)
                     (Js.or (Js.lookup "published" fields)
                            (Js.or (Js.lookup "updated" fields) (JStr "No Date")));
             imageUrl := img;
             source := url;
             sourceName := srcName |}.
Proof.
  intros Himg Hg Hnn.
  destruct (resolveLink_object fields Hnn) as [l Hl].
  exists l. split; [exact Hl|].
  unfold normalizeItem. rewrite Himg, Hg, Hl. reflexivity.
Qed.

(** C3 (amended).  The link of the canonical item is the plain-text link
    when the item has one, the [href] attribute when the link is a
    structured element with an attribute object, the sentinel # when the
    link is a structured or repeated element without attribute object,
    and absent ([undefined], no sentinel) when the item has no link.  The
    item is an object whose image cascade and identifier resolution do
    not throw and whose link is not [null]. *)
Theorem normalized_link (url : string) (srcName : jsval) (fields : jsobj)
        (img g : jsval) :
  resolveImage (JObj fields) = Ok img ->
  resolveGuid url (JObj fields) = Ok g ->
  Js.lookup "link" fields <> JNull ->
  exists c,
    normalizeItem url srcName (JObj fields) = Ok c
    /\ (forall s, Js.lookup "link" fields = JStr s -> link c = JStr s)
    /\ (forall l attrs, Js.lookup "link" fields = JObj l ->
                        Js.lookup "$" l = JObj attrs ->
                        link c = Js.lookup "href" attrs)
    /\ (forall l, Js.lookup "link" fields = JObj l ->
                  Js.truthy (Js.lookup "$" l) = false -> link c = JStr "#")
    /\ (forall xs, Js.lookup "link" fields = JArr xs -> link c = JStr "#")
    /\ (Js.lookup "link" fields = JUndef -> link c = JUndef).
Proof.
  intros Himg Hg Hnn.
  destruct (normalizeItem_object url srcName fields img g Himg Hg Hnn)
    as (l & Hl & Hc).
  eexists. split; [exact Hc|]. simpl.
  unfold resolveLink in Hl. simpl in Hl. ok_ret.
  repeat split.
  - intros s E. rewrite E in Hl. simpl in Hl. congruence.
  - intros o attrs E Ea. rewrite E in Hl. simpl in Hl. rewrite Ea in Hl.
    simpl in Hl. congruence.
  - intros o E Ea. rewrite E in Hl. simpl in Hl. rewrite Ea in Hl.
    simpl in Hl. congruence.
  - intros xs E. rewrite E in Hl. simpl in Hl. congruence.
  - intros E. rewrite E in Hl. simpl in Hl. congruence.
Qed.

Lemma truthy_text s : Js.truthy (JStr s) = true -> s <> EmptyString.
Proof. simpl. intros Ht ->. discriminate. Qed.

Lemma synthetic_key_nonempty (a b c : string) :
  a +:+ "-" +:+ b +:+ "-" +:+ c <> EmptyString.
Proof. destruct a; discriminate. Qed.

(** A truthy plain field is a non-empty text. *)
Lemma plain_truthy v :
  plainField v = true -> Js.truthy v = true ->
  exists s, v = JStr s /\ s <> EmptyString.
Proof.
  destruct v; simpl; try discriminate. intros _ Ht.
  eexists; split; [reflexivity|]. now apply truthy_text.
Qed.

Lemma firstTruthy_text candidates key :
  Forall (fun v => plainField v = true) candidates ->
  key <> EmptyString ->
  exists s, firstTruthy candidates (JStr key) = JStr s /\ s <> EmptyString.
Proof.
  intros Hall Hkey. induction Hall as [|v rest Hv _ IH]; simpl.
  - eauto.
  - destruct (Js.truthy v) eqn:Ht; [|exact IH].
    now apply plain_truthy.
Qed.

(** What [resolveGuid] computes for a textual guid field when title and
    pubDate can be converted. *)
Lemma resolveGuid_textual url fields t p :
  textualGuid (Js.lookup "guid" fields) = true ->
  Js.toString (Js.lookup "title" fields) = Ok t ->
  Js.toString (Js.lookup "pubDate" fields) = Ok p ->
  resolveGuid url (JObj fields) =
  Ok (firstTruthy [unwrapped (Js.lookup "guid" fields);
                   Js.lookup "id" fields; Js.lookup "link" fields]
        (JStr (url +:+ "-" +:+ t +:+ "-" +:+ p))).
Proof.
  intros Hg Ht Hp.
  assert (Htail :
            (id ← Js.prop (JObj fields) "id";
             if Js.truthy id then mret id
             else
               lnk ← Js.prop (JObj fields) "link";
               if Js.truthy lnk then mret lnk
               else
                 ttl ← Js.prop (JObj fields) "title";
                 t ← Js.toString ttl;
                 pd ← Js.prop (JObj fields) "pubDate";
                 p ← Js.toString pd;
                 mret (JStr (url +:+ "-" +:+ t +:+ "-" +:+ p)))
            = Ok (firstTruthy [Js.lookup "id" fields; Js.lookup "link" fields]
                    (JStr (url +:+ "-" +:+ t +:+ "-" +:+ p)))).
  { simpl. destruct (Js.truthy (Js.lookup "id" fields)); [reflexivity|].
    destruct (Js.truthy (Js.lookup "link" fields)); [reflexivity|].
    simpl in Ht, Hp |- *. rewrite Ht. simpl. rewrite Hp. reflexivity. }
  unfold resolveGuid.
  change (Js.prop (JObj fields) "guid") with (Ok (A := jsval) (Js.lookup "guid" fields)).
  destruct (Js.lookup "guid" fields) as [| |s|o|xs|f] eqn:Eg; simpl in Hg;
    try discriminate.
  - cbn [mbind result_bind Js.truthy Js.is_object andb negb mret result_ret
         firstTruthy unwrapped]. exact Htail.
  - cbn [mbind result_bind Js.is_object andb mret result_ret firstTruthy unwrapped].
    rewrite andb_false_r. cbn [mbind result_bind mret result_ret].
    destruct (Js.truthy (JStr s)); [reflexivity|exact Htail].
  - destruct (Js.lookup "_" o) as [| |u| | |] eqn:Eu; try discriminate.
    simpl. rewrite Eu. simpl. rewrite Hg. simpl. rewrite Hg. reflexivity.
Qed.

Lemma mapR_throw {A B} (f : A -> result B) (xs : list A) (x : A) (e : string) :
  In x xs -> f x = Throw e -> exists e', mapR f xs = Throw e'.
Proof.
  intros Hin Hx. induction xs as [|y ys IH]; [destruct Hin|].
  simpl. destruct (f y) as [b|e0] eqn:Ey; simpl; [|eauto].
  destruct Hin as [->|Hin]; [congruence|].
  destruct (IH Hin) as [e' ->]. simpl. eauto.
Qed.

Lemma lacksAttrs_throws v k :
  lacksAttrs v = true ->
  Js.truthy v = true
  /\ exists e, (attrs ← Js.prop v "$"; Js.prop attrs k) = Throw e.
Proof.
  unfold lacksAttrs. intros Hl. apply andb_prop in Hl as [Ht Hp].
  split; [exact Ht|].
  destruct (Js.prop v "$") as [[]|]; try discriminate.
  simpl. eauto.
Qed.

Lemma is_image_bare v : lacksAttrs v = true -> exists e, is_image v = Throw e.
Proof.
  intros Hl. destruct (lacksAttrs_throws v "type" Hl) as (Ht & e & He).
  unfold is_image. rewrite Ht.
  destruct (Js.prop v "$") as [attrs|]; simpl in *; [|eauto].
  rewrite He. simpl. eauto.
Qed.

(** The cascade throws when it reaches an element without attributes. *)
Lemma resolveImage_throws fields :
  cascadeHitsBareElement fields ->
  exists e, resolveImage (JObj fields) = Throw e.
Proof.
  unfold cascadeHitsBareElement, resolveImage. simpl.
  intros [He | [(He & Hm) | (He & Hm & Ht)]].
  - destruct (is_image_bare _ He) as [e ->]. simpl. eauto.
  - rewrite He. simpl. destruct (is_image_bare _ Hm) as [e ->]. simpl. eauto.
  - rewrite He. simpl. rewrite Hm. simpl.
    destruct (lacksAttrs_throws _ "url" Ht) as (-> & e & Hu).
    unfold attr_url. rewrite Hu. eauto.
Qed.

Lemma normalizeItem_image_throws url srcName item e :
  resolveImage item = Throw e -> normalizeItem url srcName item = Throw e.
Proof. intros Hi. unfold normalizeItem. rewrite Hi. reflexivity. Qed.

(** C9 (amended).  Within one feed, item failures are not isolated: if
    the image cascade of any one item reaches an element that lacks its
    attribute object (the enclosure; media:content when the enclosure did
    not match; media:thumbnail when neither did), the access error is
    caught at the source level and the source contributes the empty
    sequence, whatever its other items are. *)
Theorem bare_element_empties_feed
        (fetchFeed : string -> result jsval) (hostname : string -> result string)
        (url : string) (parsed channel : jsval) (items : list jsval)
        (fields : jsobj) :
  fetchFeed url = Ok parsed ->
  feedChannel parsed = Ok channel ->
  feedItems channel = Ok items ->
  In (JObj fields) items ->
  cascadeHitsBareElement fields ->
  fetchRSSFeed fetchFeed hostname url = [].
Proof.
  intros Hf Hc Hi Hin Hbare.
  unfold fetchRSSFeed, fetchRSSFeed_try. rewrite Hf. simpl.
  rewrite Hc. simpl. rewrite Hi. simpl.
  destruct (feedSourceName hostname url channel) as [srcName|]; simpl; [|reflexivity].
  destruct (resolveImage_throws fields Hbare) as [e He].
  destruct (mapR_throw (normalizeItem url srcName) items (JObj fields) e Hin
              (normalizeItem_image_throws url srcName _ e He)) as [e' ->].
  reflexivity.
Qed.

End NormalizerFacts.

Section NormalizerSamples.
#[local] Existing Instance Runtimes.legacy.

(** C3: an item without link element gets no sentinel; its link is absent. *)
Lemma link_absent_counterexample :
  exists c,
    fetchRSSFeed (Samples.serve (Samples.rssDocument (JObj Samples.itemWithoutLink)))
                 Samples.host Samples.feedUrl = [c]
    /\ link c = JUndef /\ link c <> JStr "#".
Proof. eexists. split; [vm_compute; reflexivity|]. split; [reflexivity|discriminate]. Qed.

Lemma normalized_link_witness :
  exists c,
    normalizeItem Samples.feedUrl (JStr "BBC News") (JObj Samples.atomEntry) = Ok c
    /\ (forall s, Js.lookup "link" Samples.atomEntry = JStr s -> link c = JStr s)
    /\ (forall l attrs, Js.lookup "link" Samples.atomEntry = JObj l ->
                        Js.lookup "$" l = JObj attrs ->
                        link c = Js.lookup "href" attrs)
    /\ (forall l, Js.lookup "link" Samples.atomEntry = JObj l ->
                  Js.truthy (Js.lookup "$" l) = false -> link c = JStr "#")
    /\ (forall xs, Js.lookup "link" Samples.atomEntry = JArr xs -> link c = JStr "#")
    /\ (Js.lookup "link" Samples.atomEntry = JUndef -> link c = JUndef).
Proof.
  apply (normalized_link Samples.feedUrl (JStr "BBC News") Samples.atomEntry JNull
           (JStr "urn:1")).
  - reflexivity.
  - reflexivity.
  - vm_compute. discriminate.
Defined.

(** C9: a media:thumbnail without attribute object is harmless when an
    earlier branch of the cascade matched; both items of the feed survive. *)
Lemma bare_thumbnail_counterexample :
  lacksAttrs (Js.lookup "media:thumbnail" Samples.itemWithImageAndBareThumbnail) = true
  /\ exists a b,
      fetchRSSFeed (Samples.serve (Samples.rssDocument
                      (JArr [JObj Samples.itemWithImageAndBareThumbnail;
                             JObj Samples.wellFormedItem])))
                   Samples.host Samples.feedUrl = [a; b]
      /\ imageUrl a = JStr "https://img/1.png".
Proof.
  split; [reflexivity|]. eexists. eexists. split; [vm_compute; reflexivity|reflexivity].
Qed.

Lemma bare_element_empties_feed_witness :
  fetchRSSFeed (Samples.serve (Samples.rssDocument
                  (JArr [JObj Samples.wellFormedItem;
                         JObj Samples.itemWithBareThumbnail])))
               Samples.host Samples.feedUrl = [].
Proof.
  eapply (bare_element_empties_feed _ _ Samples.feedUrl _ _ _
            Samples.itemWithBareThumbnail).
  - reflexivity.
  - reflexivity.
  - reflexivity.
  - right. left. reflexivity.
  - right. right. repeat split; reflexivity.
Defined.

End NormalizerSamples.

(** ** Splitting and joining *)
Section SplitFacts.
Variable sep : ascii -> bool.

Lemma split_runs_nonnil b s : JsString.split_runs sep b s <> [].
Proof.
  revert b. induction s as [|c s IH]; intros b; simpl; [discriminate|].
  destruct (sep c).
  - destruct b; [apply IH|discriminate].
  - destruct (JsString.split_runs sep false s); discriminate.
Qed.

Lemma split_runs_word b s :
  sepFree sep s = true -> JsString.split_runs sep b s = [s].
Proof.
  revert b. induction s as [|c s IH]; intros b Hs; simpl in *; [reflexivity|].
  apply andb_prop in Hs as [Hc Hs]. apply negb_true_iff in Hc. rewrite Hc.
  now rewrite (IH false Hs).
Qed.

Lemma split_runs_flag s :
  startsInWord sep s = true ->
  JsString.split_runs sep true s = JsString.split_runs sep false s.
Proof.
  destruct s as [|c s]; simpl; [discriminate|].
  intros Hc. apply negb_true_iff in Hc. now rewrite Hc.
Qed.

(** Splitting distributes over a separator that follows a word. *)
Lemma split_runs_app b s1 c s2 :
  endsInWord sep s1 = true -> sep c = true ->
  JsString.split_runs sep b (s1 +:+ String c s2) =
  JsString.split_runs sep b s1 ++ JsString.split_runs sep true s2.
Proof.
  intros He Hc. revert b. induction s1 as [|a s1 IH]; intros b;
    [discriminate|].
  destruct s1 as [|a' s1'].
  - simpl in *. apply negb_true_iff in He. rewrite He, Hc. reflexivity.
  - assert (He' : endsInWord sep (String a' s1') = true) by exact He.
    specialize (IH He').
    remember (String a' s1') as t eqn:Et.
    simpl.
    destruct (sep a).
    + destruct b; rewrite IH; reflexivity.
    + rewrite IH.
      pose proof (split_runs_nonnil false t) as Hnn.
      destruct (JsString.split_runs sep false t); [congruence|].
      reflexivity.
Qed.

Lemma sepFree_app a b : sepFree sep a = true -> sepFree sep b = true -> sepFree sep (a +:+ b) = true.
Proof.
  induction a as [|c a IH]; simpl; auto.
  intros Ha Hb. apply andb_prop in Ha as [-> Ha]. simpl. auto.
Qed.

(** Every piece of a split is free of separators. *)
Lemma split_runs_sepFree b s :
  Forall (fun w => sepFree sep w = true) (JsString.split_runs sep b s).
Proof.
  revert b. induction s as [|c s IH]; intros b; simpl.
  - repeat constructor.
  - destruct (sep c) eqn:Ec.
    + destruct b; [apply IH|]. constructor; [reflexivity|apply IH].
    + specialize (IH false).
      destruct (JsString.split_runs sep false s) as [|w ws].
      * repeat constructor. simpl. now rewrite Ec.
      * inversion IH; subst. constructor; auto. simpl. now rewrite Ec.
Qed.

(** A text that ends inside a word has no empty piece, except the first
    one when it starts with a separator. *)
Lemma split_runs_nonempty b s :
  endsInWord sep s = true -> b = true \/ startsInWord sep s = true ->
  Forall (fun w => w <> EmptyString) (JsString.split_runs sep b s).
Proof.
  revert b. induction s as [|c s IH]; intros b He Hb; [discriminate|].
  cbn [JsString.split_runs].
  destruct s as [|c' s'].
  - simpl in He. apply negb_true_iff in He. rewrite He. simpl.
    repeat constructor. discriminate.
  - assert (He' : endsInWord sep (String c' s') = true) by exact He.
    assert (Hstart : startsInWord sep (String c' s') = negb (sep c')) by reflexivity.
    remember (String c' s') as t eqn:Et.
    destruct (sep c) eqn:Ec.
    + destruct Hb as [-> | Hs]; [|simpl in Hs; rewrite Ec in Hs; discriminate].
      apply IH; auto.
    + destruct (sep c') eqn:Ec'.
      * pose proof (IH true He' (or_introl eq_refl)) as IHt.
        subst t. cbn [JsString.split_runs] in *. rewrite Ec' in *.
        constructor; [discriminate|exact IHt].
      * pose proof (IH false He' (or_intror Hstart)) as IHf.
        destruct (JsString.split_runs sep false t) as [|w ws].
        -- repeat constructor. discriminate.
        -- inversion IHf; subst. constructor; [discriminate|assumption].
Qed.

Lemma sepFree_ends w : sepFree sep w = true -> w <> EmptyString -> endsInWord sep w = true.
Proof.
  induction w as [|c w IH]; [congruence|]. simpl.
  intros Hw _. apply andb_prop in Hw as [Hc Hw].
  destruct w; [exact Hc|]. apply IH; [exact Hw|discriminate].
Qed.

Lemma sepFree_starts w : sepFree sep w = true -> w <> EmptyString -> startsInWord sep w = true.
Proof.
  destruct w; [congruence|]. simpl. intros Hw _.
  now apply andb_prop in Hw as [Hc _].
Qed.

End SplitFacts.

Section JoinFacts.
Let sep := JsString.is_space.

Lemma startsInWord_app a b :
  startsInWord sep a = true -> startsInWord sep (a +:+ b) = true.
Proof. destruct a; [discriminate|]. auto. Qed.

Lemma join_starts x rest :
  startsInWord sep x = true -> startsInWord sep (JsString.join " " (x :: rest)) = true.
Proof.
  intros Hx. destruct rest; simpl; [exact Hx|]. now apply startsInWord_app.
Qed.

(** Joining words with single spaces and splitting again gives the words. *)
Lemma split_join (ws : list string) :
  ws <> [] ->
  Forall (fun w => sepFree sep w = true) ws ->
  Forall (fun w => w <> EmptyString) ws ->
  JsString.split_ws (JsString.join " " ws) = ws.
Proof.
  unfold JsString.split_ws. fold sep.
  induction ws as [|x rest IH]; [congruence|]. intros _ Hfree Hne.
  inversion Hfree as [|? ? Hx Hfree']; subst.
  inversion Hne as [|? ? Hxne Hne']; subst.
  destruct rest as [|y rest].
  - simpl. now apply split_runs_word.
  - change (JsString.join " " (x :: y :: rest))
      with (x +:+ String " "%char (JsString.join " " (y :: rest))).
    rewrite split_runs_app by (auto using sepFree_ends).
    rewrite (split_runs_word sep false x Hx).
    rewrite split_runs_flag.
    + rewrite IH; [reflexivity|discriminate|assumption|assumption].
    + apply join_starts. inversion Hfree'; inversion Hne'; subst.
      now apply sepFree_starts.
Qed.

End JoinFacts.

Lemma slice_prefix {A} (n : Z) (xs : list A) :
  0 <= n -> slice 0 n xs = firstn (Z.to_nat (Z.min n (len xs))) xs.
Proof.
  intros Hn. unfold slice, slice_index, len. simpl.
  destruct (n <? 0) eqn:E; [apply Z.ltb_lt in E; lia|].
  rewrite (Z.min_l 0) by lia. simpl. now rewrite Z.sub_0_r.
Qed.

Lemma len_split_pos s : 1 <= len (JsString.split_ws s).
Proof.
  unfold len, JsString.split_ws.
  pose proof (split_runs_nonnil JsString.is_space false s).
  destruct (JsString.split_runs JsString.is_space false s); [congruence|].
  simpl. lia.
Qed.

Section SummarizerFacts.
Context `{Runtime}.
Variable tokenize : string -> result (list string).

(** The short-text branch of [summarizeText]. *)
Lemma summarizeString_short text minWords maxWords :
  JsString.length text < 100 ->
  summarizeString tokenize text minWords maxWords = summarizeShort text minWords.
Proof.
  intros Hl. unfold summarizeString.
  apply Z.ltb_lt in Hl. rewrite Hl, orb_true_r. reflexivity.
Qed.

(** C6 (amended).  A non-empty text shorter than 100 characters with
    fewer than minWords words is followed by one space and its own first
    min(w, minWords - w) words, w being its word count: the text is
    repeated once at most.  For a text without white space at either end
    the output has w + min(w, minWords - w) words, which is minWords only
    when the text has at least half of minWords words. *)
Theorem short_text_padding (text : string) (minWords maxWords : Z) :
  text <> EmptyString ->
  JsString.length text < 100 ->
  JsString.wordCount text < minWords ->
  let w := JsString.wordCount text in
  let out := summarizeString tokenize text minWords maxWords in
  out = text +:+ " " +:+
        JsString.join " "
          (firstn (Z.to_nat (Z.min w (minWords - w))) (JsString.split_ws text))
  /\ (startsInWord JsString.is_space text = true ->
      endsInWord JsString.is_space text = true ->
      JsString.wordCount out = w + Z.min w (minWords - w)
      /\ (JsString.wordCount out = minWords <-> minWords <= 2 * w)).
Proof.
  intros Hne Hlen Hw w out.
  assert (Hout : out = text +:+ " " +:+
            JsString.join " "
              (firstn (Z.to_nat (Z.min w (minWords - w))) (JsString.split_ws text))).
  { subst out. rewrite summarizeString_short by exact Hlen.
    unfold summarizeShort.
    destruct (String.eqb_spec text EmptyString) as [->|_]; [congruence|]. simpl.
    change (len (JsString.split_ws text)) with w.
    apply Z.ltb_lt in Hw. fold w in Hw. rewrite Hw.
    apply Z.ltb_lt in Hw.
    rewrite slice_prefix by lia.
    change (len (JsString.split_ws text)) with w.
    now rewrite Z.min_comm. }
  split; [exact Hout|].
  intros Hs He.
  assert (Hw1 : 1 <= w) by apply len_split_pos.
  set (k := Z.to_nat (Z.min w (minWords - w))) in *.
  set (words := JsString.split_ws text) in *.
  assert (Hfree : Forall (fun x => sepFree JsString.is_space x = true) words)
    by apply split_runs_sepFree.
  assert (Hnonempty : Forall (fun x => x <> EmptyString) words)
    by (apply split_runs_nonempty; auto).
  assert (Hk : (1 <= k <= List.length words)%nat).
  { subst k. unfold w, JsString.wordCount in *. fold words in Hw, Hw1 |- *. lia. }
  assert (Hpad : JsString.split_ws (JsString.join " " (firstn k words)) = firstn k words).
  { apply split_join.
    - destruct words; simpl in *; [lia|]. destruct k; simpl; [lia|discriminate].
    - now apply Forall_take.
    - now apply Forall_take. }
  assert (Hcount : JsString.wordCount out = w + Z.min w (minWords - w)).
  { rewrite Hout. unfold JsString.wordCount at 1, JsString.split_ws.
    change (text +:+ " " +:+ JsString.join " " (firstn k words))
      with (text +:+ String " "%char (JsString.join " " (firstn k words))).
    rewrite split_runs_app by auto.
    rewrite split_runs_flag.
    - fold (JsString.split_ws text).
      fold (JsString.split_ws (JsString.join " " (firstn k words))).
      rewrite Hpad. fold words. rewrite length_app, length_take.
      unfold w, JsString.wordCount. fold words. subst k.
      unfold w, JsString.wordCount in *. fold words in Hw, Hw1, Hk |- *. lia.
    - destruct words as [|x rest]; simpl in *; [lia|].
      destruct k as [|k']; [lia|]. cbn [firstn].
      apply join_starts. inversion Hfree; inversion Hnonempty; subst.
      now apply sepFree_starts. }
  split; [exact Hcount|]. rewrite Hcount. lia.
Qed.

End SummarizerFacts.

Section SummarizerSamples.
#[local] Existing Instance Runtimes.legacy.

(** C6: one word padded towards 55 words gives two words. *)
Lemma single_word_counterexample :
  summarizeString SampleText.tokenizer "hello" 55 60 = "hello hello"%string
  /\ JsString.wordCount (summarizeString SampleText.tokenizer "hello" 55 60) = 2
  /\ JsString.wordCount (summarizeString SampleText.tokenizer "hello" 55 60) < 55.
Proof. repeat split. Qed.

Lemma short_text_padding_witness :
  summarizeString SampleText.tokenizer "Markets rallied on Tuesday." 6 60
  = "Markets rallied on Tuesday. Markets rallied"%string
  /\ JsString.wordCount
       (summarizeString SampleText.tokenizer "Markets rallied on Tuesday." 6 60) = 6.
Proof.
  destruct (short_text_padding SampleText.tokenizer "Markets rallied on Tuesday." 6 60)
    as [Hout Hcount].
  - discriminate.
  - reflexivity.
  - reflexivity.
  - destruct Hcount as [Hcount _]; [reflexivity|reflexivity|].
    split; [rewrite Hout; reflexivity | rewrite Hcount; reflexivity].
Defined.

End SummarizerSamples.

(** ** Promises *)
Section PromiseFacts.
Context {A : Type}.

Lemma lookup_map {B C} (f : B -> C) (l : list B) (i : nat) :
  List.map f l !! i = f <$> (l !! i).
Proof.
  revert i. induction l as [|x l IH]; intros [|i]; simpl; auto.
Qed.

Lemma filled_slots (values : list (option A)) (vs vs' : list A) :
  Forall2 (fun slot v => slot = None \/ slot = Some v) values vs ->
  Forall2 (fun slot v => id slot = Some v) values vs' ->
  vs' = vs.
Proof.
  intros Hinv. revert vs'. induction Hinv as [|slot v values vs Hs _ IH];
    intros vs' Hfull; inversion Hfull as [|? v' ? vs'' Hv Hrest]; subst; auto.
  f_equal; [|now apply IH].
  simpl in Hv. destruct Hs as [Hs|Hs]; congruence.
Qed.

(** When every promise is fulfilled and every one of them settles,
    [Promise.all] yields the values by index, whatever the order. *)
Lemma promiseAll_run_fulfilled (vs : list A) (order : list nat) :
  forall values : list (option A),
    Forall2 (fun slot v => slot = None \/ slot = Some v) values vs ->
    (forall i, values !! i = Some None -> i ∈ order) ->
    promiseAll_run (List.map Ok vs) order values = Some (Ok vs).
Proof.
  induction order as [|j later IH]; intros values Hinv Hpend.
  - simpl. destruct (mapM id values) as [vs'|] eqn:Hm.
    + apply mapM_Some_1 in Hm. now rewrite (filled_slots _ _ _ Hinv Hm).
    + apply mapM_None_1, Exists_exists in Hm as (slot & Hin & Hnone).
      apply list_elem_of_lookup in Hin as [i Hi]. simpl in Hnone. subst slot.
      specialize (Hpend i Hi). inversion Hpend.
  - simpl. destruct (mapM id values) as [vs'|] eqn:Hm.
    + apply mapM_Some_1 in Hm. now rewrite (filled_slots _ _ _ Hinv Hm).
    + rewrite lookup_map.
      destruct (vs !! j) as [v|] eqn:Hj; simpl.
      * apply IH.
        -- rewrite <- (list_insert_id vs j v Hj) at 1.
           apply Forall2_insert; auto.
        -- intros i Hi.
           assert (Hlen : (j < List.length values)%nat).
           { rewrite (Forall2_length _ _ _ Hinv). now apply lookup_lt_Some in Hj. }
           destruct (decide (i = j)) as [->|Hne].
           ++ rewrite list_lookup_insert_eq in Hi by exact Hlen. discriminate.
           ++ rewrite list_lookup_insert_ne in Hi by auto.
              specialize (Hpend i Hi). apply elem_of_cons in Hpend as [?|?]; congruence.
      * apply IH; auto. intros i Hi.
        assert (Hlt : (i < List.length vs)%nat).
        { rewrite <- (Forall2_length _ _ _ Hinv). now apply lookup_lt_Some in Hi. }
        apply lookup_ge_None in Hj.
        specialize (Hpend i Hi). apply elem_of_cons in Hpend as [->|?]; [lia|assumption].
Qed.

Lemma promiseAll_fulfilled (vs : list A) (order : list nat) :
  (forall i, (i < List.length vs)%nat -> i ∈ order) ->
  promiseAll order (List.map Ok vs) = Some (Ok vs).
Proof.
  intros Hall. unfold promiseAll. apply promiseAll_run_fulfilled.
  - rewrite length_map. apply Forall2_replicate_l; [reflexivity|].
    apply Forall_forall. auto.
  - intros i Hi. apply Hall.
    apply lookup_lt_Some in Hi. now rewrite length_replicate, length_map in Hi.
Qed.

Lemma mapR_Ok {B} (f : B -> result A) (xs : list B) (ys : list A) :
  mapR f xs = Ok ys -> List.map f xs = List.map Ok ys.
Proof.
  revert ys. induction xs as [|x xs IH]; intros ys; simpl.
  - intros [= <-]. reflexivity.
  - destruct (f x) as [y|]; simpl; [|discriminate].
    destruct (mapR f xs) as [ys'|]; simpl; [|discriminate].
    intros [= <-]. simpl. now rewrite (IH ys').
Qed.

Lemma mapR_app {B} (f : B -> result A) (xs1 xs2 : list B) (ys : list A) :
  mapR f (xs1 ++ xs2) = Ok ys ->
  exists ys1 ys2, mapR f xs1 = Ok ys1 /\ mapR f xs2 = Ok ys2 /\ ys = ys1 ++ ys2.
Proof.
  revert ys. induction xs1 as [|x xs1 IH]; intros ys; simpl.
  - intros Hys. exists [], ys. auto.
  - destruct (f x) as [y|]; simpl; [|discriminate].
    destruct (mapR f (xs1 ++ xs2)) as [ys'|] eqn:E; simpl; [|discriminate].
    intros [= <-]. destruct (IH ys' eq_refl) as (ys1 & ys2 & -> & -> & ->).
    exists (y :: ys1), ys2. auto.
Qed.

End PromiseFacts.

(** ** Content Extractor *)
Section ExtractorFacts.
Context {Doc Sel : Type} `{Cheerio Doc Sel}.

(** The loop of lines 131-137 is a search for the first selector with a
    non-empty selection. *)
Lemma firstContainer_find (doc : Doc) (selectors : list selector) :
  firstContainer doc selectors =
  select doc <$> List.find (fun sel => 0 <? sel_length (select doc sel)) selectors.
Proof.
  induction selectors as [|sel rest IH]; simpl; [reflexivity|].
  destruct (0 <? sel_length (select doc sel)); [reflexivity|exact IH].
Qed.

(** C5 (amended).  The extractor tries the container selectors in the
    order article, role=main, main, .article-content, .story-content,
    .main-content, .post-content, #content-body, .content,
    .entry-content, .story-body, #article-body, and uses the first one
    that matches at least one element. *)
Theorem container_priority (doc : Doc) :
  firstContainer doc possibleSelectors =
  select doc <$>
    List.find (fun sel => 0 <? sel_length (select doc sel))
      [ByTag "article"; ByAttr "role" "main"; ByTag "main";
       ByClass "article-content"; ByClass "story-content"; ByClass "main-content";
       ByClass "post-content"; ById "content-body"; ByClass "content";
       ByClass "entry-content"; ByClass "story-body"; ById "article-body"]%string.
Proof. apply firstContainer_find. Qed.

End ExtractorFacts.

Section ExtractorSamples.
#[local] Existing Instance Runtimes.legacy.

(** C5: on a page with a .post-content block and a .main-content block the
    specification's order picks the former, the code the latter, whose
    text is what the extractor returns. *)
Lemma selector_order_counterexample :
  let doc := sel_remove strippedTags SamplePipeline.twoBlocks in
  Dom.elementsOf <$> firstContainer doc specSelectors
    = Some [Dom.div "post-content" [Dom.p SamplePipeline.postText]]
  /\ Dom.elementsOf <$> firstContainer doc possibleSelectors
    = Some [Dom.div "main-content" [Dom.p SamplePipeline.mainText]]
  /\ firstContainer doc possibleSelectors <> firstContainer doc specSelectors
  /\ extractFromPage (JStr "https://www.bbc.co.uk/news/1") SamplePipeline.twoBlocks
    = Ok SamplePipeline.mainText.
Proof.
  repeat split; try (vm_compute; reflexivity). vm_compute. discriminate.
Qed.

(** A paragraph inside two nested containers of the selection is found
    once. *)
Example find_once_sample :
  let doc := Dom.page [Dom.div "content" [Dom.div "content" [Dom.p "Nested."]]] in
  sel_length (select doc (ByClass "content")) = 2
  /\ each_text (sel_find (select doc (ByClass "content")) (ByTag "p")) = ["Nested."]%string.
Proof. split; reflexivity. Qed.

End ExtractorSamples.

(** ** Batch Pipeline *)
Section PipelineFacts.
Context `{Runtime} {Doc Sel : Type} `{Cheerio Doc Sel}.
Variable fetchFeed : string -> result jsval.
Variable hostname : string -> result string.
Variable fetchArticle : jsval -> result Doc.
Variable tokenize : string -> result (list string).

Abbreviation extracted item := (extractArticleContent fetchArticle (link item)).
Abbreviation foundItem requested :=
  (List.find (fun item => Js.is_str requested (guid item))
             (List.concat (List.map (fetchRSSFeed fetchFeed hostname) rssFeeds))).

(** The extractor rejects exactly when the URL cannot be converted to a
    string: the log line of its [catch] block converts it again. *)
Lemma extractArticleContent_rejects url e :
  Js.toString url = Throw e -> extractArticleContent fetchArticle url = Throw e.
Proof. intros Hu. unfold extractArticleContent. rewrite Hu. reflexivity. Qed.

Lemma extractArticleContent_converts url content :
  extractArticleContent fetchArticle url = Ok content ->
  exists u, Js.toString url = Ok u.
Proof.
  destruct (Js.toString url) as [u|e] eqn:Hu; [eauto|].
  rewrite (extractArticleContent_rejects url e Hu). discriminate.
Qed.

(** Line 376: the [try] block of the handler completes when title and
    link can be converted for the log line. *)
Lemma processBatchItem_resolvable item t content :
  resolvable item = true ->
  Js.toString (title item) = Ok t ->
  extracted item = Ok content ->
  processBatchItem fetchArticle tokenize item =
  Ok (processedItem item (JStr (summarizeString tokenize content 60 60))).
Proof.
  intros Hr Ht Hc. destruct (extractArticleContent_converts _ _ Hc) as [l Hl].
  unfold processBatchItem. rewrite Hr, Ht. simpl. rewrite Hl. simpl.
  rewrite Hc. reflexivity.
Qed.

(** Lines 387-398: the [catch] block of the handler is entered when the
    title cannot be converted. *)
Lemma processBatchItem_caught item e l :
  resolvable item = true ->
  Js.toString (title item) = Throw e ->
  Js.toString (link item) = Ok l ->
  processBatchItem fetchArticle tokenize item =
  (summary ← summarizeBody tokenize
               (Js.or (description item) (JStr "Summarization failed.")) 60 60;
   mret (processedItem item summary)).
Proof.
  intros Hr Ht Hl. unfold processBatchItem. rewrite Hr, Ht. simpl.
  rewrite Hl. reflexivity.
Qed.

Lemma processOne_resolvable item t content :
  resolvable item = true ->
  Js.toString (title item) = Ok t ->
  extracted item = Ok content ->
  processOne fetchArticle tokenize item =
  Ok (processedItem item (JStr (summarizeString tokenize content 60 60))).
Proof.
  intros Hr Ht Hc. unfold processOne, processOne_try. rewrite Hr, Ht. simpl.
  rewrite Hc. reflexivity.
Qed.

(** Lines 471-477: whatever the [try] block throws, the [catch] block
    answers. *)
Lemma processOne_caught item e :
  processOne_try fetchArticle tokenize item = Throw e ->
  processOne fetchArticle tokenize item =
  (summary ← summarizeBody tokenize (description item) 60 60;
   mret (spreadItem item summary)).
Proof. intros Ht. unfold processOne. rewrite Ht. reflexivity. Qed.

(** Lines 465-470: an item without resolvable link. *)
Lemma processOne_unresolvable item :
  resolvable item = false ->
  processOne fetchArticle tokenize item =
  (summary ← summarizeBody tokenize (description item) 60 60;
   mret (spreadItem item summary)).
Proof.
  intros Hr. unfold processOne, processOne_try, processOne_catch, summarizeText.
  rewrite Hr. simpl.
  destruct (summarizeBody tokenize (description item) 60 60); reflexivity.
Qed.

(** The [try] block of process-one throws when the title or the link
    cannot be converted. *)
Lemma processOne_try_throws item e :
  resolvable item = true ->
  Js.toString (title item) = Throw e
  \/ (exists t, Js.toString (title item) = Ok t) /\ Js.toString (link item) = Throw e ->
  processOne_try fetchArticle tokenize item = Throw e.
Proof.
  intros Hr Hcase. unfold processOne_try. rewrite Hr.
  destruct Hcase as [Ht|[[t Ht] Hl]]; rewrite Ht; simpl; [reflexivity|].
  now rewrite (extractArticleContent_rejects _ _ Hl).
Qed.

(** C2 (amended).  Each of the six summarizations of the pipeline runs
    the summarizer body with minWords = 60 and maxWords = 60.  The handler
    of process-all is its try block on the extracted text (line 376),
    its catch block on the description (line 393), and the branch of an
    item without resolvable link on the description (line 404);
    process-one is its try block on the extracted text (line 453) or, for
    an item without resolvable link, on the description (line 468), and
    its catch block on the description (line 475).  Both catch blocks are
    reached: the one of the handler when the title cannot be converted
    for the log line while the link can, the one of process-one whenever
    its try block throws. *)
Theorem pipeline_bounds (item : CanonicalItem) :
  processBatchItem fetchArticle tokenize item =
    (if resolvable item then
       try_catch
         (_ ← Js.toString (title item);
          _ ← Js.toString (link item);
          content ← extracted item;
          summary ← summarizeBody tokenize (JStr content) 60 60;
          mret (processedItem item summary))
         (fun _ =>
            _ ← Js.toString (link item);
            summary ← summarizeBody tokenize
                        (Js.or (description item) (JStr "Summarization failed."))
                        60 60;
            mret (processedItem item summary))
     else
       summary ← summarizeBody tokenize
                   (Js.or (description item) (JStr "No content to summarize."))
                   60 60;
       mret (processedItem item summary))
  /\ processOne fetchArticle tokenize item =
     try_catch
       (if resolvable item then
          _ ← Js.toString (title item);
          content ← extracted item;
          summary ← summarizeBody tokenize (JStr content) 60 60;
          mret (processedItem item summary)
        else
          summary ← summarizeBody tokenize (description item) 60 60;
          mret (spreadItem item summary))
       (fun _ =>
          summary ← summarizeBody tokenize (description item) 60 60;
          mret (spreadItem item summary))
  /\ (resolvable item = true ->
      forall e l,
        Js.toString (title item) = Throw e -> Js.toString (link item) = Ok l ->
        processBatchItem fetchArticle tokenize item =
        (summary ← summarizeBody tokenize
                     (Js.or (description item) (JStr "Summarization failed."))
                     60 60;
         mret (processedItem item summary)))
  /\ (forall e,
        processOne_try fetchArticle tokenize item = Throw e ->
        processOne fetchArticle tokenize item =
        (summary ← summarizeBody tokenize (description item) 60 60;
         mret (spreadItem item summary))).
Proof.
  split; [reflexivity|]. split; [reflexivity|]. split.
  - intros Hr e l Ht Hl. exact (processBatchItem_caught item e l Hr Ht Hl).
  - apply processOne_caught.
Qed.

Lemma spreadItem_keys item summary :
  List.map fst (spreadItem item summary) = spreadKeys
  /\ Js.lookup "link" (spreadItem item summary) = link item
  /\ Js.lookup "source" (spreadItem item summary) = JStr (source item).
Proof. repeat split. Qed.

(** Serialization keeps the fields whose value is neither [undefined]
    nor a function, in their order. *)
Lemma json_object_keys (o : jsobj) :
  List.map fst (Json.object o)
  = List.map fst (List.filter (fun kv => negb (Json.omitted (snd kv))) o).
Proof.
  unfold Json.object. cbn [Json.value].
  induction o as [|[k x] o IH]; simpl; [reflexivity|].
  destruct (Json.omitted x); simpl; [exact IH|now rewrite IH].
Qed.

(** On the wire a record keeps, in order, the keys whose value is neither
    [undefined] nor a function. *)
Lemma processedItem_wire item summary :
  List.map fst (Json.object (processedItem item summary))
  = List.filter (fun k => negb (Json.omitted (Js.lookup k (processedItem item summary))))
                processedKeys.
Proof.
  rewrite json_object_keys. unfold processedItem, processedKeys. simpl.
  destruct (Json.omitted (guid item)), (Json.omitted (title item)),
    (Json.omitted (description item)), (Json.omitted summary),
    (Json.omitted (imageUrl item)), (Json.omitted (sourceName item)),
    (Json.omitted (pubDate item)); reflexivity.
Qed.

Lemma spreadItem_wire item summary :
  List.map fst (Json.object (spreadItem item summary))
  = List.filter (fun k => negb (Json.omitted (Js.lookup k (spreadItem item summary))))
                spreadKeys.
Proof.
  rewrite json_object_keys. unfold spreadItem, item_object, spreadKeys. simpl.
  destruct (Json.omitted (guid item)), (Json.omitted (title item)),
    (Json.omitted (description item)), (Json.omitted (link item)),
    (Json.omitted (pubDate item)), (Json.omitted (imageUrl item)),
    (Json.omitted (sourceName item)), (Json.omitted summary); reflexivity.
Qed.

(** The spread on the wire: source is always there, link unless its
    value is dropped by the serialization. *)
Lemma spreadItem_wire_link item summary :
  In "source"%string (List.map fst (Json.object (spreadItem item summary)))
  /\ (In "link"%string (List.map fst (Json.object (spreadItem item summary)))
      <-> Json.omitted (link item) = false).
Proof.
  rewrite spreadItem_wire. split; [|split].
  - apply filter_In. split; [unfold spreadKeys; simpl; tauto|reflexivity].
  - intros Hin. apply filter_In in Hin as [_ Hl]. simpl in Hl.
    now apply negb_true_iff in Hl.
  - intros Hl. apply filter_In. split; [unfold spreadKeys; simpl; tauto|].
    simpl. now rewrite Hl.
Qed.

(** Process-one answers 200 with the record built for the item it
    finds. *)
Lemma feedItem_found requested item obj :
  foundItem requested = Some item ->
  processOne fetchArticle tokenize item = Ok obj ->
  feedItem fetchFeed hostname fetchArticle tokenize requested
  = {| status := 200; body := obj |}.
Proof. intros Hf Ho. unfold feedItem. now rewrite Hf, Ho. Qed.

(** C10 (amended).  For the item it finds, process-one answers with
    records of two shapes.  When the link is resolvable and the try block
    completes (the title can be converted for the log line, the extractor
    answers), the record has the seven fields of a processed item.  When
    the link is not resolvable, or when the try block throws, and the
    description can be summarized, the record is the canonical item
    followed by summarized_content: nine fields, link and source among
    them.  On the wire either record keeps the fields whose value is
    neither undefined nor a function: the spread always carries source,
    and it carries link unless the item has none. *)
Theorem process_one_shapes (requested : string) (item : CanonicalItem) :
  foundItem requested = Some item ->
  let r := feedItem fetchFeed hostname fetchArticle tokenize requested in
  (resolvable item = true ->
   forall t content,
     Js.toString (title item) = Ok t -> extracted item = Ok content ->
     status r = 200
     /\ body r = processedItem item (JStr (summarizeString tokenize content 60 60))
     /\ List.map fst (body r) = processedKeys
     /\ List.map fst (wireBody r)
        = List.filter (fun k => negb (Json.omitted (Js.lookup k (body r))))
                      processedKeys)
  /\ (resolvable item = false
      \/ (exists e, processOne_try fetchArticle tokenize item = Throw e) ->
      forall summary,
        summarizeBody tokenize (description item) 60 60 = Ok summary ->
        status r = 200
        /\ body r = spreadItem item summary
        /\ List.map fst (body r) = spreadKeys
        /\ Js.lookup "link" (body r) = link item
        /\ Js.lookup "source" (body r) = JStr (source item)
        /\ List.map fst (wireBody r)
           = List.filter (fun k => negb (Json.omitted (Js.lookup k (body r))))
                         spreadKeys
        /\ In "source"%string (List.map fst (wireBody r))
        /\ (In "link"%string (List.map fst (wireBody r))
            <-> Json.omitted (link item) = false)).
Proof.
  intros Hfound r. split.
  - intros Hr t content Ht Hc.
    assert (Er : r = {| status := 200;
                        body := processedItem item
                                  (JStr (summarizeString tokenize content 60 60)) |}).
    { apply (feedItem_found requested item); [exact Hfound|].
      exact (processOne_resolvable item t content Hr Ht Hc). }
    rewrite Er. unfold wireBody. cbn [status body].
    repeat split. apply processedItem_wire.
  - intros Hcase summary Hs.
    assert (Er : r = {| status := 200; body := spreadItem item summary |}).
    { apply (feedItem_found requested item); [exact Hfound|].
      destruct Hcase as [Hr|[e He]].
      - rewrite (processOne_unresolvable item Hr), Hs. reflexivity.
      - rewrite (processOne_caught item e He), Hs. reflexivity. }
    rewrite Er. unfold wireBody. cbn [status body].
    destruct (spreadItem_wire_link item summary) as (Hw1 & Hw2).
    pose proof (spreadItem_wire item summary) as Hw.
    repeat split; auto; apply Hw2.
Qed.

Lemma processBatchItem_guid item obj :
  processBatchItem fetchArticle tokenize item = Ok obj ->
  Js.lookup "guid" obj = guid item.
Proof.
  unfold processBatchItem, try_catch.
  assert (Hsum : forall text (o : jsobj),
             (summary ← summarizeText tokenize text (Some 60) None;
              mret (processedItem item summary)) = Ok o ->
             Js.lookup "guid" o = guid item).
  { intros text o. destruct (summarizeText tokenize text (Some 60) None);
      simpl; [|discriminate]. intros [= <-]. reflexivity. }
  destruct (resolvable item); [|apply Hsum].
  match goal with
  | |- match ?m with Ok _ => _ | Throw _ => _ end = _ -> _ =>
      destruct m as [o|e] eqn:Etry
  end.
  - intros [= <-].
    destruct (Js.toString (title item)); simpl in Etry; [|discriminate].
    destruct (Js.toString (link item)); simpl in Etry; [|discriminate].
    destruct (extractArticleContent fetchArticle (link item)); simpl in Etry;
      [|discriminate].
    injection Etry as <-. reflexivity.
  - destruct (Js.toString (link item)); simpl; [|discriminate]. apply Hsum.
Qed.

Lemma slice_batch (allItems : list CanonicalItem) (m : nat) :
  (m < List.length allItems)%nat ->
  slice (Z.of_nat m) (Z.of_nat m + batchSize) allItems = firstn 3 (skipn m allItems).
Proof.
  intros Hm. unfold slice, slice_index, batchSize.
  destruct (Z.of_nat m <? 0) eqn:E1; [apply Z.ltb_lt in E1; lia|].
  destruct (Z.of_nat m + 3 <? 0) eqn:E2; [apply Z.ltb_lt in E2; lia|].
  rewrite (Z.min_l (Z.of_nat m)) by lia. rewrite Nat2Z.id.
  destruct (Z.min_spec (Z.of_nat m + 3) (Z.of_nat (List.length allItems)))
    as [[Hlt ->]|[Hge ->]].
  - f_equal. lia.
  - rewrite !firstn_all2; auto; rewrite length_skipn; lia.
Qed.

(** The loop appends the results of the remaining items in index order. *)
Lemma batchLoop_ordered timing (allItems : list CanonicalItem) :
  everyPromiseSettles timing allItems ->
  forall (fuel m : nat) (processed rest : list jsobj),
    (List.length allItems - m < fuel)%nat ->
    mapR (processBatchItem fetchArticle tokenize) (skipn m allItems) = Ok rest ->
    batchLoop fetchArticle tokenize fuel timing allItems (Z.of_nat m) processed
    = Some (Ok (processed ++ rest)).
Proof.
  intros Hsettle. induction fuel as [|fuel IH]; intros m processed rest Hfuel Hrest;
    [lia|].
  simpl. unfold len.
  destruct (Z.of_nat m <? Z.of_nat (List.length allItems)) eqn:Em.
  - apply Z.ltb_lt in Em.
    assert (Hm : (m < List.length allItems)%nat) by lia.
    pose proof (Hsettle (Z.of_nat m)) as Hs.
    rewrite slice_batch in Hs |- * by exact Hm.
    rewrite <- (firstn_skipn 3 (skipn m allItems)) in Hrest.
    apply mapR_app in Hrest as (r1 & r2 & H1 & H2 & ->).
    pose proof (mapR_Ok _ _ _ H1) as Hmap. rewrite Hmap.
    rewrite promiseAll_fulfilled.
    + replace (Z.of_nat m + batchSize) with (Z.of_nat (m + 3)) by (unfold batchSize; lia).
      rewrite (IH (m + 3)%nat (processed ++ r1) r2).
      * now rewrite app_assoc.
      * lia.
      * rewrite drop_drop in H2. exact H2.
    + intros j Hj. apply Hs.
      apply (f_equal (@List.length _)) in Hmap. rewrite !length_map in Hmap.
      now rewrite Hmap.
  - apply Z.ltb_ge in Em.
    rewrite skipn_all2 in Hrest by lia. simpl in Hrest. injection Hrest as <-.
    now rewrite app_nil_r.
Qed.

Lemma mapR_guids (allItems : list CanonicalItem) (outs : list jsobj) :
  mapR (processBatchItem fetchArticle tokenize) allItems = Ok outs ->
  List.map (Js.lookup "guid") outs = List.map guid allItems.
Proof.
  revert outs. induction allItems as [|item rest IH]; intros outs; simpl.
  - intros [= <-]. reflexivity.
  - destruct (processBatchItem fetchArticle tokenize item) as [obj|] eqn:Eo;
      simpl; [|discriminate].
    destruct (mapR _ rest) as [objs|]; simpl; [|discriminate].
    intros [= <-]. simpl. rewrite (processBatchItem_guid _ _ Eo).
    now rewrite (IH objs).
Qed.

(** C8.  Whatever the order in which the promises of each batch of three
    settle, process-all hands out the processed items in the order of the
    sorted input: each batch in input order, the batches one after the
    other. *)
Theorem batches_preserve_order (timing : Z -> list nat)
        (allItems : list CanonicalItem) (outs : list jsobj) :
  everyPromiseSettles timing allItems ->
  mapR (processBatchItem fetchArticle tokenize) allItems = Ok outs ->
  processBatches fetchArticle tokenize timing allItems = Some (Ok outs)
  /\ List.map (Js.lookup "guid") outs = List.map guid allItems.
Proof.
  intros Hsettle Houts. split; [|now apply mapR_guids].
  unfold processBatches.
  apply (batchLoop_ordered timing allItems Hsettle _ 0%nat [] outs); [lia|exact Houts].
Qed.

End PipelineFacts.

Lemma batch_length {A} (i : Z) (xs : list A) :
  (List.length (slice i (i + batchSize) xs) <= 3)%nat.
Proof.
  unfold slice, slice_index, batchSize. rewrite length_take.
  destruct (i <? 0) eqn:E1; destruct (i + 3 <? 0) eqn:E2;
    try apply Z.ltb_lt in E1; try apply Z.ltb_ge in E1;
    try apply Z.ltb_lt in E2; try apply Z.ltb_ge in E2; lia.
Qed.

Section PipelineSamples.
#[local] Existing Instance Runtimes.legacy.

(** C1 (the code at the failing inputs).  With the network down, the item
    with an article link gets the summary of the extractor's error text,
    not of its description; and with a failing tokenizer it gets the
    padded article text, again not the description. *)
Theorem failed_extraction_summarizes_error_text :
  processBatchItem SamplePipeline.offline SampleText.tokenizer SamplePipeline.linked
  = Ok (processedItem SamplePipeline.linked
          (JStr "Error extracting content: timeout of 15000ms exceeded Error extracting content: timeout of 15000ms exceeded"))
  /\ summarizeText SampleText.tokenizer (description SamplePipeline.linked) (Some 60) None
     = Ok (JStr "The bridge reopens next month after repairs. The bridge reopens next month after repairs.")
  /\ processBatchItem SamplePipeline.online SampleText.failingTokenizer SamplePipeline.linked
     = Ok (processedItem SamplePipeline.linked
             (JStr (summarizeFallback SamplePipeline.mainText 60 60)))
  /\ JStr (summarizeFallback SamplePipeline.mainText 60 60)
     <> JStr "The bridge reopens next month after repairs. The bridge reopens next month after repairs.".
Proof.
  repeat split; try (vm_compute; reflexivity). vm_compute. discriminate.
Qed.

(** C4 (the code at the failing input).  A guid element that carries an
    attribute and no text is truthy and has no text to unwrap: it stays
    the identifier, an object and not a string, and no fallback is
    built.  No request can name such an item: whatever identifier is
    asked for, process-one answers that the item is not found. *)
Theorem attribute_only_guid_stays_object :
  (exists c,
      fetchRSSFeed (Samples.serve (Samples.rssDocument (JObj Samples.itemWithEmptyGuid)))
                   Samples.host Samples.feedUrl = [c]
      /\ guid c = JObj [("$", JObj [("isPermaLink", JStr "false")])]%string
      /\ (forall s, guid c <> JStr s)
      /\ link c = JStr "https://www.bbc.co.uk/news/1")
  /\ forall requested,
      feedItem (Samples.serve (Samples.rssDocument (JObj Samples.itemWithEmptyGuid)))
               Samples.host SamplePipeline.offline SampleText.tokenizer requested
      = {| status := 404; body := [("error", JStr "Item not found")]%string |}.
Proof.
  split.
  - eexists. split; [vm_compute; reflexivity|].
    split; [reflexivity|]. split; [discriminate|reflexivity].
  - intros requested. reflexivity.
Qed.

(** C2: thirty words become sixty under the bounds the pipeline passes,
    fifty-five under the defaults. *)
Lemma default_bounds_counterexample :
  exists s60 s55,
    processBatchItem SamplePipeline.offline SampleText.tokenizer SamplePipeline.terse
    = Ok (processedItem SamplePipeline.terse (JStr s60))
    /\ summarizeText SampleText.tokenizer (description SamplePipeline.terse) None None
       = Ok (JStr s55)
    /\ JsString.wordCount s60 = 60 /\ JsString.wordCount s55 = 55 /\ s60 <> s55.
Proof.
  eexists. eexists. split; [vm_compute; reflexivity|].
  split; [vm_compute; reflexivity|].
  split; [vm_compute; reflexivity|].
  split; [vm_compute; reflexivity|]. vm_compute. discriminate.
Qed.

(** The catch blocks at work: the title of the item cannot be converted
    for the log line, and the description is summarized with the bounds
    60 and 60. *)
Lemma pipeline_bounds_witness :
  processBatchItem SamplePipeline.offline SampleText.tokenizer SamplePipeline.shadowed
  = (summary ← summarizeBody SampleText.tokenizer
                 (Js.or (description SamplePipeline.shadowed)
                        (JStr "Summarization failed.")) 60 60;
     mret (processedItem SamplePipeline.shadowed summary))
  /\ processOne SamplePipeline.offline SampleText.tokenizer SamplePipeline.shadowed
     = (summary ← summarizeBody SampleText.tokenizer
                    (description SamplePipeline.shadowed) 60 60;
        mret (spreadItem SamplePipeline.shadowed summary)).
Proof.
  pose proof (pipeline_bounds SamplePipeline.offline SampleText.tokenizer
                SamplePipeline.shadowed) as (_ & _ & Hcatch & Hone).
  split.
  - apply (Hcatch eq_refl "Cannot convert object to primitive value"%string
             "https://www.bbc.co.uk/news/4"%string); reflexivity.
  - apply (Hone "Cannot convert object to primitive value"%string). reflexivity.
Defined.

Lemma lastFirst_settles : everyPromiseSettles SamplePipeline.lastFirst SamplePipeline.seven.
Proof.
  intros i j Hj. pose proof (batch_length i SamplePipeline.seven) as Hle.
  unfold SamplePipeline.lastFirst.
  destruct j as [|[|[|j]]]; [set_solver|set_solver|set_solver|lia].
Defined.

Lemma batches_preserve_order_witness :
  exists outs,
    mapR (processBatchItem SamplePipeline.offline SampleText.tokenizer)
         SamplePipeline.seven = Ok outs
    /\ processBatches SamplePipeline.offline SampleText.tokenizer
                      SamplePipeline.lastFirst SamplePipeline.seven = Some (Ok outs)
    /\ List.map (Js.lookup "guid") outs = List.map guid SamplePipeline.seven.
Proof.
  eexists. split; [vm_compute; reflexivity|].
  apply (batches_preserve_order SamplePipeline.offline SampleText.tokenizer
           SamplePipeline.lastFirst SamplePipeline.seven).
  - exact lastFirst_settles.
  - vm_compute. reflexivity.
Defined.

(** C10: the item without link is found and answered with the spread, but
    the response carries no link; and the item with a resolvable link
    whose title cannot be converted is answered with the spread, not with
    the seven fields. *)
Lemma process_one_counterexample :
  (let r := feedItem (Samples.serve (Samples.rssDocument (JObj Samples.itemWithoutLink)))
                     Samples.host SamplePipeline.offline SampleText.tokenizer "tag:1" in
   status r = 200
   /\ List.map fst (body r) = spreadKeys
   /\ List.map fst (wireBody r)
      = ["guid"; "title"; "description"; "pubDate"; "imageUrl"; "source";
         "sourceName"; "summarized_content"]%string
   /\ ~ In "link"%string (List.map fst (wireBody r)))
  /\ (let r := feedItem (Samples.serve (Samples.rssDocument
                                          (JObj Samples.itemWithShadowedTitle)))
                        Samples.host SamplePipeline.offline SampleText.tokenizer "tag:4" in
      Js.lookup "link" (body r) = JStr "https://www.bbc.co.uk/news/4"
      /\ status r = 200
      /\ List.map fst (body r) = spreadKeys
      /\ List.map fst (body r) <> processedKeys).
Proof.
  split.
  - repeat split; try (vm_compute; reflexivity).
    vm_compute. intros Hin.
    repeat (destruct Hin as [Hin|Hin]; [discriminate|]). destruct Hin.
  - repeat split; try (vm_compute; reflexivity). vm_compute. discriminate.
Qed.

Lemma process_one_shapes_witness :
  (let r := feedItem (Samples.serve (Samples.rssDocument (JObj Samples.wellFormedItem)))
                     Samples.host SamplePipeline.offline SampleText.tokenizer "tag:3" in
   status r = 200 /\ List.map fst (body r) = processedKeys)
  /\ (let r := feedItem (Samples.serve (Samples.rssDocument
                                          (JObj Samples.itemWithShadowedTitle)))
                        Samples.host SamplePipeline.offline SampleText.tokenizer "tag:4" in
      status r = 200
      /\ List.map fst (body r) = spreadKeys
      /\ In "link"%string (List.map fst (wireBody r))).
Proof.
  split.
  - edestruct (process_one_shapes
                 (Samples.serve (Samples.rssDocument (JObj Samples.wellFormedItem)))
                 Samples.host SamplePipeline.offline SampleText.tokenizer "tag:3")
      as [Hseven _]; [vm_compute; reflexivity|].
    destruct (Hseven eq_refl "Election results"%string
                "Error extracting content: timeout of 15000ms exceeded"%string
                eq_refl eq_refl) as (Hs & _ & Hk & _).
    cbv zeta. split; [exact Hs|exact Hk].
  - edestruct (process_one_shapes
                 (Samples.serve (Samples.rssDocument (JObj Samples.itemWithShadowedTitle)))
                 Samples.host SamplePipeline.offline SampleText.tokenizer "tag:4")
      as [_ Hspread]; [vm_compute; reflexivity|].
    destruct (Hspread
                (or_intror (ex_intro _ "Cannot convert object to primitive value"%string
                                     eq_refl))
                (JStr "The bridge reopens next month after repairs. The bridge reopens next month after repairs.")
                eq_refl)
      as (Hs & _ & Hk & _ & _ & _ & _ & Hlink).
    cbv zeta. split; [exact Hs|]. split; [exact Hk|]. apply Hlink. reflexivity.
Defined.

End PipelineSamples.

(* ===================================================================== *)
(** * Further theorems *)
(* ===================================================================== *)

(** ** Cleaning, splitting and joining *)

Section CleanFacts.
Let sp := JsString.is_space.

Lemma join_cons_nonnil x y rest :
  JsString.join " " (x :: y :: rest) = x +:+ String " "%char (JsString.join " " (y :: rest)).
Proof. reflexivity. Qed.

Lemma append_String c a b : String c a +:+ b = String c (a +:+ b).
Proof. reflexivity. Qed.

Lemma join_head c w ws :
  JsString.join " " (String c w :: ws) = String c (JsString.join " " (w :: ws)).
Proof. destruct ws; reflexivity. Qed.

(** Splitting at white space and joining with one space collapses every
    run of white space into one space. *)
Lemma join_split_runs b s :
  JsString.join " " (JsString.split_runs sp b s) = JsString.collapse_ws b s.
Proof.
  revert b. induction s as [|c s IH]; intros b; [reflexivity|].
  cbn [JsString.split_runs JsString.collapse_ws]. fold sp.
  destruct (sp c).
  - destruct b; [apply IH|].
    pose proof (split_runs_nonnil sp true s) as Hnn. specialize (IH true).
    destruct (JsString.split_runs sp true s) as [|w ws]; [congruence|].
    rewrite join_cons_nonnil, IH. reflexivity.
  - pose proof (split_runs_nonnil sp false s) as Hnn. specialize (IH false).
    destruct (JsString.split_runs sp false s) as [|w ws]; [congruence|].
    now rewrite join_head, IH.
Qed.

Lemma collapse_true_starts s :
  JsString.collapse_ws true s = EmptyString
  \/ startsInWord sp (JsString.collapse_ws true s) = true.
Proof.
  induction s as [|c s IH]; [now left|]. simpl.
  destruct (JsString.is_space c) eqn:Ec; [exact IH|].
  right. simpl. unfold sp. now rewrite Ec.
Qed.

Lemma collapse_flag t :
  t = EmptyString \/ startsInWord sp t = true ->
  JsString.collapse_ws true t = JsString.collapse_ws false t.
Proof.
  intros [->|Ht]; [reflexivity|]. destruct t as [|c t]; [discriminate|].
  simpl in *. unfold sp in Ht. apply negb_true_iff in Ht. now rewrite Ht.
Qed.

(** Collapsing twice is collapsing once. *)
Lemma collapse_idem b s :
  JsString.collapse_ws false (JsString.collapse_ws b s) = JsString.collapse_ws b s.
Proof.
  revert b. induction s as [|c s IH]; intros b; [reflexivity|]. simpl.
  destruct (JsString.is_space c) eqn:Ec.
  - destruct b; [apply IH|]. simpl.
    rewrite collapse_flag by apply collapse_true_starts. now rewrite IH.
  - simpl. rewrite Ec. now rewrite IH.
Qed.

Lemma collapse_length b s :
  (String.length (JsString.collapse_ws b s) <= String.length s)%nat.
Proof.
  revert b. induction s as [|c s IH]; intros b; simpl; [lia|].
  pose proof (IH true). pose proof (IH false).
  destruct (JsString.is_space c); [destruct b|]; simpl; lia.
Qed.

Lemma trimStart_collapsed t :
  JsString.collapse_ws false t = t ->
  JsString.collapse_ws false (JsString.trimStart t) = JsString.trimStart t.
Proof.
  induction t as [|c t IH]; [reflexivity|]. simpl.
  destruct (JsString.is_space c) eqn:Ec.
  - intros [= _ Ht]. apply IH.
    rewrite <- (collapse_flag t); [exact Ht|].
    rewrite <- Ht. apply collapse_true_starts.
  - intros Ht. simpl. now rewrite Ec.
Qed.

Lemma trimStart_starts t :
  JsString.trimStart t = EmptyString \/ startsInWord sp (JsString.trimStart t) = true.
Proof.
  induction t as [|c t IH]; [now left|]. simpl.
  destruct (JsString.is_space c) eqn:Ec; [exact IH|].
  right. simpl. unfold sp. now rewrite Ec.
Qed.

Lemma trimEnd_collapsed t :
  forall b, JsString.collapse_ws b t = t ->
            JsString.collapse_ws b (JsString.trimEnd t) = JsString.trimEnd t.
Proof.
  induction t as [|c t IH]; intros b; [reflexivity|]. simpl.
  destruct (JsString.is_space c) eqn:Ec.
  - destruct b.
    + intros Ht. pose proof (collapse_length true t) as Hl.
      rewrite Ht in Hl. simpl in Hl. lia.
    + intros [= Hc Ht]. specialize (IH true Ht). subst c.
      destruct (JsString.trimEnd t) as [|d r] eqn:Er; [reflexivity|].
      cbn [JsString.collapse_ws]. rewrite Ec. f_equal. exact IH.
  - intros [= Ht]. specialize (IH false Ht).
    destruct (JsString.trimEnd t) as [|d r] eqn:Er; simpl; rewrite Ec; [reflexivity|].
    f_equal. exact IH.
Qed.

Lemma trimEnd_ends t :
  JsString.trimEnd t = EmptyString \/ endsInWord sp (JsString.trimEnd t) = true.
Proof.
  induction t as [|c t IH]; [now left|]. simpl.
  destruct (JsString.trimEnd t) as [|d r] eqn:Er.
  - destruct (JsString.is_space c) eqn:Ec; [now left|].
    right. simpl. unfold sp. now rewrite Ec.
  - right. destruct IH as [IH|IH]; [discriminate|]. exact IH.
Qed.

Lemma trimEnd_starts t :
  startsInWord sp t = true -> startsInWord sp (JsString.trimEnd t) = true.
Proof.
  destruct t as [|c t]; [discriminate|]. simpl. intros Hc.
  unfold sp in Hc. apply negb_true_iff in Hc.
  destruct (JsString.trimEnd t); rewrite ?Hc; simpl; unfold sp; now rewrite Hc.
Qed.

(** The cleaned text has no white space at either end and single spaces
    inside. *)
Lemma cleanText_tidy text :
  JsString.collapse_ws false (cleanText text) = cleanText text
  /\ (cleanText text = EmptyString
      \/ (startsInWord sp (cleanText text) = true
          /\ endsInWord sp (cleanText text) = true)).
Proof.
  unfold cleanText, JsString.trim.
  set (t := JsString.collapse_ws false text).
  assert (Ht : JsString.collapse_ws false t = t) by apply collapse_idem.
  split.
  - apply trimEnd_collapsed, trimStart_collapsed, Ht.
  - destruct (trimEnd_ends (JsString.trimStart t)) as [He|He]; [now left|].
    right. split; [|exact He].
    destruct (trimStart_starts t) as [Hs|Hs].
    + rewrite Hs in He. discriminate.
    + now apply trimEnd_starts.
Qed.

End CleanFacts.

Lemma cleanText_split (text : string) :
  JsString.join " " (JsString.split_ws (cleanText text)) = cleanText text
  /\ (cleanText text <> EmptyString ->
      Forall (fun w => w <> EmptyString /\ sepFree JsString.is_space w = true)
             (JsString.split_ws (cleanText text))).
Proof.
  destruct (cleanText_tidy text) as [Hc Hends]. split.
  - unfold JsString.split_ws. rewrite join_split_runs. exact Hc.
  - intros Hne. destruct Hends as [?|[Hs He]]; [congruence|].
    apply Forall_and. split.
    + apply split_runs_nonempty; auto.
    + apply split_runs_sepFree.
Qed.

(** X6.  The words of the cleaned text, joined by single spaces, are the
    cleaned text, and none of them is empty or holds white space unless
    the text is empty; cleaning a cleaned text changes nothing more. *)
Theorem cleanText_words (text : string) :
  JsString.join " " (JsString.split_ws (cleanText text)) = cleanText text
  /\ JsString.collapse_ws false (cleanText text) = cleanText text
  /\ (cleanText text <> EmptyString ->
      Forall (fun w => w <> EmptyString /\ sepFree JsString.is_space w = true)
             (JsString.split_ws (cleanText text))).
Proof.
  destruct (cleanText_split text) as [Hj Hw].
  destruct (cleanText_tidy text) as [Hc _]. auto.
Qed.

(** ** Word bounds of the summarizer *)

Section TailFacts.
Variable sep : ascii -> bool.

Lemma length_glue (c : ascii) (l : list string) :
  l <> [] ->
  List.length (match l with
               | w :: ws => String c w :: ws
               | [] => [String c EmptyString]
               end) = List.length l.
Proof. destruct l; [congruence|reflexivity]. Qed.

(** A separator-free tail glued to the last word adds no word. *)
Lemma split_runs_tail b x tail :
  endsInWord sep x = true -> sepFree sep tail = true ->
  List.length (JsString.split_runs sep b (x +:+ tail))
  = List.length (JsString.split_runs sep b x).
Proof.
  intros He Ht. revert b. induction x as [|a x IH]; intros b; [discriminate|].
  destruct x as [|a' x'].
  - simpl in He. apply negb_true_iff in He.
    change (String a EmptyString +:+ tail) with (String a tail).
    cbn [JsString.split_runs]. rewrite He.
    rewrite (split_runs_word sep false tail Ht). reflexivity.
  - assert (He' : endsInWord sep (String a' x') = true) by exact He.
    specialize (IH He').
    remember (String a' x') as t eqn:Et. simpl.
    destruct (sep a).
    + destruct b; simpl; rewrite IH; reflexivity.
    + rewrite !length_glue by apply split_runs_nonnil. apply IH.
Qed.

End TailFacts.

Lemma sepFree_dots : sepFree JsString.is_space "..." = true.
Proof. reflexivity. Qed.

Lemma endsInWord_app sep (x j : string) :
  j <> EmptyString -> endsInWord sep (x +:+ j) = endsInWord sep j.
Proof.
  intros Hj. induction x as [|c x IH]; [reflexivity|].
  change (String c x +:+ j) with (String c (x +:+ j)).
  destruct (x +:+ j) as [|d r] eqn:E.
  - destruct x; [change (j = EmptyString) in E; contradiction|discriminate].
  - exact IH.
Qed.

Lemma join_ends (ws : list string) :
  ws <> [] ->
  Forall (fun w => w <> EmptyString /\ sepFree JsString.is_space w = true) ws ->
  endsInWord JsString.is_space (JsString.join " " ws) = true.
Proof.
  induction ws as [|x rest IH]; [congruence|]. intros _ Hall.
  inversion Hall as [|? ? [Hx Hf] Hrest]; subst.
  destruct rest as [|y rest].
  - simpl. now apply sepFree_ends.
  - change (JsString.join " " (x :: y :: rest))
      with (x +:+ String " "%char (JsString.join " " (y :: rest))).
    rewrite endsInWord_app by discriminate.
    assert (Hj : endsInWord JsString.is_space (JsString.join " " (y :: rest)) = true)
      by (apply IH; [discriminate|assumption]).
    remember (JsString.join " " (y :: rest)) as j eqn:Ej.
    destruct j; [discriminate|exact Hj].
Qed.

(** The word count of good words joined by single spaces is their number. *)
Lemma wordCount_join (ws : list string) :
  ws <> [] ->
  Forall (fun w => w <> EmptyString /\ sepFree JsString.is_space w = true) ws ->
  JsString.wordCount (JsString.join " " ws) = len ws.
Proof.
  intros Hnn Hall. apply Forall_and in Hall as [Hne Hfree].
  unfold JsString.wordCount. now rewrite split_join.
Qed.

Lemma wordCount_join_dots (ws : list string) :
  ws <> [] ->
  Forall (fun w => w <> EmptyString /\ sepFree JsString.is_space w = true) ws ->
  JsString.wordCount (JsString.join " " ws +:+ "...") = len ws.
Proof.
  intros Hnn Hall. rewrite <- (wordCount_join ws Hnn Hall).
  unfold JsString.wordCount, JsString.split_ws. f_equal.
  apply split_runs_tail; [now apply join_ends|reflexivity].
Qed.

Lemma slice_prefix_length {A} (n : Z) (xs : list A) :
  0 <= n -> len (slice 0 n xs) = Z.min n (len xs).
Proof.
  intros Hn. rewrite slice_prefix by exact Hn. unfold len.
  rewrite length_take. lia.
Qed.

Lemma slice_prefix_nonnil {A} (n : Z) (xs : list A) :
  1 <= n -> xs <> [] -> slice 0 n xs <> [].
Proof.
  intros Hn Hxs E. apply (f_equal len) in E.
  rewrite slice_prefix_length in E by lia. unfold len in E.
  destruct xs; [congruence|]. simpl in E. lia.
Qed.

Lemma slice_prefix_Forall {A} (P : A -> Prop) (n : Z) (xs : list A) :
  0 <= n -> Forall P xs -> Forall P (slice 0 n xs).
Proof. intros Hn Hall. rewrite slice_prefix by exact Hn. now apply Forall_take. Qed.

Section BoundFacts.
Context `{Runtime}.
Variable tokenize : string -> result (list string).

(** Padding never yields more than maxWords words. *)
Lemma padWords_count (words : list string) (minWords maxWords : Z) :
  words <> [] -> Forall goodWord words -> 1 <= maxWords ->
  len words < minWords ->
  JsString.wordCount (padWords words minWords maxWords)
  = Z.min maxWords (len words + Z.min (len words) (minWords - len words)).
Proof.
  intros Hnn Hall Hmax Hlt. unfold padWords.
  rewrite wordCount_join.
  - rewrite slice_prefix_length by lia. unfold len at 1. rewrite length_app.
    fold (len words). pose proof (slice_prefix_length (minWords - len words) words).
    unfold len in *. lia.
  - apply slice_prefix_nonnil; [lia|]. destruct words; [congruence|discriminate].
  - apply slice_prefix_Forall; [lia|]. apply Forall_app. split; [exact Hall|].
    apply slice_prefix_Forall; [lia|exact Hall].
Qed.

(** Truncation yields min(maxWords, number of words) words. *)
Lemma truncateWords_count (words : list string) (maxWords : Z) :
  words <> [] -> Forall goodWord words -> 1 <= maxWords ->
  JsString.wordCount (truncateWords words maxWords) = Z.min maxWords (len words).
Proof.
  intros Hnn Hall Hmax. unfold truncateWords.
  rewrite wordCount_join_dots.
  - now apply slice_prefix_length; lia.
  - now apply slice_prefix_nonnil.
  - apply slice_prefix_Forall; [lia|exact Hall].
Qed.

Lemma cleanText_good text :
  cleanText text <> EmptyString ->
  JsString.split_ws (cleanText text) <> []
  /\ Forall goodWord (JsString.split_ws (cleanText text)).
Proof.
  intros Hne. split; [apply split_runs_nonnil|].
  now apply (proj2 (cleanText_split text)).
Qed.

Lemma summarizeString_long text minWords maxWords :
  100 <= JsString.length text ->
  summarizeString tokenize text minWords maxWords =
  match tokenize (cleanText text) with
  | Ok sentences =>
      if len sentences <=? 3 then summarizeFew (cleanText text) minWords maxWords
      else summarizeMany sentences minWords maxWords
  | Throw _ => summarizeFallback (cleanText text) minWords maxWords
  end.
Proof.
  intros Hl. unfold summarizeString.
  destruct (String.eqb_spec text EmptyString) as [->|_];
    [exfalso; revert Hl; unfold JsString.length; simpl; lia|].
  destruct (JsString.length text <? 100) eqn:E; [apply Z.ltb_lt in E; lia|].
  reflexivity.
Qed.

(** X8.  When the cleaned text has at most three sentences, the summary has
    at most maxWords words: the cleaned text itself when its word count is
    within the bounds, exactly maxWords words followed by the marker ...
    when it is above both. *)
Theorem few_sentences_bounded (text : string) (minWords maxWords : Z)
        (sentences : list string) :
  100 <= JsString.length text ->
  tokenize (cleanText text) = Ok sentences ->
  len sentences <= 3 ->
  cleanText text <> EmptyString ->
  1 <= maxWords ->
  let w := JsString.wordCount (cleanText text) in
  let out := summarizeString tokenize text minWords maxWords in
  JsString.wordCount out <= maxWords
  /\ (minWords <= w <= maxWords -> out = cleanText text)
  /\ (maxWords < w -> minWords <= w ->
      out = JsString.join " " (firstn (Z.to_nat maxWords)
                                 (JsString.split_ws (cleanText text))) +:+ "..."
      /\ JsString.wordCount out = maxWords).
Proof.
  intros Hlen Htok Hfew Hne Hmax w out.
  destruct (cleanText_good text Hne) as [Hnn Hgood].
  assert (Hout : out = summarizeFew (cleanText text) minWords maxWords).
  { subst out. rewrite summarizeString_long by exact Hlen. rewrite Htok.
    apply Z.leb_le in Hfew. now rewrite Hfew. }
  unfold summarizeFew in Hout.
  change (len (JsString.split_ws (cleanText text))) with w in Hout.
  assert (Hw : w = len (JsString.split_ws (cleanText text))) by reflexivity.
  repeat split.
  - rewrite Hout.
    destruct ((w <=? maxWords) && (minWords <=? w)) eqn:Ein.
    + apply andb_prop in Ein as [E1 _]. apply Z.leb_le in E1. exact E1.
    + destruct (w <? minWords) eqn:Elt.
      * apply Z.ltb_lt in Elt. rewrite padWords_count by (auto; lia). lia.
      * rewrite truncateWords_count by auto. lia.
  - intros [H1 H2]. rewrite Hout.
    apply Z.leb_le in H1, H2. now rewrite H1, H2.
  - rewrite Hout.
    destruct (w <=? maxWords) eqn:E1; [apply Z.leb_le in E1; lia|]. simpl.
    destruct (w <? minWords) eqn:E2; [apply Z.ltb_lt in E2; lia|].
    unfold truncateWords. rewrite slice_prefix by lia.
    rewrite <- Hw. now rewrite Z.min_l by lia.
  - rewrite Hout.
    destruct (w <=? maxWords) eqn:E1; [apply Z.leb_le in E1; lia|]. simpl.
    destruct (w <? minWords) eqn:E2; [apply Z.ltb_lt in E2; lia|].
    rewrite truncateWords_count by auto. lia.
Qed.

(** X9.  When the tokenizer throws, the catch block answers with at most
    maxWords words of the cleaned text; unless it pads, it appends the
    marker ... even to a text that already fits. *)
Theorem tokenizer_failure_bounded (text : string) (minWords maxWords : Z)
        (e : string) :
  100 <= JsString.length text ->
  tokenize (cleanText text) = Throw e ->
  cleanText text <> EmptyString ->
  1 <= maxWords ->
  let w := JsString.wordCount (cleanText text) in
  let out := summarizeString tokenize text minWords maxWords in
  JsString.wordCount out <= maxWords
  /\ (minWords <= w <= maxWords -> out = cleanText text +:+ "...").
Proof.
  intros Hlen Htok Hne Hmax w out.
  destruct (cleanText_good text Hne) as [Hnn Hgood].
  assert (Hout : out = summarizeFallback (cleanText text) minWords maxWords).
  { subst out. rewrite summarizeString_long by exact Hlen. now rewrite Htok. }
  unfold summarizeFallback in Hout.
  change (len (JsString.split_ws (cleanText text))) with w in Hout.
  assert (Hw : w = len (JsString.split_ws (cleanText text))) by reflexivity.
  split.
  - rewrite Hout. destruct (w <? minWords) eqn:Elt.
    + apply Z.ltb_lt in Elt. rewrite padWords_count by (auto; lia). lia.
    + rewrite truncateWords_count by auto. lia.
  - intros [H1 H2]. rewrite Hout.
    destruct (w <? minWords) eqn:Elt; [apply Z.ltb_lt in Elt; lia|].
    unfold truncateWords. rewrite slice_prefix by lia.
    rewrite <- Hw, Z.min_r by lia. unfold w, JsString.wordCount.
    rewrite Nat2Z.id, firstn_all.
    now rewrite (proj1 (cleanText_split text)).
Qed.

End BoundFacts.

(** ** Sorting and the selection of sentences *)

Section SortFacts.
Context {A : Type} (cmp : A -> A -> Z).

Lemma sort_insert_perm x l : sort_insert cmp x l ≡ₚ x :: l.
Proof.
  induction l as [|y l IH]; simpl; [reflexivity|].
  destruct (cmp x y <=? 0); [reflexivity|].
  rewrite IH. apply Permutation_swap.
Qed.

(** [sort] rearranges, it neither drops nor adds. *)
Lemma sort_perm l : sort cmp l ≡ₚ l.
Proof.
  induction l as [|x l IH]; simpl; [reflexivity|].
  rewrite sort_insert_perm. now rewrite IH.
Qed.

(** Among elements on which the comparator is consistent. *)
Variable among : A -> Prop.
Hypothesis cmp_total : forall x y, among x -> among y -> cmp x y <= 0 \/ cmp y x <= 0.
Hypothesis cmp_trans :
  forall x y z, among x -> among y -> among z ->
                cmp x y <= 0 -> cmp y z <= 0 -> cmp x z <= 0.

Lemma sort_insert_sorted x l :
  among x -> Forall among l ->
  StronglySorted (fun a b => cmp a b <= 0) l ->
  StronglySorted (fun a b => cmp a b <= 0) (sort_insert cmp x l).
Proof.
  intros Hx Hl Hs. induction Hs as [|y l Hs IH Hy]; simpl; [repeat constructor|].
  inversion Hl as [|? ? Hay Hal]; subst.
  destruct (cmp x y <=? 0) eqn:E.
  - apply Z.leb_le in E. constructor; [now constructor|].
    constructor; [exact E|].
    rewrite Forall_forall in Hy, Hal. apply Forall_forall. intros z Hz.
    apply (cmp_trans x y z); auto.
  - apply Z.leb_gt in E. constructor; [now apply IH|].
    rewrite sort_insert_perm. constructor; [|exact Hy].
    destruct (cmp_total x y Hx Hay); lia.
Qed.

(** On such elements the result is ordered. *)
Lemma sort_sorted l :
  Forall among l -> StronglySorted (fun a b => cmp a b <= 0) (sort cmp l).
Proof.
  induction l as [|x l IH]; simpl; [constructor|]. intros Hl.
  inversion Hl as [|? ? Hx Hl']; subst.
  apply sort_insert_sorted; auto.
  rewrite sort_perm. exact Hl'.
Qed.

End SortFacts.

Lemma consistentOn_sorted {A} (cmp : A -> A -> Z) (l : list A) :
  consistentOn cmp l -> StronglySorted (fun a b => cmp a b <= 0) (sort cmp l).
Proof.
  intros [Hsym Htrans].
  apply (sort_sorted cmp (fun a => In a l)).
  - intros x y Hx Hy. pose proof (Hsym x y Hx Hy) as Hs.
    destruct (Z.sgn_spec (cmp x y)) as [[? E1]|[[? E1]|[? E1]]];
      destruct (Z.sgn_spec (cmp y x)) as [[? E2]|[[? E2]|[? E2]]]; lia.
  - intros x y z Hx Hy Hz. now apply Htrans.
  - apply Forall_forall. intros x Hx. now apply list_elem_of_In.
Qed.

Lemma in_slice {A} (a b : Z) (x : A) (xs : list A) : In x (slice a b xs) -> In x xs.
Proof.
  unfold slice. intros Hin.
  apply list_elem_of_In in Hin. apply list_elem_of_In.
  apply (subseteq_drop (Z.to_nat (slice_index (Z.of_nat (List.length xs)) a))).
  eapply subseteq_take. exact Hin.
Qed.

Lemma StronglySorted_weaken {A} (R R' : A -> A -> Prop) (l : list A) :
  (forall a b, R a b -> R' a b) -> StronglySorted R l -> StronglySorted R' l.
Proof.
  intros Himp. induction 1 as [|x l Hl IH Hx]; constructor; auto.
  eapply Forall_impl; [exact Hx|]. simpl. auto.
Qed.

Lemma StronglySorted_map {A B} (f : A -> B) (R : B -> B -> Prop) (l : list A) :
  StronglySorted (fun a b => R (f a) (f b)) l -> StronglySorted R (List.map f l).
Proof.
  induction 1 as [|x l Hl IH Hx]; simpl; constructor; auto.
  apply Forall_forall. intros y Hy. apply list_elem_of_In, in_map_iff in Hy as (z & <- & Hz).
  rewrite Forall_forall in Hx. apply Hx. now apply list_elem_of_In.
Qed.

(** The position comparator is consistent on every array. *)
Lemma byPosition_consistent (sentences : list string) (l : list scored) :
  consistentOn (byPosition sentences) l.
Proof.
  split.
  - intros x y _ _. unfold byPosition.
    set (i := indexOf (sentence x) sentences). set (j := indexOf (sentence y) sentences).
    replace (j - i) with (- (i - j)) by lia. rewrite Z.sgn_opp. lia.
  - intros x y z _ _ _. unfold byPosition. lia.
Qed.

(** ** The frequency table *)

Section FrequencyFacts.

Lemma countWord_same wordFreq word :
  countWord wordFreq word !! word =
  if String.eqb word "__proto__" then wordFreq !! word
  else counted word (wordFreq !! word).
Proof.
  unfold countWord, counted. destruct (String.eqb word "__proto__"); [reflexivity|].
  apply lookup_insert_eq.
Qed.

Lemma countWord_other wordFreq word other :
  word <> other -> countWord wordFreq word !! other = wordFreq !! other.
Proof.
  intros Hne. unfold countWord. destruct (String.eqb word "__proto__"); [reflexivity|].
  now apply lookup_insert_ne.
Qed.

(** Counting a list of words stores under each word, as often as the
    word occurs, what line 237 makes of the entry; nothing under
    __proto__. *)
Lemma fold_countWord (words : list string) :
  forall (wordFreq : gmap string tally) (word : string),
    fold_left countWord words wordFreq !! word =
    if String.eqb word "__proto__" then wordFreq !! word
    else Nat.iter (count_occ String.string_dec words word) (counted word)
                  (wordFreq !! word).
Proof.
  induction words as [|w ws IH]; intros wordFreq word; simpl.
  - now destruct (String.eqb word "__proto__").
  - rewrite IH. destruct (String.eqb word "__proto__") eqn:Ep.
    + destruct (String.string_dec w word) as [->|Hne].
      * now rewrite countWord_same, Ep.
      * now rewrite countWord_other.
    + destruct (String.string_dec w word) as [->|Hne].
      * rewrite countWord_same, Ep. now rewrite Nat.iter_succ_r.
      * now rewrite countWord_other.
Qed.

Lemma fold_sentences (sentences : list string) (wordFreq : gmap string tally) :
  fold_left (fun wf sentence => fold_left countWord (contentWords sentence) wf)
            sentences wordFreq
  = fold_left countWord (flat_map contentWords sentences) wordFreq.
Proof.
  revert wordFreq. induction sentences as [|s rest IH]; intros wordFreq; simpl;
    [reflexivity|].
  rewrite fold_left_app. apply IH.
Qed.

Lemma contentWords_spec (sentence word : string) :
  In word (contentWords sentence) ->
  1 < JsString.length word /\ is_stopword word = false.
Proof.
  unfold contentWords. intros Hin. apply filter_In in Hin as [_ Hw].
  apply andb_prop in Hw as [Hl Hs]. apply Z.ltb_lt in Hl.
  apply negb_true_iff in Hs. auto.
Qed.

Lemma counted_plain (word : string) (k : nat) :
  String.eqb word "constructor" = false ->
  Nat.iter (S k) (counted word) None = Some (Count (Z.of_nat (S k))).
Proof.
  intros Hc. induction k as [|k IH].
  - simpl. unfold counted. now rewrite Hc.
  - rewrite Nat.iter_succ, IH. unfold counted. f_equal. f_equal. lia.
Qed.

Lemma counted_constructor (k : nat) :
  Nat.iter (S k) (counted "constructor") None = Some (ObjectText (S k)).
Proof.
  induction k as [|k IH]; [reflexivity|].
  rewrite Nat.iter_succ, IH. reflexivity.
Qed.

(** The table as a function of the occurrences. *)
Lemma wordFrequencies_lookup (sentences : list string) (word : string) :
  wordFrequencies sentences !! word =
  match count_occ String.string_dec (flat_map contentWords sentences) word with
  | O => None
  | S k =>
      if String.eqb word "__proto__" then None
      else if String.eqb word "constructor" then Some (ObjectText (S k))
           else Some (Count (Z.of_nat (S k)))
  end.
Proof.
  unfold wordFrequencies. rewrite fold_sentences, fold_countWord, lookup_empty.
  destruct (count_occ String.string_dec (flat_map contentWords sentences) word)
    as [|k]; [now destruct (String.eqb word "__proto__")|].
  destruct (String.eqb word "__proto__"); [reflexivity|].
  destruct (String.eqb word "constructor") eqn:Ec.
  - apply String.eqb_eq in Ec. subst word. apply counted_constructor.
  - now apply counted_plain.
Qed.

(** X10.  For a word other than constructor and __proto__ the table holds
    the number of times the word occurs among the content words of all
    sentences, and nothing when it does not occur; stopwords and
    one-letter tokens are never counted.  Under constructor the table
    holds a text, not a count: the source of the function Object followed
    by one digit 1 for each occurrence.  Under __proto__ it holds
    nothing of its own. *)
Theorem wordFrequencies_counts (sentences : list string) (word : string) :
  let n := occurrences word (flat_map contentWords sentences) in
  (inheritedName word = false ->
   wordFrequencies sentences !! word = (if n =? 0 then None else Some (Count n)))
  /\ (is_stopword word = true \/ JsString.length word <= 1 ->
      wordFrequencies sentences !! word = None)
  /\ (word = "constructor"%string ->
      wordFrequencies sentences !! word
      = (if n =? 0 then None else Some (ObjectText (Z.to_nat n))))
  /\ wordFrequencies sentences !! "__proto__"%string = None.
Proof.
  intros n. unfold n, occurrences.
  split; [|split; [|split]].
  - intros Hin. apply orb_false_iff in Hin as [Hc Hp].
    rewrite wordFrequencies_lookup.
    destruct (count_occ String.string_dec (flat_map contentWords sentences) word)
      as [|k]; [reflexivity|].
    rewrite Hp, Hc.
    replace (Z.of_nat (S k) =? 0) with false by (symmetry; apply Z.eqb_neq; lia).
    reflexivity.
  - intros Hskip. rewrite wordFrequencies_lookup.
    destruct (count_occ String.string_dec (flat_map contentWords sentences) word)
      as [|k] eqn:Ek; [reflexivity|].
    assert (Hin : In word (flat_map contentWords sentences)).
    { apply (count_occ_In String.string_dec). lia. }
    apply in_flat_map in Hin as (s & _ & Hs).
    apply contentWords_spec in Hs as [Hl Hsw].
    destruct Hskip as [Hst|Hle]; [congruence|lia].
  - intros ->. rewrite wordFrequencies_lookup.
    destruct (count_occ String.string_dec (flat_map contentWords sentences)
                        "constructor") as [|k]; [reflexivity|].
    replace (Z.of_nat (S k) =? 0) with false by (symmetry; apply Z.eqb_neq; lia).
    now rewrite Nat2Z.id.
  - rewrite wordFrequencies_lookup.
    now destruct (count_occ String.string_dec (flat_map contentWords sentences)
                            "__proto__").
Qed.

(** ** Scores that are not numbers *)

Lemma sumFrequencies_text wordFreq words : sumFrequencies wordFreq words None = None.
Proof.
  induction words as [|w ws IH]; [reflexivity|].
  unfold sumFrequencies in *. simpl.
  destruct (negb (is_stopword w)); [|exact IH].
  assert (Hadd : addFrequency wordFreq None w = None).
  { unfold addFrequency. destruct (String.eqb w "__proto__"); [reflexivity|].
    destruct (wordFreq !! w) as [[f|ones]|]; [destruct (f =? 0)| |]; try reflexivity.
    now destruct (String.eqb w "constructor"). }
  rewrite Hadd. exact IH.
Qed.

(** Over the table of line 231 the sum is a number exactly when none of
    the words is constructor or __proto__. *)
Lemma sumFrequencies_number (sentences words : list string) (n : Z) :
  (sumFrequencies (wordFrequencies sentences) words (Some n) = None)
  <-> Exists (fun word => inheritedName word = true) words.
Proof.
  revert n. induction words as [|w ws IH]; intros n.
  - simpl. split; [discriminate|]. intros Hex. inversion Hex.
  - unfold sumFrequencies in *. simpl. rewrite Exists_cons.
    destruct (inheritedName w) eqn:Hw.
    + split; [now left|]. intros _.
      assert (Hns : is_stopword w = false).
      { apply orb_true_iff in Hw as [Hw|Hw]; apply String.eqb_eq in Hw; now subst w. }
      rewrite Hns. simpl.
      assert (Hadd : addFrequency (wordFrequencies sentences) (Some n) w = None).
      { unfold addFrequency. rewrite wordFrequencies_lookup.
        apply orb_true_iff in Hw as [Hw|Hw]; apply String.eqb_eq in Hw; subst w;
          simpl; [|reflexivity].
        now destruct (count_occ String.string_dec (flat_map contentWords sentences)
                                "constructor"). }
      rewrite Hadd. apply sumFrequencies_text.
    + apply orb_false_iff in Hw as [Hc Hp].
      assert (Hadd : exists m, (if negb (is_stopword w)
                                then addFrequency (wordFrequencies sentences) (Some n) w
                                else Some n) = Some m).
      { destruct (negb (is_stopword w)); [|eauto].
        unfold addFrequency. rewrite wordFrequencies_lookup, Hp.
        destruct (count_occ String.string_dec (flat_map contentWords sentences) w)
          as [|k]; rewrite ?Hc; [eauto|].
        destruct (Z.of_nat (S k) =? 0); eauto. }
      destruct Hadd as [m ->]. rewrite IH.
      split; [now right|]. intros [Hf|Hex]; [discriminate|exact Hex].
Qed.

Lemma scoreSentence_score wordFreq sentence :
  score (scoreSentence wordFreq sentence)
  = if 0 <? len (scoredWords sentence)
    then (fun n => Qmake n (Z.to_pos (len (scoredWords sentence))))
           <$> sumFrequencies wordFreq (scoredWords sentence) (Some 0)
    else Some (Qmake 0 1).
Proof. reflexivity. Qed.

(** A sentence scores NaN exactly when one of its tokens is constructor
    or __proto__. *)
Lemma scoreSentence_NaN (sentences : list string) (sentence : string) :
  score (scoreSentence (wordFrequencies sentences) sentence) = None
  <-> Exists (fun word => inheritedName word = true) (scoredWords sentence).
Proof.
  rewrite scoreSentence_score.
  destruct (0 <? len (scoredWords sentence)) eqn:El.
  - rewrite <- (sumFrequencies_number sentences _ 0).
    destruct (sumFrequencies _ _ _); simpl; split; congruence.
  - split; [discriminate|]. intros Hex. apply Z.ltb_ge in El. unfold len in El.
    destruct (scoredWords sentence); [inversion Hex|simpl in El; lia].
Qed.

(** X20.  A sentence scores NaN exactly when one of its lower-cased tokens
    of more than one character is constructor or __proto__: the table
    answers for these two names with a text or an object, and the sum of
    line 248 becomes a text. *)
Theorem inherited_name_scores_NaN (sentences : list string) (sentence : string) :
  score (scoreSentence (wordFrequencies sentences) sentence) = None
  <-> Exists (fun word => inheritedName word = true) (scoredWords sentence).
Proof. apply scoreSentence_NaN. Qed.

End FrequencyFacts.

(** ** Sorting and the selection of sentences *)

(** On scores that are numbers the score comparator compares them. *)
Lemma byScore_le (a b : scored) (x y : Q) :
  score a = Some x -> score b = Some y ->
  (byScore a b <= 0 <-> (y <= x)%Q) /\ Z.sgn (byScore a b) = - Z.sgn (byScore b a).
Proof.
  intros Ha Hb. unfold byScore. rewrite Ha, Hb.
  unfold Qle, Qminus, Qplus, Qopp. simpl.
  destruct x as [na da], y as [nb db]. simpl.
  destruct (Z.sgn_spec (nb * Z.pos da + - na * Z.pos db)) as [[? E1]|[[? E1]|[? E1]]];
    destruct (Z.sgn_spec (na * Z.pos db + - nb * Z.pos da)) as [[? E2]|[[? E2]|[? E2]]];
    rewrite E1, E2; simpl; split; try split; lia.
Qed.

(** Without NaN among the scores the score comparator is consistent. *)
Lemma byScore_consistent (l : list scored) :
  Forall (fun a => score a <> None) l -> consistentOn byScore l.
Proof.
  intros Hall. rewrite Forall_forall in Hall.
  assert (Hnum : forall a, In a l -> exists x, score a = Some x).
  { intros a Ha. apply list_elem_of_In, Hall in Ha.
    destruct (score a); [eauto|congruence]. }
  split.
  - intros x y Hx Hy. destruct (Hnum x Hx) as [p Hp], (Hnum y Hy) as [q Hq].
    exact (proj2 (byScore_le x y p q Hp Hq)).
  - intros x y z Hx Hy Hz.
    destruct (Hnum x Hx) as [p Hp], (Hnum y Hy) as [q Hq], (Hnum z Hz) as [r Hr].
    rewrite (proj1 (byScore_le x y p q Hp Hq)), (proj1 (byScore_le y z q r Hq Hr)),
            (proj1 (byScore_le x z p r Hp Hr)).
    intros H1 H2. eapply Qle_trans; eauto.
Qed.

Section SelectionFacts.
Context `{Runtime}.
Variable sentences : list string.

Lemma rankedSentences_perm : rankedSentences sentences ≡ₚ scoredSentences sentences.
Proof. apply arraySort_permutation. Qed.

Lemma scoredSentences_numbers :
  Forall (fun s => Forall (fun word => inheritedName word = false) (scoredWords s))
         sentences ->
  Forall (fun a => score a <> None) (scoredSentences sentences).
Proof.
  intros Hall. unfold scoredSentences. apply Forall_map.
  eapply Forall_impl; [exact Hall|]. simpl. intros s Hs Hnan.
  apply scoreSentence_NaN, Exists_exists in Hnan as (w & Hw & Hi).
  rewrite Forall_forall in Hs. specialize (Hs w Hw). congruence.
Qed.



Lemma in_ranked (x : scored) :
  In x (rankedSentences sentences) ->
  In (sentence x) sentences /\ wordCount x = JsString.wordCount (sentence x).
Proof.
  intros Hin. apply list_elem_of_In in Hin. rewrite rankedSentences_perm in Hin.
  apply list_elem_of_In, in_map_iff in Hin as (s & <- & Hs). simpl. auto.
Qed.

(** X12.  The selection is extractive: at most five sentences, each one a
    sentence of the input, in the order of their (first) position in the
    input; exactly five when the input has five or more. *)
Theorem topSentences_selection :
  (forall s, In s (topSentencesOf sentences) -> In s sentences)
  /\ len (topSentencesOf sentences) = Z.min 5 (len sentences)
  /\ StronglySorted (fun s t => indexOf s sentences <= indexOf t sentences)
                    (topSentencesOf sentences).
Proof.
  unfold topSentencesOf. repeat split.
  - intros s Hs. apply in_map_iff in Hs as (x & <- & Hx).
    apply list_elem_of_In in Hx. rewrite arraySort_permutation in Hx.
    apply list_elem_of_In, in_slice in Hx. now apply in_ranked.
  - unfold len. rewrite length_map, (Permutation_length (arraySort_permutation _ _ _)).
    fold (len (slice 0 5 (rankedSentences sentences))).
    rewrite slice_prefix_length by lia. unfold len.
    rewrite (Permutation_length rankedSentences_perm).
    unfold scoredSentences. now rewrite length_map.
  - apply StronglySorted_map.
    apply (StronglySorted_weaken (fun a b => byPosition sentences a b <= 0)).
    + unfold byPosition. intros a b. lia.
    + rewrite arraySort_stable by apply byPosition_consistent.
      apply consistentOn_sorted, byPosition_consistent.
Qed.

End SelectionFacts.

Section ManyFacts.
Context `{Runtime}.
Variable tokenize : string -> result (list string).

(** X13.  With more than three sentences, when the selected sentences joined
    by spaces already lie within the bounds, the summary is exactly that
    join, trimmed: nothing is cut, padded or appended. *)
Theorem selection_within_bounds (text : string) (minWords maxWords : Z)
        (sentences : list string) :
  100 <= JsString.length text ->
  tokenize (cleanText text) = Ok sentences ->
  3 < len sentences ->
  let joined := JsString.join " " (topSentencesOf sentences) in
  JsString.wordCount joined <= maxWords ->
  minWords <= JsString.wordCount (JsString.trim joined) ->
  summarizeString tokenize text minWords maxWords = JsString.trim joined.
Proof.
  intros Hlen Htok Hmany joined Hmax Hmin.
  rewrite (summarizeString_long tokenize) by exact Hlen. rewrite Htok.
  destruct (len sentences <=? 3) eqn:E; [apply Z.leb_le in E; lia|].
  unfold summarizeMany.
  change (JsString.join " "
            (List.map sentence
               (arraySort (byPosition sentences)
                  (slice 0 5
                     (arraySort byScore
                        (List.map (scoreSentence (wordFrequencies sentences))
                                  sentences))))))
    with joined.
  change (len (JsString.split_ws joined)) with (JsString.wordCount joined).
  destruct (maxWords <? JsString.wordCount joined) eqn:E1;
    [apply Z.ltb_lt in E1; lia|].
  change (len (JsString.split_ws (JsString.trim joined)))
    with (JsString.wordCount (JsString.trim joined)).
  destruct (JsString.wordCount (JsString.trim joined) <? minWords) eqn:E2;
    [apply Z.ltb_lt in E2; lia|].
  reflexivity.
Qed.

End ManyFacts.

(** ** The engine's sort *)

Section EngineFacts.
Variable tokenize : string -> result (list string).

Lemma arraySort_numbers (R : Runtime) (l : list scored) :
  Forall (fun a => score a <> None) l -> arraySort byScore l = sort byScore l.
Proof. intros Hnum. apply arraySort_stable. now apply byScore_consistent. Qed.

Lemma arraySort_position (R : Runtime) (sentences : list string) (l : list scored) :
  arraySort (byPosition sentences) l = sort (byPosition sentences) l.
Proof. apply arraySort_stable, byPosition_consistent. Qed.

(** Without NaN among the scores every engine computes what the stable
    sort computes. *)
Lemma summarizeMany_sorted (R : Runtime) (sentences : list string)
      (minWords maxWords : Z) :
  Forall (fun s => Forall (fun word => inheritedName word = false) (scoredWords s))
         sentences ->
  @summarizeMany R sentences minWords maxWords
  = @summarizeMany Runtimes.legacy sentences minWords maxWords.
Proof.
  intros Hord. pose proof (scoredSentences_numbers sentences Hord) as Hnum.
  unfold scoredSentences in Hnum.
  unfold summarizeMany. cbv zeta.
  set (l := List.map (scoreSentence (wordFrequencies sentences)) sentences) in *.
  rewrite !(arraySort_position R).
  rewrite (arraySort_numbers R l) by exact Hnum.
  rewrite (arraySort_numbers R (sort byScore l)) by (rewrite sort_perm; exact Hnum).
  reflexivity.
Qed.

(** X24.  The summary does not depend on how the engine sorts, as long as
    no sentence of the text holds the token constructor or __proto__: all
    scores are then numbers, both comparators are consistent, and the
    language fixes the result of both sorts. *)
Theorem summary_engine_independent (R1 R2 : Runtime) (text : string)
        (minWords maxWords : Z) :
  (forall sentences,
      tokenize (cleanText text) = Ok sentences ->
      Forall (fun s => Forall (fun word => inheritedName word = false) (scoredWords s))
             sentences) ->
  @summarizeString R1 tokenize text minWords maxWords
  = @summarizeString R2 tokenize text minWords maxWords.
Proof.
  intros Hord. unfold summarizeString.
  destruct (String.eqb text EmptyString || (JsString.length text <? 100));
    [reflexivity|].
  change (JsString.trim (JsString.collapse_ws false text)) with (cleanText text).
  destruct (tokenize (cleanText text)) as [sentences|e] eqn:Et; [|reflexivity].
  destruct (len sentences <=? 3); [reflexivity|].
  rewrite (summarizeMany_sorted R1), (summarizeMany_sorted R2); auto.
Qed.

End EngineFacts.

(** ** More on the Feed Normalizer *)

Section NormalizerMore.
Context `{Runtime}.

Lemma or_truthy a b : Js.truthy b = true -> Js.truthy (Js.or a b) = true.
Proof. unfold Js.or. destruct (Js.truthy a) eqn:E; auto. Qed.

Lemma resolveGuid_truthy url item g :
  resolveGuid url item = Ok g -> Js.truthy g = true.
Proof.
  unfold resolveGuid.
  destruct (Js.prop item "guid") as [g0|] eqn:E0; simpl; [|discriminate].
  assert (Hitem : forall k, exists v, Js.prop item k = Ok v).
  { destruct item; simpl in E0; try discriminate; simpl; eauto. }
  assert (Hlast : forall g1 : jsval,
             (if negb (Js.truthy g1)
              then
                id ← Js.prop item "id";
                if Js.truthy id then mret id
                else
                  lnk ← Js.prop item "link";
                  if Js.truthy lnk then mret lnk
                  else
                    ttl ← Js.prop item "title";
                    t ← Js.toString ttl;
                    pd ← Js.prop item "pubDate";
                    p ← Js.toString pd;
                    mret (JStr (url +:+ "-" +:+ t +:+ "-" +:+ p))
              else mret g1) = Ok g -> Js.truthy g = true).
  { intros g1. destruct (Js.truthy g1) eqn:E1; simpl.
    - intros [= <-]. exact E1.
    - destruct (Hitem "id") as [v1 ->], (Hitem "link") as [v2 ->],
               (Hitem "title") as [v3 ->], (Hitem "pubDate") as [v4 ->]. simpl.
      destruct (Js.truthy v1) eqn:T1; [intros [= <-]; exact T1|].
      destruct (Js.truthy v2) eqn:T2; [intros [= <-]; exact T2|].
      destruct (Js.toString v3) as [t|]; simpl; [|discriminate].
      destruct (Js.toString v4) as [p|]; simpl; [|discriminate].
      intros [= <-]. simpl.
      apply negb_true_iff, String.eqb_neq, synthetic_key_nonempty. }
  destruct (Js.truthy g0 && Js.is_object g0); simpl.
  - destruct (Js.prop g0 "_") as [inner|]; simpl; [|discriminate]. apply Hlast.
  - apply Hlast.
Qed.

Lemma normalizeItem_fields (url : string) (srcName item : jsval)
      (c : CanonicalItem) :
  normalizeItem url srcName item = Ok c ->
  Js.truthy (guid c) = true /\ Js.truthy (title c) = true
  /\ Js.truthy (description c) = true /\ Js.truthy (pubDate c) = true
  /\ source c = url /\ sourceName c = srcName.
Proof.
  unfold normalizeItem.
  destruct (resolveImage item) as [img|]; simpl; [|discriminate].
  destruct (resolveGuid url item) as [g|] eqn:Eg; simpl; [|discriminate].
  destruct (resolveLink item) as [l|]; simpl; [|discriminate].
  destruct (Js.prop item "title"); simpl; [|discriminate].
  destruct (Js.prop item "description"); simpl; [|discriminate].
  destruct (Js.prop item "summary"); simpl; [|discriminate].
  destruct (Js.prop item "pubDate"); simpl; [|discriminate].
  destruct (Js.prop item "published"); simpl; [|discriminate].
  destruct (Js.prop item "updated"); simpl; [|discriminate].
  intros [= <-]. simpl. repeat split.
  - eapply resolveGuid_truthy; eauto.
  - now apply or_truthy.
  - now apply or_truthy, or_truthy.
  - now apply or_truthy, or_truthy, or_truthy.
Qed.

(** X1.  Whatever the item, a canonical item that comes out of the
    normalizer has a truthy guid, title, description and pubDate (absent
    or empty fields are replaced), and carries the URL and the display
    name of its source. *)
Theorem normalized_fields_present (url : string) (srcName item : jsval)
        (c : CanonicalItem) :
  normalizeItem url srcName item = Ok c ->
  Js.truthy (guid c) = true /\ Js.truthy (title c) = true
  /\ Js.truthy (description c) = true /\ Js.truthy (pubDate c) = true
  /\ source c = url /\ sourceName c = srcName.
Proof. apply normalizeItem_fields. Qed.

(** X22.  For an object item whose image cascade does not throw, whose
    guid is absent, plain text, or a wrapper object carrying a non-empty
    text, whose id and link are absent or plain text (all three may be
    missing), and whose title and pubDate can be converted to strings,
    the identifier is a non-empty string: the first non-empty one of the
    unwrapped guid, the id and the link, else the key made of source URL,
    title and pubDate. *)
Theorem normalized_guid (url : string) (srcName : jsval) (fields : jsobj)
        (img : jsval) (t p : string) :
  resolveImage (JObj fields) = Ok img ->
  textualGuid (Js.lookup "guid" fields) = true ->
  plainField (Js.lookup "id" fields) = true ->
  plainField (Js.lookup "link" fields) = true ->
  Js.toString (Js.lookup "title" fields) = Ok t ->
  Js.toString (Js.lookup "pubDate" fields) = Ok p ->
  exists c s,
    normalizeItem url srcName (JObj fields) = Ok c
    /\ guid c = JStr s /\ s <> EmptyString
    /\ guid c =
       firstTruthy [unwrapped (Js.lookup "guid" fields);
                    Js.lookup "id" fields; Js.lookup "link" fields]
         (JStr (url +:+ "-" +:+ t +:+ "-" +:+ p)).
Proof.
  intros Himg Hg Hid Hlink Ht Hp.
  assert (Hnn : Js.lookup "link" fields <> JNull).
  { intros E. rewrite E in Hlink. discriminate. }
  pose proof (resolveGuid_textual url fields t p Hg Ht Hp) as Hres.
  destruct (normalizeItem_object url srcName fields img _ Himg Hres Hnn)
    as (l & _ & Hc).
  assert (Hplain : Forall (fun v => plainField v = true)
                     [unwrapped (Js.lookup "guid" fields);
                      Js.lookup "id" fields; Js.lookup "link" fields]).
  { repeat constructor; auto.
    destruct (Js.lookup "guid" fields) as [| |?|o|?|?]; simpl in *;
      try discriminate; auto.
    destruct (Js.lookup "_" o); simpl in *; try discriminate; auto. }
  destruct (firstTruthy_text _ _ Hplain (synthetic_key_nonempty url t p))
    as (s & Hs & Hne).
  eexists. exists s. split; [exact Hc|]. simpl. auto.
Qed.

(** X23.  An item that is bare text has no element to read, but as a
    string it inherits [link] from [String.prototype]: that function
    becomes both its identifier and its link.  The item therefore counts
    as resolvable, no request can name it, and on the wire its record has
    no guid. *)
Theorem text_only_item (url : string) (srcName : jsval) (s : string) :
  let c := {| guid := JFun "link"; title := JStr "No Title";
              description := JStr "No Description"; link := JFun "link";
              pubDate := JStr "No Date"; imageUrl := JNull;
              source := url; sourceName := srcName |} in
  normalizeItem url srcName (JStr s) = Ok c
  /\ resolvable c = true
  /\ (forall requested, Js.is_str requested (guid c) = false)
  /\ (forall summary,
        ~ In "guid"%string (List.map fst (Json.object (processedItem c summary)))).
Proof.
  intros c. split; [reflexivity|]. split; [reflexivity|]. split; [reflexivity|].
  intros summary Hin. rewrite json_object_keys in Hin.
  apply in_map_iff in Hin as ([k v] & Hk & Hin).
  apply filter_In in Hin as [Hin Hv]. simpl in Hk, Hv. subst k.
  unfold processedItem in Hin. simpl in Hin.
  repeat (destruct Hin as [Hin|Hin]; [inversion Hin; subst; discriminate|]).
  try destruct Hin.
Qed.

Lemma mapR_Forall2 {A B} (f : A -> result B) (xs : list A) (ys : list B) :
  mapR f xs = Ok ys -> Forall2 (fun x y => f x = Ok y) xs ys.
Proof.
  revert ys. induction xs as [|x xs IH]; intros ys; simpl.
  - intros [= <-]. constructor.
  - destruct (f x) as [y|] eqn:Ey; simpl; [|discriminate].
    destruct (mapR f xs) as [ys'|]; simpl; [|discriminate].
    intros [= <-]. constructor; auto.
Qed.

Variable fetchFeed : string -> result jsval.
Variable hostname : string -> result string.

(** X2.  A source contributes all or nothing: [fetchRSSFeed] answers either
    with the empty sequence or with one canonical item for every item of
    the document, in document order, each tagged with the URL and with the
    same source name. *)
Theorem feed_all_or_nothing (url : string) :
  fetchRSSFeed fetchFeed hostname url = []
  \/ exists parsed channel items srcName,
      fetchFeed url = Ok parsed
      /\ feedChannel parsed = Ok channel
      /\ feedItems channel = Ok items
      /\ feedSourceName hostname url channel = Ok srcName
      /\ List.length (fetchRSSFeed fetchFeed hostname url) = List.length items
      /\ Forall2 (fun item c => normalizeItem url srcName item = Ok c
                                /\ source c = url /\ sourceName c = srcName)
                 items (fetchRSSFeed fetchFeed hostname url).
Proof.
  unfold fetchRSSFeed, fetchRSSFeed_try.
  destruct (fetchFeed url) as [parsed|] eqn:Ef; simpl; [|now left].
  destruct (feedChannel parsed) as [channel|] eqn:Ec; simpl; [|now left].
  destruct (feedItems channel) as [items|] eqn:Ei; simpl; [|now left].
  destruct (feedSourceName hostname url channel) as [srcName|] eqn:Es; simpl;
    [|now left].
  destruct (mapR (normalizeItem url srcName) items) as [cs|] eqn:Em; [|now left].
  right. exists parsed, channel, items, srcName.
  apply mapR_Forall2 in Em.
  repeat split; auto.
  - symmetry. eapply Forall2_length; eauto.
  - eapply Forall2_impl; [exact Em|]. simpl. intros item c Hc.
    destruct (normalizeItem_fields _ _ _ _ Hc) as (_ & _ & _ & _ & Hs & Hn).
    auto.
Qed.

(** X3.  The image cascade is ordered: an enclosure of an image type gives
    the image whatever else the item carries; without such an enclosure a
    media:content of an image type does. *)
Theorem image_cascade_order (fields el attrs : jsobj) (ty : string) :
  Js.lookup "$" el = JObj attrs ->
  Js.lookup "type" attrs = JStr ty ->
  JsString.startsWith "image/" ty = true ->
  (Js.lookup "enclosure" fields = JObj el ->
   resolveImage (JObj fields) = Ok (Js.lookup "url" attrs))
  /\ (is_image (Js.lookup "enclosure" fields) = Ok false ->
      Js.lookup "media:content" fields = JObj el ->
      resolveImage (JObj fields) = Ok (Js.lookup "url" attrs)).
Proof.
  intros Hattrs Hty Himg.
  assert (Hel : is_image (JObj el) = Ok true).
  { unfold is_image. simpl. rewrite Hattrs. simpl. rewrite Hty. simpl.
    now rewrite Himg. }
  assert (Hurl : attr_url (JObj el) = Ok (Js.lookup "url" attrs)).
  { unfold attr_url. simpl. rewrite Hattrs. reflexivity. }
  split.
  - intros He. unfold resolveImage. simpl. rewrite He, Hel. simpl. exact Hurl.
  - intros Hno Hm. unfold resolveImage. simpl. rewrite Hno. simpl.
    rewrite Hm, Hel. simpl. exact Hurl.
Qed.

End NormalizerMore.

(** ** The image regular expression *)

Section RegexFacts.

Lemma append_assoc (a b c : string) : (a +:+ b) +:+ c = a +:+ b +:+ c.
Proof.
  induction a as [|x a IH]; [reflexivity|].
  change (String x ((a +:+ b) +:+ c) = String x (a +:+ b +:+ c)). now rewrite IH.
Qed.

Lemma prefix_refl_app (a b : string) : String.prefix a (a +:+ b) = true.
Proof.
  induction a as [|c a IH]; simpl; [now destruct b|].
  destruct (ascii_dec c c); [exact IH|congruence].
Qed.

(** A prefix is followed by the rest. *)
Lemma prefix_split (a s : string) :
  String.prefix a s = true -> s = a +:+ ImgRegex.drop (String.length a) s.
Proof.
  revert s. induction a as [|c a IH]; intros s; [reflexivity|].
  destruct s as [|d s]; simpl; [discriminate|].
  destruct (ascii_dec c d) as [->|]; [|discriminate].
  intros Hp. change (String d s = String d (a +:+ ImgRegex.drop (String.length a) s)).
  now rewrite <- IH.
Qed.

Lemma drop_app (a b : string) : ImgRegex.drop (String.length a) (a +:+ b) = b.
Proof. induction a as [|c a IH]; [now destruct b|exact IH]. Qed.

(** The group is not empty, holds no quote and no >, and is followed by a
    quote. *)
Lemma group_sound (s u : string) :
  ImgRegex.group s = Some u ->
  u <> EmptyString /\ plainValue u = true
  /\ exists post, s = u +:+ String ImgRegex.dquote post.
Proof.
  revert u. induction s as [|c s IH]; intros u; simpl; [discriminate|].
  destruct (Ascii.eqb c ImgRegex.dquote || Ascii.eqb c ImgRegex.gt) eqn:Ec;
    [discriminate|].
  destruct s as [|d s']; [discriminate|].
  destruct (Ascii.eqb d ImgRegex.dquote) eqn:Ed.
  - intros [= <-]. apply Ascii.eqb_eq in Ed. subst d.
    repeat split; [discriminate|unfold plainValue; simpl; now rewrite Ec|].
    exists s'. reflexivity.
  - destruct (ImgRegex.group (String d s')) as [r|] eqn:Er; simpl; [|discriminate].
    intros [= <-]. destruct (IH r eq_refl) as (Hne & Hplain & post & Hpost).
    repeat split; [discriminate| |].
    + unfold plainValue in *. simpl. now rewrite Ec.
    + exists post. rewrite Hpost. reflexivity.
Qed.

Lemma group_complete (u post : string) :
  u <> EmptyString -> plainValue u = true ->
  ImgRegex.group (u +:+ String ImgRegex.dquote post) = Some u.
Proof.
  induction u as [|c u IH]; [congruence|]. intros _ Hplain.
  unfold plainValue in Hplain. simpl in Hplain.
  apply andb_prop in Hplain as [Hc Hu]. apply negb_true_iff in Hc.
  change (String c u +:+ String ImgRegex.dquote post)
    with (String c (u +:+ String ImgRegex.dquote post)).
  cbn [ImgRegex.group]. rewrite Hc.
  destruct u as [|d u'].
  - reflexivity.
  - change (String d u' +:+ String ImgRegex.dquote post)
      with (String d (u' +:+ String ImgRegex.dquote post)) in *.
    assert (Hd : Ascii.eqb d ImgRegex.dquote = false).
    { simpl in Hu. apply andb_prop in Hu as [Hd _]. apply negb_true_iff in Hd.
      now apply orb_false_iff in Hd as [Hd _]. }
    cbv iota. rewrite Hd. rewrite IH; [reflexivity|discriminate|exact Hu].
Qed.

Lemma src_here_sound s u :
  ImgRegex.src_here s = Some u ->
  u <> EmptyString /\ plainValue u = true
  /\ exists post, s = attribute u +:+ post.
Proof.
  unfold ImgRegex.src_here.
  destruct (JsString.startsWith ImgRegex.src_eq s) eqn:Ep; [|discriminate].
  intros Hg. destruct (group_sound _ _ Hg) as (Hne & Hplain & post & Hpost).
  repeat split; auto. exists post.
  rewrite (prefix_split _ _ Ep). change (String.length ImgRegex.src_eq) with 5%nat.
  rewrite Hpost. unfold attribute. now rewrite !append_assoc.
Qed.

Lemma src_here_complete (u post : string) :
  u <> EmptyString -> plainValue u = true ->
  ImgRegex.src_here (attribute u +:+ post) = Some u.
Proof.
  intros Hne Hplain. unfold ImgRegex.src_here, attribute, JsString.startsWith.
  rewrite !append_assoc, prefix_refl_app.
  change 5%nat with (String.length ImgRegex.src_eq). rewrite drop_app.
  now apply group_complete.
Qed.

Lemma greedy_sound s u :
  ImgRegex.greedy s = Some u ->
  u <> EmptyString /\ plainValue u = true
  /\ exists mid post, s = mid +:+ attribute u +:+ post /\ insideTag mid = true.
Proof.
  revert u. induction s as [|c s IH]; intros u; [discriminate|].
  cbn [ImgRegex.greedy].
  destruct (if Ascii.eqb c ImgRegex.gt then None else ImgRegex.greedy s) as [r|] eqn:Er.
  - intros [= <-]. destruct (Ascii.eqb c ImgRegex.gt) eqn:Ec; [discriminate|].
    destruct (IH r Er) as (Hne & Hplain & mid & post & Hs & Hmid).
    repeat split; auto. exists (String c mid), post. split.
    + rewrite Hs. reflexivity.
    + unfold insideTag in *. simpl. now rewrite Ec.
  - intros Hh. destruct (src_here_sound _ _ Hh) as (Hne & Hplain & post & Hs).
    repeat split; auto. exists EmptyString, post. split; [exact Hs|reflexivity].
Qed.

Lemma greedy_complete (mid u post : string) :
  insideTag mid = true -> u <> EmptyString -> plainValue u = true ->
  exists r, ImgRegex.greedy (mid +:+ attribute u +:+ post) = Some r.
Proof.
  intros Hmid Hne Hplain. induction mid as [|c mid IH].
  - change (EmptyString +:+ attribute u +:+ post) with (attribute u +:+ post).
    pose proof (src_here_complete u post Hne Hplain) as Hh.
    destruct (attribute u +:+ post) as [|c rest] eqn:Es; [discriminate|].
    cbn [ImgRegex.greedy].
    destruct (if Ascii.eqb c ImgRegex.gt then None else ImgRegex.greedy rest);
      eauto.
  - unfold insideTag in Hmid. simpl in Hmid. apply andb_prop in Hmid as [Hc Hmid].
    apply negb_true_iff in Hc. destruct (IH Hmid) as [r Hr].
    change (String c mid +:+ attribute u +:+ post)
      with (String c (mid +:+ attribute u +:+ post)).
    cbn [ImgRegex.greedy]. rewrite Hc, Hr. eauto.
Qed.

Lemma after_img_sound s u :
  ImgRegex.after_img s = Some u ->
  u <> EmptyString /\ plainValue u = true
  /\ exists mid post, s = mid +:+ attribute u +:+ post
                      /\ mid <> EmptyString /\ insideTag mid = true.
Proof.
  destruct s as [|c s]; simpl; [discriminate|].
  destruct (Ascii.eqb c ImgRegex.gt) eqn:Ec; [discriminate|].
  intros Hg. destruct (greedy_sound _ _ Hg) as (Hne & Hplain & mid & post & Hs & Hmid).
  repeat split; auto. exists (String c mid), post. repeat split.
  - rewrite Hs. reflexivity.
  - discriminate.
  - unfold insideTag in *. simpl. now rewrite Ec.
Qed.

Lemma after_img_complete (mid u post : string) :
  mid <> EmptyString -> insideTag mid = true ->
  u <> EmptyString -> plainValue u = true ->
  exists r, ImgRegex.after_img (mid +:+ attribute u +:+ post) = Some r.
Proof.
  intros Hnn Hmid Hne Hplain. destruct mid as [|c mid]; [congruence|].
  unfold insideTag in Hmid. simpl in Hmid. apply andb_prop in Hmid as [Hc Hmid].
  apply negb_true_iff in Hc.
  change (String c mid +:+ attribute u +:+ post)
    with (String c (mid +:+ attribute u +:+ post)).
  cbn [ImgRegex.after_img]. rewrite Hc. now apply greedy_complete.
Qed.

Lemma exec_sound s u :
  ImgRegex.exec s = Some u ->
  u <> EmptyString /\ plainValue u = true
  /\ exists pre mid post,
      s = pre +:+ "<img" +:+ mid +:+ attribute u +:+ post
      /\ mid <> EmptyString /\ insideTag mid = true.
Proof.
  revert u. induction s as [|c s IH]; intros u.
  - simpl. discriminate.
  - cbn [ImgRegex.exec].
    destruct (JsString.startsWith "<img" (String c s)) eqn:Ep.
    + destruct (ImgRegex.after_img (ImgRegex.drop 4 (String c s))) as [r|] eqn:Ea.
      * intros [= <-].
        destruct (after_img_sound _ _ Ea) as (Hne & Hplain & mid & post & Hs & Hnn & Hmid).
        repeat split; auto. exists EmptyString, mid, post. repeat split; auto.
        rewrite (prefix_split _ _ Ep). change (String.length "<img") with 4%nat.
        rewrite Hs. reflexivity.
      * intros Hs. destruct (IH u Hs) as (Hne & Hplain & pre & mid & post & Hd & Hnn & Hmid).
        repeat split; auto. exists (String c pre), mid, post. repeat split; auto.
        rewrite Hd. reflexivity.
    + intros Hs. destruct (IH u Hs) as (Hne & Hplain & pre & mid & post & Hd & Hnn & Hmid).
      repeat split; auto. exists (String c pre), mid, post. repeat split; auto.
      rewrite Hd. reflexivity.
Qed.

Lemma exec_complete (pre mid u post : string) :
  mid <> EmptyString -> insideTag mid = true ->
  u <> EmptyString -> plainValue u = true ->
  exists r, ImgRegex.exec (pre +:+ "<img" +:+ mid +:+ attribute u +:+ post) = Some r.
Proof.
  intros Hnn Hmid Hne Hplain.
  destruct (after_img_complete mid u post Hnn Hmid Hne Hplain) as [r Hr].
  induction pre as [|c pre IH].
  - exists r. change (EmptyString +:+ "<img" +:+ mid +:+ attribute u +:+ post)
      with ("<img" +:+ mid +:+ attribute u +:+ post).
    remember (mid +:+ attribute u +:+ post) as rest eqn:Erest.
    change ("<img" +:+ rest) with (String "<" (String "i" (String "m" (String "g" rest)))).
    cbn [ImgRegex.exec]. unfold JsString.startsWith.
    change (String "<" (String "i" (String "m" (String "g" rest)))) with ("<img" +:+ rest).
    rewrite prefix_refl_app.
    change 4%nat with (String.length "<img"). now rewrite drop_app, Hr.
  - destruct IH as [r' Hr'].
    change (String c pre +:+ "<img" +:+ mid +:+ attribute u +:+ post)
      with (String c (pre +:+ "<img" +:+ mid +:+ attribute u +:+ post)).
    cbn [ImgRegex.exec]. rewrite Hr'.
    destruct (if JsString.startsWith "<img"
                   (String c (pre +:+ "<img" +:+ mid +:+ attribute u +:+ post))
              then ImgRegex.after_img
                     (ImgRegex.drop 4
                        (String c (pre +:+ "<img" +:+ mid +:+ attribute u +:+ post)))
              else None); eauto.
Qed.

(** X4.  What the image regular expression captures is never empty, holds
    no quote and no >, and is the value of a quoted src attribute that
    follows, in the description, an <img and at least one code unit, none
    of them >: the attribute sits in the tag the <img opens.  And the
    expression fails only on a description that holds no such
    attribute. *)
Theorem img_regex_sound (s : string) :
  (forall u, ImgRegex.exec s = Some u ->
     u <> EmptyString /\ plainValue u = true
     /\ exists pre mid post,
         s = pre +:+ "<img" +:+ mid +:+ attribute u +:+ post
         /\ mid <> EmptyString /\ insideTag mid = true)
  /\ (ImgRegex.exec s = None ->
      forall pre mid u post,
        mid <> EmptyString -> insideTag mid = true ->
        u <> EmptyString -> plainValue u = true ->
        s <> pre +:+ "<img" +:+ mid +:+ attribute u +:+ post).
Proof.
  split.
  - intros u. apply exec_sound.
  - intros Hnone pre mid u post Hnn Hmid Hne Hplain ->.
    destruct (exec_complete pre mid u post Hnn Hmid Hne Hplain) as [r Hr].
    congruence.
Qed.

End RegexFacts.

(** ** More on the Content Extractor *)

Section ExtractorMore.
Context `{Runtime} {Doc Sel : Type} `{Cheerio Doc Sel}.
Variable fetchArticle : jsval -> result Doc.

Lemma length_pos_nonempty (s : string) (n : Z) :
  0 <= n -> n < JsString.length s -> s <> EmptyString.
Proof. intros Hn Hl ->. unfold JsString.length in Hl. simpl in Hl. lia. Qed.

(** The three exits of the page analysis. *)
Lemma extractFromPage_exits (url : jsval) (u : string) (page : Doc) :
  Js.toString url = Ok u ->
  exists out,
    extractFromPage url page = Ok out
    /\ (out = "Could not extract meaningful content from " +:+ u +:+ "."
        \/ 150 < JsString.length out).
Proof.
  intros Hu. unfold extractFromPage.
  match goal with
  | |- context [if usable 150 ?a then _ else _] =>
      destruct (usable 150 a) eqn:Eu; [|
        match goal with
        | |- context [if 200 <? ?b then _ else _] => destruct (200 <? b) eqn:Eb
        end]
  end.
  - unfold usable in Eu. apply andb_prop in Eu as [_ Hl]. apply Z.ltb_lt in Hl.
    eexists. split; [reflexivity|]. right. exact Hl.
  - apply Z.ltb_lt in Eb. eexists. split; [reflexivity|]. right. lia.
  - rewrite Hu. eexists. split; [reflexivity|]. now left.
Qed.

(** X5.  For a URL that can be converted to a string, as every string
    can, the extractor does not throw and does not answer with the empty
    text: its result is the error text of a failed request, the notice
    that nothing could be extracted, or a text of more than 150
    characters.  For a URL whose conversion throws it rejects with that
    error: the log line of the catch block converts the URL again. *)
Theorem extractor_answers (url : jsval) :
  (forall u, Js.toString url = Ok u ->
     exists out,
       extractArticleContent fetchArticle url = Ok out
       /\ out <> EmptyString
       /\ ((exists msg, fetchArticle url = Throw msg
                        /\ out = "Error extracting content: " +:+ msg)
           \/ out = "Could not extract meaningful content from " +:+ u +:+ "."
           \/ 150 < JsString.length out))
  /\ (forall e, Js.toString url = Throw e ->
                extractArticleContent fetchArticle url = Throw e).
Proof.
  split.
  - intros u Hu. unfold extractArticleContent. rewrite Hu. simpl.
    destruct (fetchArticle url) as [page|msg]; simpl.
    + destruct (extractFromPage_exits url u page Hu) as (out & -> & Hout).
      exists out. split; [reflexivity|]. split.
      * destruct Hout as [->|Hl]; [discriminate|].
        eapply length_pos_nonempty; [|exact Hl]. lia.
      * right. exact Hout.
    + eexists. split; [reflexivity|]. split; [discriminate|]. left. eauto.
  - intros e Hu. unfold extractArticleContent. rewrite Hu. reflexivity.
Qed.

End ExtractorMore.

(** ** Short texts *)

Section ShortFacts.
Context `{Runtime}.
Variable tokenize : string -> result (list string).

Lemma append_empty_r (s : string) : s +:+ EmptyString = s.
Proof.
  induction s as [|c s IH]; [reflexivity|].
  change (String c (s +:+ EmptyString) = String c s). now rewrite IH.
Qed.

Lemma prefix_refl (s : string) : String.prefix s s = true.
Proof.
  pose proof (prefix_refl_app s EmptyString) as Hp. now rewrite append_empty_r in Hp.
Qed.

(** X7.  A text under 100 characters is never shortened: the summary begins
    with the whole text, does not depend on maxWords, and is the text
    itself when it has minWords words or more, however many. *)
Theorem short_text_kept (text : string) (minWords maxWords maxWords' : Z) :
  JsString.length text < 100 ->
  let out := summarizeString tokenize text minWords maxWords in
  String.prefix text out = true
  /\ out = summarizeString tokenize text minWords maxWords'
  /\ (minWords <= JsString.wordCount text -> out = text).
Proof.
  intros Hlen out. subst out.
  rewrite !(summarizeString_short tokenize) by exact Hlen.
  unfold summarizeShort. repeat split.
  - destruct (negb (String.eqb text EmptyString)); [|apply prefix_refl].
    destruct (len (JsString.split_ws text) <? minWords);
      [apply prefix_refl_app|apply prefix_refl].
  - intros Hw. destruct (negb (String.eqb text EmptyString)); [|reflexivity].
    change (len (JsString.split_ws text)) with (JsString.wordCount text).
    destruct (JsString.wordCount text <? minWords) eqn:E; [apply Z.ltb_lt in E; lia|].
    reflexivity.
Qed.

End ShortFacts.

(** ** Rejections and the routes *)

Section RejectionFacts.
Context {A : Type}.

(** A rejected promise that settles rejects the whole. *)
Lemma promiseAll_run_rejected (promises : list (result A)) (k : nat) (e : string) :
  promises !! k = Some (Throw e) ->
  forall (order : list nat) (values : list (option A)),
    values !! k = Some None -> k ∈ order ->
    exists j e', promises !! j = Some (Throw e')
                 /\ promiseAll_run promises order values = Some (Throw e').
Proof.
  intros Hk. induction order as [|j later IH]; intros values Hslot Hin;
    [inversion Hin|].
  simpl.
  assert (Hm : mapM id values = None).
  { apply mapM_None_2, Exists_exists. exists None. split; [|reflexivity].
    eapply list_elem_of_lookup_2; eauto. }
  rewrite Hm.
  destruct (promises !! j) as [[v|e0]|] eqn:Ej.
  - assert (Hne : j <> k) by (intros ->; congruence).
    apply IH.
    + now rewrite list_lookup_insert_ne.
    + apply elem_of_cons in Hin as [->|?]; [congruence|assumption].
  - eauto.
  - assert (Hne : j <> k) by (intros ->; congruence).
    apply IH; [exact Hslot|].
    apply elem_of_cons in Hin as [->|?]; [congruence|assumption].
Qed.

Lemma promiseAll_rejected (promises : list (result A)) (order : list nat)
      (k : nat) (e : string) :
  promises !! k = Some (Throw e) -> k ∈ order ->
  exists j e', promises !! j = Some (Throw e')
               /\ promiseAll order promises = Some (Throw e').
Proof.
  intros Hk Hin. unfold promiseAll.
  apply (promiseAll_run_rejected promises k e Hk); [|exact Hin].
  apply lookup_replicate_2. now apply lookup_lt_Some in Hk.
Qed.

Lemma mapR_Throw_inv {B} (f : B -> result A) (xs : list B) (e : string) :
  mapR f xs = Throw e -> exists k x, xs !! k = Some x /\ f x = Throw e.
Proof.
  induction xs as [|x xs IH]; simpl; [discriminate|].
  destruct (f x) as [y|e0] eqn:Ex; simpl.
  - destruct (mapR f xs) as [ys|e1]; simpl; [discriminate|].
    intros [= <-]. destruct (IH eq_refl) as (k & x' & Hk & Hx').
    exists (S k), x'. auto.
  - intros [= <-]. exists 0%nat, x. auto.
Qed.

Lemma mapR_app_Throw {B} (f : B -> result A) (xs1 xs2 : list B) (ys1 : list A)
      (e : string) :
  mapR f xs1 = Ok ys1 -> mapR f (xs1 ++ xs2) = Throw e -> mapR f xs2 = Throw e.
Proof.
  revert ys1. induction xs1 as [|x xs1 IH]; intros ys1; simpl; [auto|].
  destruct (f x) as [y|]; simpl; [|discriminate].
  destruct (mapR f xs1) as [ys|] eqn:E1; simpl; [|discriminate].
  intros _. destruct (mapR f (xs1 ++ xs2)) as [zs|e1] eqn:E2; simpl; [discriminate|].
  intros [= <-]. eapply IH; eauto.
Qed.

End RejectionFacts.

Section RouteFacts.
Context `{Runtime} {Doc Sel : Type} `{Cheerio Doc Sel}.
Variable fetchFeed : string -> result jsval.
Variable hostname : string -> result string.
Variable fetchArticle : jsval -> result Doc.
Variable tokenize : string -> result (list string).
Variable sortByDate : list CanonicalItem -> result (list CanonicalItem).
Variable now : string.

Lemma batchLoop_fails timing (allItems : list CanonicalItem) :
  everyPromiseSettles timing allItems ->
  forall (fuel m : nat) (processed : list jsobj) (e : string),
    (List.length allItems - m < fuel)%nat ->
    mapR (processBatchItem fetchArticle tokenize) (skipn m allItems) = Throw e ->
    exists e', batchLoop fetchArticle tokenize fuel timing allItems (Z.of_nat m) processed
               = Some (Throw e').
Proof.
  intros Hsettle. induction fuel as [|fuel IH]; intros m processed e Hfuel Hrest;
    [lia|].
  simpl. unfold len.
  destruct (Z.of_nat m <? Z.of_nat (List.length allItems)) eqn:Em.
  - apply Z.ltb_lt in Em.
    assert (Hm : (m < List.length allItems)%nat) by lia.
    pose proof (Hsettle (Z.of_nat m)) as Hs.
    rewrite (slice_batch allItems m Hm) in Hs |- *.
    rewrite <- (firstn_skipn 3 (skipn m allItems)) in Hrest.
    destruct (mapR (processBatchItem fetchArticle tokenize)
                   (firstn 3 (skipn m allItems))) as [r1|e1] eqn:E1.
    + pose proof (mapR_Ok _ _ _ E1) as Hmap. rewrite Hmap.
      rewrite promiseAll_fulfilled.
      * replace (Z.of_nat m + batchSize) with (Z.of_nat (m + 3))
          by (unfold batchSize; lia).
        apply (IH (m + 3)%nat _ e); [lia|].
        apply (mapR_app_Throw _ _ _ _ _ E1) in Hrest.
        now rewrite drop_drop in Hrest.
      * intros j Hj. apply Hs.
        apply (f_equal (@List.length _)) in Hmap. rewrite !length_map in Hmap.
        now rewrite Hmap.
    + apply mapR_Throw_inv in E1 as (k & x & Hk & Hx).
      destruct (promiseAll_rejected
                  (List.map (processBatchItem fetchArticle tokenize)
                            (firstn 3 (skipn m allItems)))
                  (timing (Z.of_nat m)) k e1) as (j & e' & _ & ->).
      * rewrite lookup_map, Hk. simpl. now rewrite Hx.
      * apply Hs. now apply lookup_lt_Some in Hk.
      * eauto.
  - apply Z.ltb_ge in Em.
    rewrite skipn_all2 in Hrest by lia. simpl in Hrest. discriminate.
Qed.

(** X14.  Process-all is all or nothing.  When every promise settles, the
    loop ends: it answers with the results of all items, in order, when no
    handler throws, and fails as a whole, answering no item of any batch,
    as soon as one does. *)
Theorem batches_all_or_nothing (timing : Z -> list nat)
        (allItems : list CanonicalItem) :
  everyPromiseSettles timing allItems ->
  (exists outs,
      mapR (processBatchItem fetchArticle tokenize) allItems = Ok outs
      /\ processBatches fetchArticle tokenize timing allItems = Some (Ok outs))
  \/ (exists e e',
         mapR (processBatchItem fetchArticle tokenize) allItems = Throw e
         /\ processBatches fetchArticle tokenize timing allItems = Some (Throw e')).
Proof.
  intros Hsettle.
  destruct (mapR (processBatchItem fetchArticle tokenize) allItems) as [outs|e] eqn:Em.
  - left. exists outs. split; [reflexivity|]. unfold processBatches.
    apply (batchLoop_ordered fetchArticle tokenize timing allItems Hsettle
             _ 0%nat [] outs); [lia|exact Em].
  - right. exists e. unfold processBatches.
    destruct (batchLoop_fails timing allItems Hsettle
                (S (List.length allItems)) 0%nat [] e) as [e' He']; [lia|exact Em|].
    exists e'. split; [reflexivity|exact He'].
Qed.

(** X15.  One item is enough to fail the whole of process-all: an item
    without resolvable link whose description is a structured element (an
    object, not a text) makes its handler throw, and with it the response. *)
Theorem structured_description_fails_all (timing : Z -> list nat)
        (allItems : list CanonicalItem) (item : CanonicalItem) (fields : jsobj) :
  everyPromiseSettles timing allItems ->
  In item allItems ->
  resolvable item = false ->
  description item = JObj fields ->
  exists e, processBatches fetchArticle tokenize timing allItems = Some (Throw e).
Proof.
  intros Hsettle Hin Hres Hdescr.
  assert (Hitem : processBatchItem fetchArticle tokenize item
                  = Throw "text.split is not a function").
  { unfold processBatchItem. rewrite Hres, Hdescr. reflexivity. }
  destruct (mapR_throw _ _ _ _ Hin Hitem) as [e He].
  unfold processBatches.
  apply (batchLoop_fails timing allItems Hsettle _ 0%nat [] e); [lia|exact He].
Qed.

End RouteFacts.

Section RouteMore.
Context `{Runtime} {Doc Sel : Type} `{Cheerio Doc Sel}.
Variable fetchFeed : string -> result jsval.
Variable hostname : string -> result string.
Variable fetchArticle : jsval -> result Doc.
Variable tokenize : string -> result (list string).
Variable sortByDate : list CanonicalItem -> result (list CanonicalItem).
Variable now : string.

Abbreviation allFeedItems :=
  (List.concat (List.map (fetchRSSFeed fetchFeed hostname) rssFeeds)).

Lemma is_str_eq (lit : string) (v : jsval) : Js.is_str lit v = true <-> v = JStr lit.
Proof.
  destruct v; simpl; try (split; [discriminate|intros [=]]).
  rewrite String.eqb_eq. split; [now intros ->|now intros [= ->]].
Qed.

(** X16.  Process-one answers 404 exactly when no item of any source carries
    the requested identifier as a text. *)
Theorem item_not_found_iff (requested : string) :
  status (feedItem fetchFeed hostname fetchArticle tokenize requested) = 404
  <-> forall item, In item allFeedItems -> guid item <> JStr requested.
Proof.
  unfold feedItem.
  destruct (List.find (fun item => Js.is_str requested (guid item)) allFeedItems)
    as [item|] eqn:Ef.
  - apply find_some in Ef as [Hin Hg]. apply is_str_eq in Hg. split.
    + destruct (processOne fetchArticle tokenize item); simpl; discriminate.
    + intros Hall. exfalso. now apply (Hall item Hin).
  - split; [|reflexivity]. intros _ item Hin Hg.
    pose proof (find_none _ _ Ef item Hin) as Hn. simpl in Hn.
    apply is_str_eq in Hg. congruence.
Qed.

Lemma fetchRSSFeed_down url e :
  fetchFeed url = Throw e -> fetchRSSFeed fetchFeed hostname url = [].
Proof. intros Hf. unfold fetchRSSFeed, fetchRSSFeed_try. now rewrite Hf. Qed.

(** X17.  With every source failing, process-all still answers 200, with an
    empty list of items, and process-one answers 404 for every identifier:
    a source that cannot be fetched or parsed is not an error of the
    routes. *)
Theorem sources_down (timing : Z -> list nat) :
  (forall url, In url rssFeeds -> exists e, fetchFeed url = Throw e) ->
  sortByDate [] = Ok [] ->
  feedsAll fetchFeed hostname fetchArticle tokenize sortByDate now timing
  = Some {| status := 200;
            body := [ ("sources", JArr (List.map JStr rssFeeds));
                      ("lastUpdated", JStr now);
                      ("items", JArr []) ]%string |}
  /\ forall requested,
      feedItem fetchFeed hostname fetchArticle tokenize requested
      = {| status := 404; body := [("error", JStr "Item not found")]%string |}.
Proof.
  intros Hdown Hsort.
  assert (Hall : allFeedItems = []).
  { unfold rssFeeds in *. simpl.
    destruct (Hdown _ (or_introl eq_refl)) as [e1 H1].
    destruct (Hdown _ (or_intror (or_introl eq_refl))) as [e2 H2].
    destruct (Hdown _ (or_intror (or_intror (or_introl eq_refl)))) as [e3 H3].
    now rewrite (fetchRSSFeed_down _ _ H1), (fetchRSSFeed_down _ _ H2),
                (fetchRSSFeed_down _ _ H3). }
  split.
  - unfold feedsAll, feedsAll_try. rewrite Hall, Hsort. reflexivity.
  - intros requested. unfold feedItem. rewrite Hall. reflexivity.
Qed.

(** X18.  An item whose image cascade and identifier resolution do not
    throw, whose link is missing or is a structured element without
    attribute object, and whose description is a non-empty text, is
    normalized into an item that is not resolvable, and the handler
    summarizes its description without asking for any article. *)
Theorem linkless_item_uses_description (url : string) (srcName : jsval)
        (fields : jsobj) (img g : jsval) (d : string) :
  resolveImage (JObj fields) = Ok img ->
  resolveGuid url (JObj fields) = Ok g ->
  (Js.lookup "link" fields = JUndef
   \/ exists l, Js.lookup "link" fields = JObj l
                /\ Js.truthy (Js.lookup "$" l) = false) ->
  Js.lookup "description" fields = JStr d -> d <> EmptyString ->
  exists c,
    normalizeItem url srcName (JObj fields) = Ok c
    /\ resolvable c = false
    /\ processBatchItem fetchArticle tokenize c
       = Ok (processedItem c (JStr (summarizeString tokenize d 60 60))).
Proof.
  intros Himg Hg Hlink Hd Hne.
  assert (Hnn : Js.lookup "link" fields <> JNull).
  { destruct Hlink as [->|(l & -> & _)]; discriminate. }
  destruct (normalizeItem_object url srcName fields img g Himg Hg Hnn)
    as (lnk & Hl & Hc).
  eexists. split; [exact Hc|].
  assert (Hlnk : lnk = JUndef \/ lnk = JStr "#").
  { unfold resolveLink in Hl. simpl in Hl.
    destruct Hlink as [E|(l & E & Ea)]; rewrite E in Hl; simpl in Hl.
    - left. ok_ret. congruence.
    - rewrite Ea in Hl. simpl in Hl. right. ok_ret. congruence. }
  assert (Htruthy : Js.truthy (JStr d) = true).
  { simpl. apply negb_true_iff, String.eqb_neq. exact Hne. }
  assert (Hres : resolvable
                   {| guid := g;
                      title := Js.or (Js.lookup "title" fields) (JStr "No Title");
                      description :=
                        Js.or (Js.lookup "description" fields)
                              (Js.or (Js.lookup "summary" fields) (JStr "No Description"));
                      link := lnk;
                      pubDate :=
                        Js.or (Js.lookup "pubDate" fields)
                              (Js.or (Js.lookup "published" fields)
                                     (Js.or (Js.lookup "updated" fields) (JStr "No Date")));
                      imageUrl := img; source := url; sourceName := srcName |} = false).
  { unfold resolvable. simpl. destruct Hlnk as [->| ->]; reflexivity. }
  split; [exact Hres|].
  assert (Hdescr : forall alt, Js.or (Js.lookup "description" fields) alt = JStr d).
  { intros alt. rewrite Hd. unfold Js.or. now rewrite Htruthy. }
  unfold processBatchItem. rewrite Hres. cbn [description].
  rewrite !Hdescr. unfold Js.or. rewrite Htruthy. reflexivity.
Qed.

(** X19.  The two routes agree wherever the handler of process-all
    answers from its try block or from a text: for an item with a
    resolvable link whose title can be converted and whose article the
    extractor answers for, and for an item with a non-empty text as
    description whose link is not resolvable or whose title cannot be
    converted (the link can), process-all and process-one compute the
    same summary and hand out the same values under the seven keys of a
    processed item. *)
Theorem routes_agree (item : CanonicalItem) :
  (resolvable item = true
   /\ exists t content,
       Js.toString (title item) = Ok t
       /\ extractArticleContent fetchArticle (link item) = Ok content)
  \/ ((resolvable item = false
       \/ (resolvable item = true
           /\ exists e l, Js.toString (title item) = Throw e
                          /\ Js.toString (link item) = Ok l))
      /\ exists d, description item = JStr d /\ d <> EmptyString) ->
  exists a b,
    processBatchItem fetchArticle tokenize item = Ok a
    /\ processOne fetchArticle tokenize item = Ok b
    /\ Forall (fun k => Js.lookup k a = Js.lookup k b) processedKeys.
Proof.
  intros [(Hres & t & content & Ht & Hc) | (Hcase & d & Hd & Hne)].
  - eexists. eexists.
    split; [exact (processBatchItem_resolvable fetchArticle tokenize item t content
                     Hres Ht Hc)|].
    split; [exact (processOne_resolvable fetchArticle tokenize item t content
                     Hres Ht Hc)|].
    repeat constructor.
  - assert (Htruthy : Js.truthy (JStr d) = true).
    { simpl. apply negb_true_iff, String.eqb_neq. exact Hne. }
    exists (processedItem item (JStr (summarizeString tokenize d 60 60))),
           (spreadItem item (JStr (summarizeString tokenize d 60 60))).
    destruct Hcase as [Hres | (Hres & e & l & Ht & Hl)].
    + split; [|split; [|repeat constructor]].
      * unfold processBatchItem. rewrite Hres, Hd. unfold Js.or. rewrite Htruthy.
        reflexivity.
      * rewrite (processOne_unresolvable fetchArticle tokenize item Hres), Hd.
        reflexivity.
    + split; [|split; [|repeat constructor]].
      * rewrite (processBatchItem_caught fetchArticle tokenize item e l Hres Ht Hl), Hd.
        unfold Js.or. rewrite Htruthy. reflexivity.
      * rewrite (processOne_caught fetchArticle tokenize item e), Hd; [reflexivity|].
        apply processOne_try_throws; auto.
Qed.

(** X21.  One item is enough to fail both routes although its link is
    resolvable: when the title cannot be converted for the log line and
    the description is a structured element, the catch block of the
    handler throws in turn, and so does the catch block of process-one,
    which then answers 500. *)
Theorem unconvertible_title_fails_routes (item : CanonicalItem) (fields : jsobj)
        (e l : string) :
  resolvable item = true ->
  Js.toString (title item) = Throw e ->
  Js.toString (link item) = Ok l ->
  description item = JObj fields ->
  processBatchItem fetchArticle tokenize item = Throw "text.split is not a function"
  /\ processOne fetchArticle tokenize item = Throw "text.split is not a function"
  /\ (forall requested,
        List.find (fun it => Js.is_str requested (guid it)) allFeedItems = Some item ->
        feedItem fetchFeed hostname fetchArticle tokenize requested
        = {| status := 500; body := [("error", JStr "Failed to fetch item")]%string |}).
Proof.
  intros Hres Ht Hl Hd.
  assert (Hone : processOne fetchArticle tokenize item
                 = Throw "text.split is not a function").
  { rewrite (processOne_caught fetchArticle tokenize item e), Hd; [reflexivity|].
    apply processOne_try_throws; auto. }
  split; [|split; [exact Hone|]].
  - rewrite (processBatchItem_caught fetchArticle tokenize item e l Hres Ht Hl), Hd.
    reflexivity.
  - intros requested Hfind. unfold feedItem. rewrite Hfind, Hone. reflexivity.
Qed.

End RouteMore.

(** ** The added statements on samples *)

Section FurtherSamples.
#[local] Existing Instance Runtimes.legacy.

Lemma cleanText_words_witness :
  Forall (fun w => w <> EmptyString /\ sepFree JsString.is_space w = true)
         (JsString.split_ws (cleanText "  Markets   rallied on Tuesday. ")).
Proof.
  apply (proj2 (proj2 (cleanText_words "  Markets   rallied on Tuesday. "))).
  vm_compute. discriminate.
Defined.

Lemma few_sentences_bounded_witness :
  JsString.wordCount
    (summarizeString SampleText.tokenizer SamplePipeline.mainText 10 20) <= 20
  /\ JsString.wordCount
       (summarizeString SampleText.tokenizer SamplePipeline.mainText 10 20) = 20.
Proof.
  destruct (few_sentences_bounded SampleText.tokenizer SamplePipeline.mainText 10 20
              [SamplePipeline.mainText]) as (Hle & _ & Hcut).
  - vm_compute. discriminate.
  - vm_compute. reflexivity.
  - vm_compute. discriminate.
  - vm_compute. discriminate.
  - lia.
  - split; [exact Hle|]. apply Hcut; vm_compute; [reflexivity|discriminate].
Defined.

Lemma tokenizer_failure_bounded_witness :
  JsString.wordCount
    (summarizeString SampleText.failingTokenizer SamplePipeline.mainText 10 20) <= 20.
Proof.
  apply (tokenizer_failure_bounded SampleText.failingTokenizer SamplePipeline.mainText
           10 20 "tokenizer failure").
  - vm_compute. discriminate.
  - reflexivity.
  - vm_compute. discriminate.
  - lia.
Defined.



Lemma topSentences_selection_witness :
  In (nth 0 (topSentencesOf SampleStory.sentences) EmptyString) SampleStory.sentences.
Proof.
  apply (proj1 (topSentences_selection SampleStory.sentences)).
  vm_compute. left. reflexivity.
Defined.

Lemma selection_within_bounds_witness :
  summarizeString SampleText.tokenizer SampleStory.story 40 50
  = JsString.trim (JsString.join " " (topSentencesOf SampleStory.sentences)).
Proof.
  apply (selection_within_bounds SampleText.tokenizer SampleStory.story 40 50).
  - vm_compute. discriminate.
  - vm_compute. reflexivity.
  - vm_compute. reflexivity.
  - vm_compute. discriminate.
  - vm_compute. discriminate.
Defined.

Lemma wordFrequencies_counts_witness :
  wordFrequencies SampleStory.sentences !! "bridge"%string = Some (Count 6)
  /\ wordFrequencies SampleStory.sentences !! "the"%string = None
  /\ wordFrequencies SampleStory.constructive !! "constructor"%string
     = Some (ObjectText 2).
Proof.
  split; [|split].
  - apply (proj1 (wordFrequencies_counts SampleStory.sentences "bridge")). reflexivity.
  - apply (proj1 (proj2 (wordFrequencies_counts SampleStory.sentences "the"))).
    left. reflexivity.
  - apply (proj1 (proj2 (proj2 (wordFrequencies_counts SampleStory.constructive
                                  "constructor")))).
    reflexivity.
Defined.

Lemma inherited_name_scores_NaN_witness :
  score (scoreSentence (wordFrequencies SampleStory.constructive)
                       "The constructor runs before the constructor of the subclass.")
  = None.
Proof.
  apply (proj2 (inherited_name_scores_NaN SampleStory.constructive
                  "The constructor runs before the constructor of the subclass.")).
  vm_compute. right. left. reflexivity.
Defined.

Lemma normalized_fields_present_witness :
  exists c,
    normalizeItem Samples.feedUrl (JStr "BBC News") (JObj Samples.bareItem) = Ok c
    /\ Js.truthy (guid c) = true /\ Js.truthy (title c) = true
    /\ Js.truthy (description c) = true /\ Js.truthy (pubDate c) = true
    /\ source c = Samples.feedUrl /\ sourceName c = JStr "BBC News".
Proof.
  eexists. split; [vm_compute; reflexivity|].
  apply (normalized_fields_present Samples.feedUrl (JStr "BBC News")
           (JObj Samples.bareItem)).
  vm_compute. reflexivity.
Defined.

Lemma normalized_guid_witness :
  exists c s,
    normalizeItem Samples.feedUrl (JStr "BBC News") (JObj Samples.bareItem) = Ok c
    /\ guid c = JStr s /\ s <> EmptyString
    /\ guid c =
       firstTruthy [unwrapped (Js.lookup "guid" Samples.bareItem);
                    Js.lookup "id" Samples.bareItem; Js.lookup "link" Samples.bareItem]
         (JStr (Samples.feedUrl +:+ "-" +:+ "Bridge reopens" +:+ "-" +:+ "undefined")).
Proof.
  apply (normalized_guid Samples.feedUrl (JStr "BBC News") Samples.bareItem JNull
           "Bridge reopens" "undefined"); reflexivity.
Defined.

Lemma image_cascade_order_witness :
  resolveImage (JObj Samples.itemWithImageAndBareThumbnail)
  = Ok (JStr "https://img/1.png").
Proof.
  apply (proj1 (image_cascade_order Samples.itemWithImageAndBareThumbnail
                  [("$", JObj [("type", JStr "image/png");
                               ("url", JStr "https://img/1.png")])]%string
                  [("type", JStr "image/png"); ("url", JStr "https://img/1.png")]%string
                  "image/png" eq_refl eq_refl eq_refl)).
  reflexivity.
Defined.

Lemma img_regex_sound_witness :
  exists pre mid post,
    SampleStory.html
    = pre +:+ "<img" +:+ mid +:+ attribute "https://img/logo.png" +:+ post
    /\ mid <> EmptyString /\ insideTag mid = true.
Proof.
  apply (proj1 (img_regex_sound SampleStory.html) "https://img/logo.png").
  vm_compute. reflexivity.
Defined.

Lemma extractor_answers_witness :
  exists out,
    extractArticleContent SamplePipeline.offline (JStr "https://www.bbc.co.uk/news/1")
    = Ok out
    /\ out <> EmptyString.
Proof.
  destruct (proj1 (extractor_answers SamplePipeline.offline
                     (JStr "https://www.bbc.co.uk/news/1"))
              "https://www.bbc.co.uk/news/1"%string eq_refl)
    as (out & Hout & Hne & _).
  exists out. auto.
Defined.

Lemma short_text_kept_witness :
  summarizeString SampleText.tokenizer "one two three four five six" 3 2
  = "one two three four five six"%string.
Proof.
  apply (short_text_kept SampleText.tokenizer "one two three four five six" 3 2 2).
  - reflexivity.
  - vm_compute. discriminate.
Defined.

Lemma lastFirst_settles_all (allItems : list CanonicalItem) :
  everyPromiseSettles SamplePipeline.lastFirst allItems.
Proof.
  intros i j Hj. pose proof (batch_length i allItems) as Hle.
  unfold SamplePipeline.lastFirst.
  destruct j as [|[|[|j]]]; [set_solver|set_solver|set_solver|lia].
Defined.

Lemma batches_all_or_nothing_witness :
  (exists outs,
      mapR (processBatchItem SamplePipeline.offline SampleText.tokenizer)
           SamplePipeline.seven = Ok outs
      /\ processBatches SamplePipeline.offline SampleText.tokenizer
                        SamplePipeline.lastFirst SamplePipeline.seven = Some (Ok outs))
  \/ (exists e e',
         mapR (processBatchItem SamplePipeline.offline SampleText.tokenizer)
              SamplePipeline.seven = Throw e
         /\ processBatches SamplePipeline.offline SampleText.tokenizer
                           SamplePipeline.lastFirst SamplePipeline.seven
            = Some (Throw e')).
Proof.
  apply (batches_all_or_nothing SamplePipeline.offline SampleText.tokenizer).
  apply lastFirst_settles_all.
Defined.

Lemma structured_description_fails_all_witness :
  exists e,
    processBatches SamplePipeline.offline SampleText.tokenizer SamplePipeline.lastFirst
                   (SamplePipeline.seven ++ [SampleStory.structured])
    = Some (Throw e).
Proof.
  apply (structured_description_fails_all SamplePipeline.offline SampleText.tokenizer
           SamplePipeline.lastFirst _ SampleStory.structured
           [("_", JStr "Teaser of story 9."); ("$", JObj [("type", JStr "html")])]%string).
  - apply lastFirst_settles_all.
  - apply in_or_app. right. left. reflexivity.
  - reflexivity.
  - reflexivity.
Defined.

Lemma item_not_found_iff_witness :
  status (feedItem SampleStory.unreachable Samples.host SamplePipeline.offline
                   SampleText.tokenizer "tag:1") = 404.
Proof.
  apply (item_not_found_iff SampleStory.unreachable Samples.host SamplePipeline.offline
           SampleText.tokenizer "tag:1").
  intros item Hin. vm_compute in Hin. destruct Hin.
Defined.

Lemma sources_down_witness :
  feedsAll SampleStory.unreachable Samples.host SamplePipeline.offline
           SampleText.tokenizer Ok "2025-06-02T10:00:00.000Z"
           SamplePipeline.lastFirst
  = Some {| status := 200;
            body := [ ("sources", JArr (List.map JStr rssFeeds));
                      ("lastUpdated", JStr "2025-06-02T10:00:00.000Z");
                      ("items", JArr []) ]%string |}.
Proof.
  apply (sources_down SampleStory.unreachable Samples.host SamplePipeline.offline
           SampleText.tokenizer Ok "2025-06-02T10:00:00.000Z"
           SamplePipeline.lastFirst).
  - intros url _. exists "getaddrinfo ENOTFOUND"%string. reflexivity.
  - reflexivity.
Defined.

Lemma linkless_item_uses_description_witness :
  exists c,
    normalizeItem Samples.feedUrl (JStr "BBC News") (JObj Samples.itemWithoutLink) = Ok c
    /\ resolvable c = false
    /\ processBatchItem SamplePipeline.offline SampleText.tokenizer c
       = Ok (processedItem c (JStr (summarizeString SampleText.tokenizer "Teaser" 60 60))).
Proof.
  apply (linkless_item_uses_description SamplePipeline.offline SampleText.tokenizer
           Samples.feedUrl (JStr "BBC News") Samples.itemWithoutLink JNull
           (JStr "tag:1") "Teaser").
  - reflexivity.
  - reflexivity.
  - left. reflexivity.
  - reflexivity.
  - discriminate.
Defined.

Lemma routes_agree_witness :
  (exists a b,
      processBatchItem SamplePipeline.offline SampleText.tokenizer SamplePipeline.linked
      = Ok a
      /\ processOne SamplePipeline.offline SampleText.tokenizer SamplePipeline.linked = Ok b
      /\ Forall (fun k => Js.lookup k a = Js.lookup k b) processedKeys)
  /\ (exists a b,
         processBatchItem SamplePipeline.offline SampleText.tokenizer
                          SamplePipeline.shadowed = Ok a
         /\ processOne SamplePipeline.offline SampleText.tokenizer
                       SamplePipeline.shadowed = Ok b
         /\ Forall (fun k => Js.lookup k a = Js.lookup k b) processedKeys).
Proof.
  split.
  - apply (routes_agree SamplePipeline.offline SampleText.tokenizer SamplePipeline.linked).
    left. split; [reflexivity|].
    exists "Headline 1"%string,
           "Error extracting content: timeout of 15000ms exceeded"%string.
    split; reflexivity.
  - apply (routes_agree SamplePipeline.offline SampleText.tokenizer
             SamplePipeline.shadowed).
    right. split.
    + right. split; [reflexivity|].
      exists "Cannot convert object to primitive value"%string,
             "https://www.bbc.co.uk/news/4"%string.
      split; reflexivity.
    + exists "The bridge reopens next month after repairs."%string.
      split; [reflexivity|discriminate].
Defined.

Lemma unconvertible_title_fails_routes_witness :
  processBatchItem SamplePipeline.offline SampleText.tokenizer SampleStory.doubtful
  = Throw "text.split is not a function"
  /\ processOne SamplePipeline.offline SampleText.tokenizer SampleStory.doubtful
     = Throw "text.split is not a function".
Proof.
  assert (Hfail := unconvertible_title_fails_routes
                     SampleStory.unreachable Samples.host SamplePipeline.offline
                     SampleText.tokenizer SampleStory.doubtful
                     [("_", JStr "Teaser of story 9.");
                      ("$", JObj [("type", JStr "html")])]%string
                     "Cannot convert object to primitive value"%string
                     "https://www.bbc.co.uk/news/9"%string).
  destruct Hfail as (Hall & Hone & _); try reflexivity.
  split; assumption.
Defined.

End FurtherSamples.

Lemma summary_engine_independent_witness :
  @summarizeString Runtimes.legacy SampleText.tokenizer SampleStory.story 40 50
  = @summarizeString Runtimes.reversing SampleText.tokenizer SampleStory.story 40 50.
Proof.
  apply (summary_engine_independent SampleText.tokenizer Runtimes.legacy
           Runtimes.reversing SampleStory.story 40 50).
  intros sentences Hs. vm_compute in Hs. injection Hs as <-.
  vm_compute. repeat constructor.
Defined.

(** With a NaN among the scores two engines that both follow the language
    can return different summaries: the one that reverses an array it
    cannot sort keeps other sentences than the insertion sort. *)
Example engines_differ_on_NaN :
  @summarizeString Runtimes.legacy SampleText.tokenizer SampleStory.manual 10 60
  = "The constructor runs before the constructor of the subclass. Fields are set by the parent first. The subclass then adds fields of its own. Nothing else happens at creation. Later calls reuse the same fields."%string
  /\ @summarizeString Runtimes.reversing SampleText.tokenizer SampleStory.manual 10 60
     = "The subclass then adds fields of its own. Nothing else happens at creation. Later calls reuse the same fields. A method may replace a field at any time. The object lives until nothing refers to it."%string.
Proof. split; vm_compute; reflexivity. Qed.

